(** * LIA-WEB: the streaming gesture recogniser

    A shallow embedding of [GestureRecognizer] and of the main loop of
    [lia-web/scripts/reconhecer_gestos.py], together with the two older
    variants of the same pipeline that live in [libras_alfabeto_projeto]
    (the stand-alone script and the desktop application).

    Conventions.
    - A Python [deque(maxlen=n)] is a list, oldest element first.
    - Finite floating point numbers are rationals ([Q]); only comparisons
      are made on them.  NaN is outside the model.
    - Python integers are unbounded: [nat].
    - The pose detector and the classifier are external.  The detector's
      answer is the input of a frame; the classifier is a function handed
      to the recogniser, which may raise.
    - Drawing, printing and camera handling are left out; what the loop
      prints on a recognition is kept as the list of events. *)

From Stdlib Require Import QArith String.
From Stdlib Require Import List Arith Bool Lia.
Import ListNotations.

Local Close Scope Q_scope.
Local Open Scope nat_scope.

Set Implicit Arguments.

(** ** Python values used by the pipeline *)

(** Exceptions that the modelled code can raise. *)
Inductive py_exc : Type :=
| IndexError
| ValueError
| AttributeError
| ModelError.   (* whatever [model.predict] itself raises *)

(** Result of an expression that may raise. *)
Inductive res (A : Type) : Type :=
| Val (a : A)
| Exc (e : py_exc).

Arguments Val {A} a.
Arguments Exc {A} e.

(** [a < b] on finite floats. *)
Definition Qlt_bool (a b : Q) : bool := negb (Qle_bool b a).

(** [a > b] on finite floats. *)
Definition Qgt_bool (a b : Q) : bool := Qlt_bool b a.

(** ** [collections.deque] with a [maxlen] *)

Module Deque.

Section Ops.
Variable A : Type.

(** [d.append(x)]: the element goes to the right end; when the deque is
    then longer than [maxlen] the leftmost element is dropped. *)
Definition append (maxlen : nat) (d : list A) (x : A) : list A :=
  let d' := d ++ [x] in
  if maxlen <? length d' then tl d' else d'.

(** [d.clear()] *)
Definition clear (d : list A) : list A := [].

(** Appending a whole list, left to right. *)
Definition extend (maxlen : nat) (d : list A) (xs : list A) : list A :=
  fold_left (append maxlen) xs d.

End Ops.

End Deque.

(** ** Configuration constants of [lia-web/scripts/reconhecer_gestos.py] *)

Definition SEQUENCE_LENGTH : nat := 30.
Definition MIN_CONFIDENCE : Q := 7 # 10.
Definition RESET_THRESHOLD : nat := 10.
Definition HISTORY_SIZE : nat := 15.

(** ** The pose encoder: [processar_landmarks] *)

(** One landmark [lm] with [lm.x], [lm.y], [lm.z]. *)
Definition landmark : Type := (Q * Q * Q)%type.

(** One detected hand: [hand.landmark]. *)
Definition hand : Type := list landmark.

(** [results.multi_hand_landmarks]: [None] or a list of hands. *)
Definition results : Type := option (list hand).

(** One frame's feature vector. *)
Definition sample : Type := list Q.

(** Python truth value of [results.multi_hand_landmarks]. *)
Definition has_hands (rs : results) : bool :=
  match rs with
  | None | Some [] => false
  | Some (_ :: _) => true
  end.

Definition zero_landmark : landmark := (0%Q, 0%Q, 0%Q).

(** [np.array(landmarks).flatten()] *)
Definition flatten (lms : list landmark) : sample :=
  flat_map (fun lm => match lm with (x, y, z) => [x; y; z] end) lms.

Definition processar_landmarks (rs : results) : sample :=
  let landmarks :=
    if has_hands rs
    then concat (match rs with Some hs => hs | None => [] end)
    else [] in
  let landmarks := firstn 42 landmarks in
  let landmarks := landmarks ++ repeat zero_landmark (42 - length landmarks) in
  flatten landmarks.

(** ** Pieces of the inference step *)

(** [np.argmax]: index of the first largest entry; raises on an empty
    array. *)
Fixpoint argmax_from (best_i : nat) (best : Q) (i : nat) (l : list Q) : nat :=
  match l with
  | [] => best_i
  | x :: t =>
      if Qlt_bool best x then argmax_from i x (S i) t
      else argmax_from best_i best (S i) t
  end.

Definition argmax (l : list Q) : res nat :=
  match l with
  | [] => Exc ValueError
  | x :: t => Val (argmax_from 0 x 1 t)
  end.

(** [xs[i]] on a Python list or an array. *)
Definition index (A : Type) (xs : list A) (i : nat) : res A :=
  match nth_error xs i with
  | Some x => Val x
  | None => Exc IndexError
  end.

(** [np.array(buffer).reshape(1, n, 126)]: the window goes through
    unchanged when it holds [n] rows of 126 numbers. *)
Definition reshape (n : nat) (window : list sample) : res (list sample) :=
  if (length window =? n) && forallb (fun s => length s =? 126) window
  then Val window
  else Exc ValueError.

(** [contagem[g] += 1] on a [defaultdict(int)].  The dictionary keeps
    its keys in the order in which they were first inserted. *)
Fixpoint incr (g : string) (contagem : list (string * nat)) : list (string * nat) :=
  match contagem with
  | [] => [(g, 1)]
  | (k, n) :: rest =>
      if String.eqb k g then (k, S n) :: rest else (k, n) :: incr g rest
  end.

(** [for g in history: contagem[g] += 1] *)
Definition contar (history : list string) : list (string * nat) :=
  fold_left (fun contagem g => incr g contagem) history [].

(** [max(items, key=lambda x: x[1])]: the first item with the largest
    count; raises on an empty sequence. *)
Fixpoint max_from (best : string * nat) (items : list (string * nat)) : string * nat :=
  match items with
  | [] => best
  | it :: rest =>
      if snd best <? snd it then max_from it rest else max_from best rest
  end.

Definition py_max (items : list (string * nat)) : res (string * nat) :=
  match items with
  | [] => Exc ValueError
  | it :: rest => Val (max_from it rest)
  end.

(** The majority vote over a history. *)
Definition votacao (history : list string) : res string :=
  match py_max (contar history) with
  | Val it => Val (fst it)
  | Exc e => Exc e
  end.

(** Python truth value of a [str | None]. *)
Definition truthy (g : option string) : bool :=
  match g with
  | None => false
  | Some s => negb (String.eqb s EmptyString)
  end.

(** [a == b] on [str | None]. *)
Definition gesto_eqb (a b : option string) : bool :=
  match a, b with
  | None, None => true
  | Some x, Some y => String.eqb x y
  | _, _ => false
  end.

(** ** State of a [GestureRecognizer] *)

(** The mutable attributes of the pipeline.  [predict_calls] is not an
    attribute: it records the windows handed to the classifier, newest
    first. *)
Record recognizer : Type := mkRecognizer {
  buffer : list sample;
  prediction_history : list string;
  frames_sem_maos : nat;
  ultimo_gesto : option string;
  ultima_confianca : Q;
  predict_calls : list (list sample)
}.

Definition set_buffer (b : list sample) (r : recognizer) : recognizer :=
  mkRecognizer b (prediction_history r) (frames_sem_maos r)
               (ultimo_gesto r) (ultima_confianca r) (predict_calls r).

Definition set_prediction_history (h : list string) (r : recognizer) : recognizer :=
  mkRecognizer (buffer r) h (frames_sem_maos r)
               (ultimo_gesto r) (ultima_confianca r) (predict_calls r).

Definition set_frames_sem_maos (n : nat) (r : recognizer) : recognizer :=
  mkRecognizer (buffer r) (prediction_history r) n
               (ultimo_gesto r) (ultima_confianca r) (predict_calls r).

Definition set_ultimo (g : option string) (c : Q) (r : recognizer) : recognizer :=
  mkRecognizer (buffer r) (prediction_history r) (frames_sem_maos r)
               g c (predict_calls r).

Definition log_call (w : list sample) (r : recognizer) : recognizer :=
  mkRecognizer (buffer r) (prediction_history r) (frames_sem_maos r)
               (ultimo_gesto r) (ultima_confianca r) (w :: predict_calls r).

(** The window after this frame's sample has been pushed. *)
Definition pushed (rs : results) (r : recognizer) : list sample :=
  Deque.append SEQUENCE_LENGTH (buffer r) (processar_landmarks rs).

(** The vote history after an accepted label has been appended. *)
Definition voted (g : string) (r : recognizer) : list string :=
  Deque.append HISTORY_SIZE (prediction_history r) g.

(** The state built by [__init__]. *)
Definition init : recognizer :=
  mkRecognizer [] [] 0 None 0%Q [].

(** ** A state monad with exceptions

    A method either returns a value or raises; the mutations made before
    the exception stay. *)

Definition M (S A : Type) : Type := S -> res A * S.

Definition ret {S A : Type} (a : A) : M S A := fun s => (Val a, s).

Definition bind {S A B : Type} (m : M S A) (k : A -> M S B) : M S B :=
  fun s =>
    match m s with
    | (Val a, s') => k a s'
    | (Exc e, s') => (Exc e, s')
    end.

Definition get {S : Type} : M S S := fun s => (Val s, s).

Definition modify {S : Type} (f : S -> S) : M S unit := fun s => (Val tt, f s).

(** An expression that may raise, used inside a method. *)
Definition lift {S A : Type} (x : res A) : M S A := fun s => (x, s).

(** [try: body except Exception: handler] *)
Definition try_except {S A : Type} (body : M S A) (handler : py_exc -> M S A) : M S A :=
  fun s =>
    match body s with
    | (Val a, s') => (Val a, s')
    | (Exc e, s') => handler e s'
    end.

Declare Scope py_scope.
Delimit Scope py_scope with py.

Notation "x <- m ;; k" := (bind m (fun x => k))
  (at level 61, m at next level, right associativity) : py_scope.
Notation "m ;; k" := (bind m (fun _ => k))
  (at level 61, right associativity) : py_scope.

Local Open Scope py_scope.

(** ** [GestureRecognizer] *)

(** What [model.predict(entrada, verbose=0)] gives back: it raises, or it
    returns one row of class probabilities per window of the batch. *)
Definition classifier : Type := list sample -> res (list (list Q)).

(** What [processar_frame] returns besides the annotated frame:
    [(self.ultimo_gesto, self.ultima_confianca, novo_reconhecimento)]. *)
Definition frame_out : Type := (option string * Q * bool)%type.

(** The recognition that the main loop reports for a frame, if any. *)
Definition evento (out : frame_out) : option (option string * Q) :=
  match out with
  | (gesto, confianca, true) => Some (gesto, confianca)
  | (_, _, false) => None
  end.

Section Recognizer.

(** [self.model], [self.classes] and [self.min_confidence] are set once
    by [__init__]. *)
Variable model : classifier.
Variable classes : list string.
Variable min_confidence : Q.

(** [self.model.predict(entrada, verbose=0)] *)
Definition predict (entrada : list sample) : M recognizer (list (list Q)) :=
  modify (log_call entrada) ;;
  lift (model entrada).

Definition reconhecer : M recognizer (option string * Q) :=
  self <- get ;;
  if length (buffer self) <? SEQUENCE_LENGTH then ret (None, 0%Q)
  else
    entrada <- lift (reshape SEQUENCE_LENGTH (buffer self)) ;;
    batch <- predict entrada ;;
    predicoes <- lift (index batch 0) ;;
    classe_idx <- lift (argmax predicoes) ;;
    confianca <- lift (index predicoes classe_idx) ;;
    if Qlt_bool confianca min_confidence then ret (None, confianca)
    else
      gesto <- lift (index classes classe_idx) ;;
      modify (fun self =>
        set_prediction_history
          (Deque.append HISTORY_SIZE (prediction_history self) gesto) self) ;;
      self <- get ;;
      gesto_final <- lift (votacao (prediction_history self)) ;;
      ret (Some gesto_final, confianca).

Definition processar_frame (rs : results) : M recognizer frame_out :=
  novo_reconhecimento <-
    (if negb (has_hands rs) then
       modify (fun self => set_frames_sem_maos (frames_sem_maos self + 1) self) ;;
       self <- get ;;
       (if (RESET_THRESHOLD <? frames_sem_maos self) && (0 <? length (buffer self))
        then modify (fun self =>
               set_prediction_history (Deque.clear (prediction_history self))
                 (set_buffer (Deque.clear (buffer self)) self))
        else ret tt) ;;
       ret false
     else
       modify (set_frames_sem_maos 0) ;;
       modify (fun self =>
         set_buffer
           (Deque.append SEQUENCE_LENGTH (buffer self) (processar_landmarks rs))
           self) ;;
       self <- get ;;
       if length (buffer self) =? SEQUENCE_LENGTH then
         gc <- reconhecer ;;
         self <- get ;;
         if truthy (fst gc) && negb (gesto_eqb (fst gc) (ultimo_gesto self)) then
           modify (set_ultimo (fst gc) (snd gc)) ;;
           modify (fun self => set_buffer (Deque.clear (buffer self)) self) ;;
           ret true
         else ret false
       else ret false) ;;
  self <- get ;;
  ret (ultimo_gesto self, ultima_confianca self, novo_reconhecimento).

Definition reset : M recognizer unit :=
  modify (fun self =>
    mkRecognizer (Deque.clear (buffer self))
                 (Deque.clear (prediction_history self))
                 0 None 0%Q (predict_calls self)).

(** *** The main loop *)

(** The key read by [cv2.waitKey] at the end of an iteration; keys that
    only change what is displayed or scored are [KeyOther]. *)
Inductive key : Type := KeyEsc | KeyR | KeyOther.

(** One iteration's inputs: the detector's answer for the captured frame
    ([None] when [cap.read()] gave no frame) and the key that
    [cv2.waitKey] returns at the end of the iteration.  An iteration
    without a frame leaves by [continue] before [cv2.waitKey] is called:
    its key component stands for no call and is not read. *)
Definition tick : Type := (option results * key)%type.

(** How the loop stands after the given iterations. *)
Inductive loop_status : Type :=
| Looping                 (* still inside [while] *)
| Stopped                 (* ESC: [break] *)
| Crashed (e : py_exc).   (* an exception left the loop *)

(** The body of [while cap.isOpened()], run over the given iterations:
    the status, the recogniser, and the recognitions reported, oldest
    first.  Only [KeyboardInterrupt] is caught around the loop, so any
    exception raised by [processar_frame] ends it. *)
Fixpoint main_loop (ticks : list tick) (r : recognizer)
  : loop_status * recognizer * list (option string * Q) :=
  match ticks with
  | [] => (Looping, r, [])
  | (None, _) :: rest => main_loop rest r
  | (Some rs, k) :: rest =>
      match processar_frame rs r with
      | (Exc e, r') => (Crashed e, r', [])
      | (Val out, r') =>
          let reported := match evento out with Some ev => [ev] | None => [] end in
          match k with
          | KeyEsc => (Stopped, r', reported)
          | KeyR =>
              match main_loop rest (snd (reset r')) with
              | (st, r'', evs) => (st, r'', reported ++ evs)
              end
          | KeyOther =>
              match main_loop rest r' with
              | (st, r'', evs) => (st, r'', reported ++ evs)
              end
          end
      end
  end.

(** Consecutive calls of [processar_frame], as long as none raises: the
    recogniser and what each call returned. *)
Fixpoint run (frames : list results) (r : recognizer) : res (list frame_out) * recognizer :=
  match frames with
  | [] => (Val [], r)
  | rs :: rest =>
      match processar_frame rs r with
      | (Exc e, r') => (Exc e, r')
      | (Val out, r') =>
          match run rest r' with
          | (Val outs, r'') => (Val (out :: outs), r'')
          | (Exc e, r'') => (Exc e, r'')
          end
      end
  end.

End Recognizer.

(** ** The stand-alone script
    [libras_alfabeto_projeto/app/reconhecer/reconhecer_gestos.py]

    The same pipeline written as one loop over module-level variables.
    Its [processar_landmarks] builds the same vector as the one above. *)

Module LegacyScript.

Definition SEQUENCE_LENGTH : nat := 30.
Definition MIN_CONFIDENCE : Q := 7 # 10.
Definition RESET_THRESHOLD : nat := 10.

(** The module-level state variables. *)
Record globals : Type := mkGlobals {
  buffer : list sample;
  frames_sem_maos : nat;
  historico_predicoes : list string;
  ultimo_gesto : option string
}.

Definition inicial : globals := mkGlobals [] 0 [] None.

Section Loop.

Variable model : classifier.
Variable classes_ : list string.   (* [le.classes_] *)

(** One iteration of [while cap.isOpened()] that got a frame; the value
    is the recognition printed, if any. *)
Definition iteracao (rs : results) : M globals (option (string * Q)) :=
  (if negb (has_hands rs) then
     modify (fun g => mkGlobals (buffer g) (frames_sem_maos g + 1)
                                (historico_predicoes g) (ultimo_gesto g)) ;;
     g <- get ;;
     if (RESET_THRESHOLD <? frames_sem_maos g) && (0 <? length (buffer g))
     then modify (fun g => mkGlobals (Deque.clear (buffer g)) (frames_sem_maos g)
                                     (historico_predicoes g) (ultimo_gesto g))
     else ret tt
   else
     modify (fun g => mkGlobals
               (Deque.append SEQUENCE_LENGTH (buffer g) (processar_landmarks rs))
               0 (historico_predicoes g) (ultimo_gesto g))) ;;
  g <- get ;;
  if length (buffer g) =? SEQUENCE_LENGTH then
    entrada <- lift (reshape SEQUENCE_LENGTH (buffer g)) ;;
    batch <- lift (model entrada) ;;
    preds <- lift (index batch 0) ;;
    classe_idx <- lift (argmax preds) ;;
    confianca <- lift (index preds classe_idx) ;;
    if Qle_bool MIN_CONFIDENCE confianca then
      gesto_atual <- lift (index classes_ classe_idx) ;;
      modify (fun g => mkGlobals (buffer g) (frames_sem_maos g)
                (Deque.append 15 (historico_predicoes g) gesto_atual)
                (ultimo_gesto g)) ;;
      g <- get ;;
      gesto_final <- lift (votacao (historico_predicoes g)) ;;
      if negb (gesto_eqb (Some gesto_final) (ultimo_gesto g)) then
        modify (fun g => mkGlobals (Deque.clear (buffer g)) (frames_sem_maos g)
                                   (historico_predicoes g) (Some gesto_final)) ;;
        ret (Some (gesto_final, confianca))
      else ret None
    else ret None
  else ret None.

End Loop.

End LegacyScript.

(** ** The desktop application [libras_alfabeto_projeto/GUI/main.py]

    Only the attributes of [LibrasApp] that the recognition touches. *)

Module Gui.

(** [s.startswith(p)] *)
Fixpoint startswith (p s : string) : bool :=
  match p, s with
  | EmptyString, _ => true
  | String a p', String b s' => Ascii.eqb a b && startswith p' s'
  | String _ _, EmptyString => false
  end.

(** [s.replace(old, new)] for a non-empty [old]: occurrences are replaced
    from the left and do not overlap; [skip] counts the characters of an
    occurrence still to be dropped. *)
Fixpoint replace_from (old new : string) (skip : nat) (s : string) : string :=
  match s with
  | EmptyString => EmptyString
  | String c t =>
      match skip with
      | S k => replace_from old new k t
      | O =>
          if startswith old s
          then String.append new (replace_from old new (String.length old - 1) t)
          else String c (replace_from old new 0 t)
      end
  end.

Definition replace (old new s : string) : string := replace_from old new 0 s.

(** Ignore the left/right hand suffix of a label. *)
Definition normalizar (g : string) : string :=
  replace "_ESQ" EmptyString (replace "_DIR" EmptyString g).

(** What the application shows or prints. *)
Inductive feedback : Type :=
| Correto (gesto_final : string)
| Reconhecido (gesto_reconhecido alvo : string)
| ErroNoReconhecimento (e : py_exc)
| MaosNaoDetectadas.

Record app : Type := mkApp {
  buffer_gestos : list sample;
  historico_predicoes : list string;
  frames_sem_maos : nat;
  ultimo_gesto_reconhecido : option string;
  gesto_alvo : option string;
  pontuacao : nat;
  nivel_atual : nat;
  proxima_letra_agendada : nat;      (* pending [root.after(1500, ...)] *)
  mensagens : list feedback          (* newest first *)
}.

Definition RESET_THRESHOLD : nat := 10.

Definition set_buffer_gestos (b : list sample) (a : app) : app :=
  mkApp b (historico_predicoes a) (frames_sem_maos a)
        (ultimo_gesto_reconhecido a) (gesto_alvo a) (pontuacao a)
        (nivel_atual a) (proxima_letra_agendada a) (mensagens a).

Definition set_historico (h : list string) (a : app) : app :=
  mkApp (buffer_gestos a) h (frames_sem_maos a)
        (ultimo_gesto_reconhecido a) (gesto_alvo a) (pontuacao a)
        (nivel_atual a) (proxima_letra_agendada a) (mensagens a).

Definition set_frames (n : nat) (a : app) : app :=
  mkApp (buffer_gestos a) (historico_predicoes a) n
        (ultimo_gesto_reconhecido a) (gesto_alvo a) (pontuacao a)
        (nivel_atual a) (proxima_letra_agendada a) (mensagens a).

Definition set_ultimo_reconhecido (g : option string) (a : app) : app :=
  mkApp (buffer_gestos a) (historico_predicoes a) (frames_sem_maos a)
        g (gesto_alvo a) (pontuacao a)
        (nivel_atual a) (proxima_letra_agendada a) (mensagens a).

Definition mostrar (f : feedback) (a : app) : app :=
  mkApp (buffer_gestos a) (historico_predicoes a) (frames_sem_maos a)
        (ultimo_gesto_reconhecido a) (gesto_alvo a) (pontuacao a)
        (nivel_atual a) (proxima_letra_agendada a) (f :: mensagens a).

(** [pontuacao += 10 * nivel_atual] and [root.after(1500, proxima_letra)] *)
Definition pontuar (a : app) : app :=
  mkApp (buffer_gestos a) (historico_predicoes a) (frames_sem_maos a)
        (ultimo_gesto_reconhecido a) (gesto_alvo a)
        (pontuacao a + 10 * nivel_atual a)
        (nivel_atual a) (S (proxima_letra_agendada a)) (mensagens a).

Section App.

(** [self.modelo_gestos] and [self.le_gestos.classes_]; both are [None]
    when loading failed. *)
Variable modelo_gestos : option classifier.
Variable le_gestos : option (list string).

Definition reconhecer_gesto : M app unit :=
  self <- get ;;
  match modelo_gestos, le_gestos, truthy (gesto_alvo self), gesto_alvo self with
  | Some modelo, Some classes_, true, Some alvo =>
      try_except
        (entrada <- lift (reshape 30 (buffer_gestos self)) ;;
         batch <- lift (modelo entrada) ;;
         preds <- lift (index batch 0) ;;
         classe_idx <- lift (argmax preds) ;;
         confianca <- lift (index preds classe_idx) ;;
         gesto_reconhecido <- lift (index classes_ classe_idx) ;;
         let gesto_normalizado := normalizar gesto_reconhecido in
         let alvo_normalizado := normalizar alvo in
         modify (fun self =>
           set_historico
             (Deque.append 15 (historico_predicoes self) gesto_normalizado) self) ;;
         self <- get ;;
         gesto_final <- lift (votacao (historico_predicoes self)) ;;
         (if Qgt_bool confianca (7 # 10) && String.eqb gesto_final alvo_normalizado
          then
            modify pontuar ;;
            modify (mostrar (Correto gesto_final)) ;;
            modify (fun self => set_buffer_gestos (Deque.clear (buffer_gestos self)) self) ;;
            modify (fun self => set_historico (Deque.clear (historico_predicoes self)) self)
          else if negb (gesto_eqb (Some gesto_reconhecido) (ultimo_gesto_reconhecido self))
          then modify (mostrar (Reconhecido gesto_reconhecido alvo))
          else ret tt) ;;
         modify (set_ultimo_reconhecido (Some gesto_reconhecido)))
        (fun e => modify (mostrar (ErroNoReconhecimento e)))
  | _, _, _, _ =>
      (* [self.reconhecer_gesto_simulado()]: no such method *)
      lift (Exc AttributeError)
  end.

Definition processar_frame (rs : results) : M app unit :=
  if has_hands rs then
    modify (set_frames 0) ;;
    modify (fun self =>
      set_buffer_gestos
        (Deque.append 30 (buffer_gestos self) (processar_landmarks rs)) self) ;;
    self <- get ;;
    if length (buffer_gestos self) =? 30 then reconhecer_gesto else ret tt
  else
    modify (fun self => set_frames (frames_sem_maos self + 1) self) ;;
    self <- get ;;
    if (RESET_THRESHOLD <? frames_sem_maos self) && (0 <? length (buffer_gestos self))
    then
      modify (fun self => set_buffer_gestos (Deque.clear (buffer_gestos self)) self) ;;
      modify (mostrar MaosNaoDetectadas)
    else ret tt.

End App.

End Gui.

(** ** Invariants and operation sequences *)

(** A sample as [processar_landmarks] builds it: 42 landmarks of three
    coordinates. *)
Definition sample_ok (s : sample) : Prop := length s = 126.

(** The two deques respect their [maxlen]. *)
Definition bounded (r : recognizer) : Prop :=
  length (buffer r) <= SEQUENCE_LENGTH /\
  length (prediction_history r) <= HISTORY_SIZE.

(** What every reachable recogniser satisfies. *)
Definition well_formed (r : recognizer) : Prop :=
  bounded r /\ Forall sample_ok (buffer r).

(** The operations that touch the window and the vote history. *)
Inductive op : Type :=
| OpFrame (rs : results)        (* [processar_frame] *)
| OpPush (s : sample)           (* [buffer.append(s)] *)
| OpVote (g : string)           (* [prediction_history.append(g)] *)
| OpClear                       (* [buffer.clear()] *)
| OpClearHistory                (* [prediction_history.clear()] *)
| OpReset.                      (* [reset()] *)

Section Operations.

Variable model : classifier.
Variable classes : list string.
Variable min_confidence : Q.

(** The recogniser after an operation; a [processar_frame] that raises
    leaves the state as it was when the exception occurred. *)
Definition apply_op (r : recognizer) (o : op) : recognizer :=
  match o with
  | OpFrame rs => snd (processar_frame model classes min_confidence rs r)
  | OpPush s => set_buffer (Deque.append SEQUENCE_LENGTH (buffer r) s) r
  | OpVote g =>
      set_prediction_history (Deque.append HISTORY_SIZE (prediction_history r) g) r
  | OpClear => set_buffer (Deque.clear (buffer r)) r
  | OpClearHistory => set_prediction_history (Deque.clear (prediction_history r)) r
  | OpReset => snd (reset r)
  end.

Definition apply_ops (ops : list op) (r : recognizer) : recognizer :=
  fold_left apply_op ops r.

End Operations.

(** The recognitions reported along a run. *)
Definition eventos (outs : list frame_out) : list (option string * Q) :=
  flat_map (fun out => match evento out with Some ev => [ev] | None => [] end) outs.

(** The classifier's top class for a window: [(classe_idx, confianca)]. *)
Definition top_class (model : classifier) (entrada : list sample) : res (nat * Q) :=
  match model entrada with
  | Exc e => Exc e
  | Val batch =>
      match index batch 0 with
      | Exc e => Exc e
      | Val predicoes =>
          match argmax predicoes with
          | Exc e => Exc e
          | Val classe_idx =>
              match index predicoes classe_idx with
              | Exc e => Exc e
              | Val confianca => Val (classe_idx, confianca)
              end
          end
      end
  end.

(** The classifier answers label [g] with a confidence that passes the
    gate, whatever full window it is given. *)
Definition always_answers (model : classifier) (classes : list string)
           (min_confidence : Q) (g : string) : Prop :=
  forall w, reshape SEQUENCE_LENGTH w = Val w ->
  exists classe_idx confianca,
    top_class model w = Val (classe_idx, confianca) /\
    Qlt_bool confianca min_confidence = false /\
    index classes classe_idx = Val g.

(** Number of occurrences of a label in a history. *)
Definition ocorrencias (g : string) (history : list string) : nat :=
  count_occ string_dec history g.

(** [contagem.keys()] after counting a history. *)
Definition chaves (history : list string) : list string :=
  map fst (contar history).

(** [g] is a most frequent label of the history, and every label met
    before the first [g] is strictly less frequent: among the most
    frequent labels, [g] is the one seen first. *)
Definition first_most_frequent (g : string) (history : list string) : Prop :=
  exists antes depois,
    history = antes ++ g :: depois /\
    (forall x, ocorrencias x history <= ocorrencias g history) /\
    (forall x, In x antes -> ocorrencias x history < ocorrencias g history).

(** *** States between two recognitions

    The recogniser as it stands between two recognitions, for a history
    that holds at most two labels. *)

(** Nothing has been recognised and the classifier has not been called. *)
Definition fresh (r : recognizer) : Prop :=
  ultimo_gesto r = None /\ prediction_history r = [] /\ predict_calls r = [].

(** [g] is the last gesture and wins every vote while labels [g] are
    appended: the history is [a] times [o] followed by [b] times [g],
    with [g] in the majority, and at most [amax] labels [o] are left. *)
Definition settled (o g : string) (amax : nat) (r : recognizer) : Prop :=
  ultimo_gesto r = Some g /\
  exists a b,
    prediction_history r = repeat o a ++ repeat g b /\
    a <= amax /\ (a < b \/ a = 0) /\ a + b <= HISTORY_SIZE.

(** [B] is being appended but does not win the vote yet: the history is
    [a] times [A] followed by [b] times [B] with [b <= a], and [B] is not
    the last gesture. *)
Definition contested (A B : string) (b : nat) (r : recognizer) : Prop :=
  exists a,
    prediction_history r = repeat A a ++ repeat B b /\
    b <= a /\ a + b <= HISTORY_SIZE /\
    ultimo_gesto r <> Some B /\
    (1 <= a -> ultimo_gesto r = Some A).

(** The history counts after one more [g] has been appended to [a] times
    [o] followed by [b] times [g]. *)
Definition next_counts (a b : nat) : nat * nat :=
  if a + b <? HISTORY_SIZE then (a, S b)
  else match a with
       | 0 => (0, b)
       | S a0 => (a0, S b)
       end.

(** ** A concrete detector and classifier for the examples *)

(** A frame showing one hand whose 21 landmarks all sit at [(x, 0, 0)]. *)
Definition mao (x : Q) : results := Some [repeat (x, 0%Q, 0%Q) 21].

(** A frame without hands. *)
Definition sem_maos : results := None.

(** A classifier over three classes that answers from the first number
    of the newest sample of the window: 1, 2 and 3 give the classes in
    turn, 4 an answer below the gate, 5 an exception, anything else an
    empty batch. *)
Definition demo_model : classifier :=
  fun entrada =>
    match last entrada [] with
    | x :: _ =>
        if Qeq_bool x 1 then Val [[9 # 10; 1 # 10; 0 # 1]]
        else if Qeq_bool x 2 then Val [[1 # 10; 8 # 10; 1 # 10]]
        else if Qeq_bool x 3 then Val [[0 # 1; 1 # 4; 3 # 4]]
        else if Qeq_bool x 4 then Val [[4 # 10; 3 # 10; 3 # 10]]
        else if Qeq_bool x 5 then Exc ModelError
        else Val []
    | [] => Val []
    end%Q.

Definition demo_classes : list string := ["A"; "B"; "C"]%string.

Definition demo_frame (rs : results) : M recognizer frame_out :=
  processar_frame demo_model demo_classes MIN_CONFIDENCE rs.

Definition demo_run (frames : list results) (r : recognizer)
  : res (list frame_out) * recognizer :=
  run demo_model demo_classes MIN_CONFIDENCE frames r.

(** Frames that lead the demo recogniser to a vote history of one A,
    seven B and seven A, with A as the last gesture: the classifier sees
    A, then B, then A again. *)
Definition mismatch_prefix : list results :=
  repeat (mao 1) 30 ++ repeat (mao 2) 65 ++ repeat (mao 1) 36.

(** The recognitions reported along a run of the demo recogniser. *)
Definition demo_eventos (frames : list results) (r : recognizer)
  : res (list (option string * Q)) :=
  match fst (demo_run frames r) with
  | Val outs => Val (eventos outs)
  | Exc e => Exc e
  end.

(** A classifier that gives the same two-class answer for every window. *)
Definition const_model (p0 p1 : Q) : classifier := fun _ => Val [[p0; p1]].

(** ** Around the recogniser: observations of the main loop *)

(** Two recognisers with the same attributes; the record of classifier
    calls, which the code does not have, may differ. *)
Definition same_attrs (r1 r2 : recognizer) : Prop :=
  buffer r1 = buffer r2 /\
  prediction_history r1 = prediction_history r2 /\
  frames_sem_maos r1 = frames_sem_maos r2 /\
  ultimo_gesto r1 = ultimo_gesto r2 /\
  ultima_confianca r1 = ultima_confianca r2.

(** Iterations during which no handled key is pressed: what
    [cap.read()] gave, iteration by iteration. *)
Definition quiet (reads : list (option results)) : list tick :=
  map (fun f => (f, KeyOther)) reads.

(** The frames that were actually read. *)
Definition frames_read (reads : list (option results)) : list results :=
  flat_map (fun f => match f with Some rs => [rs] | None => [] end) reads.

(** All the landmarks of a detection, hand after hand. *)
Definition all_landmarks (rs : results) : list landmark :=
  match rs with
  | Some hs => concat hs
  | None => []
  end.

(** ** Around the stand-alone script: the two halves of its loop body *)

(** The first [if] of the loop body: the presence counter and the
    window. *)
Definition script_presenca (rs : results) (g : LegacyScript.globals)
  : LegacyScript.globals :=
  if has_hands rs then
    LegacyScript.mkGlobals
      (Deque.append LegacyScript.SEQUENCE_LENGTH (LegacyScript.buffer g)
                    (processar_landmarks rs))
      0 (LegacyScript.historico_predicoes g) (LegacyScript.ultimo_gesto g)
  else if (LegacyScript.RESET_THRESHOLD <? LegacyScript.frames_sem_maos g + 1)
          && (0 <? length (LegacyScript.buffer g))
  then
    LegacyScript.mkGlobals
      [] (LegacyScript.frames_sem_maos g + 1)
      (LegacyScript.historico_predicoes g) (LegacyScript.ultimo_gesto g)
  else
    LegacyScript.mkGlobals
      (LegacyScript.buffer g) (LegacyScript.frames_sem_maos g + 1)
      (LegacyScript.historico_predicoes g) (LegacyScript.ultimo_gesto g).

(** Iterations of the script's loop, one per frame read, until one
    raises: what each printed and the variables at the end. *)
Fixpoint script_run (model : classifier) (classes_ : list string)
         (frames : list results) (g : LegacyScript.globals)
  : res (list (option (string * Q))) * LegacyScript.globals :=
  match frames with
  | [] => (Val [], g)
  | rs :: rest =>
      match LegacyScript.iteracao model classes_ rs g with
      | (Exc e, g') => (Exc e, g')
      | (Val printed, g') =>
          match script_run model classes_ rest g' with
          | (Val ps, g'') => (Val (printed :: ps), g'')
          | (Exc e, g'') => (Exc e, g'')
          end
      end
  end.

(** ** Properties of a sequence of reports *)

(** No label occurs twice in a row, starting after [last]. *)
Fixpoint alternating (last : option string) (labels : list string) : Prop :=
  match labels with
  | [] => True
  | g :: rest => last <> Some g /\ alternating (Some g) rest
  end.

(** [flags] tells, frame by frame, whether something was reported.  No
    report comes before [k] frames have passed, and after a report none
    comes on the next [SEQUENCE_LENGTH - 1] frames. *)
Fixpoint spaced (k : nat) (flags : list bool) : Prop :=
  match flags with
  | [] => True
  | true :: rest => k = 0 /\ spaced (SEQUENCE_LENGTH - 1) rest
  | false :: rest => spaced (k - 1) rest
  end.

(** Whether a frame reported a recognition: [novo_reconhecimento]. *)
Definition novo (out : frame_out) : bool := snd out.

(** The labels of the recognitions reported along a run. *)
Definition rotulos (evs : list (option string * Q)) : list string :=
  flat_map (fun ev => match fst ev with Some g => [g] | None => [] end) evs.

(** ** Around the desktop application: sequences of frames *)

(** Frames handed to [Gui.processar_frame] one after the other, until a
    call raises (the target is not changed in between). *)
Fixpoint gui_run (modelo_gestos : option classifier) (le_gestos : option (list string))
         (frames : list results) (a : Gui.app) : res unit * Gui.app :=
  match frames with
  | [] => (Val tt, a)
  | rs :: rest =>
      match Gui.processar_frame modelo_gestos le_gestos rs a with
      | (Exc e, a') => (Exc e, a')
      | (Val _, a') => gui_run modelo_gestos le_gestos rest a'
      end
  end.

(** Number of successes among the messages shown. *)
Definition acertos_mostrados (ms : list Gui.feedback) : nat :=
  length (filter (fun m => match m with Gui.Correto _ => true | _ => false end) ms).

(** A label without the character [_] (code 95). *)
Fixpoint sem_sublinhado (s : string) : bool :=
  match s with
  | EmptyString => true
  | String c rest => negb (Ascii.eqb c (Ascii.ascii_of_nat 95)) && sem_sublinhado rest
  end.

(** The application after a prediction that went through, by the two
    branches of [reconhecer_gesto]: a success, or anything else. *)
Definition gui_after_prediction (a : Gui.app) (gesto_reconhecido alvo : string)
           (confianca : Q) (gesto_final : string) : Gui.app :=
  if Qgt_bool confianca (7 # 10) && String.eqb gesto_final (Gui.normalizar alvo)
  then Gui.mkApp [] [] (Gui.frames_sem_maos a) (Some gesto_reconhecido)
                 (Gui.gesto_alvo a)
                 (Gui.pontuacao a + 10 * Gui.nivel_atual a) (Gui.nivel_atual a)
                 (S (Gui.proxima_letra_agendada a))
                 (Gui.Correto gesto_final :: Gui.mensagens a)
  else Gui.mkApp (Gui.buffer_gestos a)
                 (Deque.append 15 (Gui.historico_predicoes a)
                               (Gui.normalizar gesto_reconhecido))
                 (Gui.frames_sem_maos a) (Some gesto_reconhecido)
                 (Gui.gesto_alvo a) (Gui.pontuacao a) (Gui.nivel_atual a)
                 (Gui.proxima_letra_agendada a)
                 (if gesto_eqb (Some gesto_reconhecido) (Gui.ultimo_gesto_reconhecido a)
                  then Gui.mensagens a
                  else Gui.Reconhecido gesto_reconhecido alvo :: Gui.mensagens a).

(** A classifier that, on every well-shaped window, answers a label
    equal to the target up to the hand suffix, with a confidence above
    the 0.7 of [Gui.reconhecer_gesto]. *)
Definition sempre_acerta (modelo : classifier) (classes_ : list string)
           (alvo : string) : Prop :=
  forall w, reshape 30 w = Val w ->
  exists classe_idx confianca gesto,
    top_class modelo w = Val (classe_idx, confianca) /\
    (7 # 10 < confianca)%Q /\
    index classes_ classe_idx = Val gesto /\
    Gui.normalizar gesto = Gui.normalizar alvo.

(** ** [AplicativoLibras]: letters, levels and sections *)

Module Niveis.

(** What the progression code can raise. *)
Inductive erro : Type :=
| KeyError        (* [d[k]] without the key *)
| NotInList       (* [l.index(x)] without the element *)
| OutOfRange.     (* [l[i]] past the end *)

(** The attributes of the application that the progression reads and
    writes.  [parabens] counts the calls of [mostrar_tela_parabens]. *)
Record jogo : Type := mkJogo {
  secao_atual : string;
  nivel_atual : nat;
  letras_nivel : list string;
  letra_atual_idx : nat;
  gesto_alvo : option string;
  niveis_completos : list (string * list nat);
  secoes_liberadas : list string;
  parabens : nat
}.

(** A method on [jogo] that may raise. *)
Definition N (A : Type) : Type := jogo -> (A + erro) * jogo.

Definition retN {A : Type} (a : A) : N A := fun j => (inl a, j).

Definition bindN {A B : Type} (m : N A) (k : A -> N B) : N B :=
  fun j =>
    match m j with
    | (inl a, j') => k a j'
    | (inr e, j') => (inr e, j')
    end.

Definition getN : N jogo := fun j => (inl j, j).

Definition modifyN (f : jogo -> jogo) : N unit := fun j => (inl tt, f j).

Definition liftN {A : Type} (x : A + erro) : N A := fun j => (x, j).

Declare Scope nv_scope.

Notation "x <- m ;; k" := (bindN m (fun x => k))
  (at level 61, m at next level, right associativity) : nv_scope.
Notation "m ;; k" := (bindN m (fun _ => k))
  (at level 61, right associativity) : nv_scope.

Local Open Scope nv_scope.

(** [d[k]] on a dict kept as the list of its items, in insertion order. *)
Fixpoint getitem {K V : Type} (eqb : K -> K -> bool) (d : list (K * V)) (k : K)
  : V + erro :=
  match d with
  | [] => inr KeyError
  | (k', v) :: rest => if eqb k' k then inl v else getitem eqb rest k
  end.

(** [d[k].append(x)] once [d[k]] is known to exist: the list stored
    under [k] grows in place. *)
Fixpoint append_at {V : Type} (d : list (string * list V)) (k : string) (x : V)
  : list (string * list V) :=
  match d with
  | [] => []
  | (k', v) :: rest =>
      if String.eqb k' k then (k', v ++ [x]) :: rest
      else (k', v) :: append_at rest k x
  end.

(** [l.index(x)] *)
Fixpoint list_index (l : list string) (x : string) : nat + erro :=
  match l with
  | [] => inr NotInList
  | y :: rest =>
      if String.eqb y x then inl 0
      else match list_index rest x with
           | inl i => inl (S i)
           | inr e => inr e
           end
  end.

(** [l[i]] *)
Definition item (l : list string) (i : nat) : string + erro :=
  match nth_error l i with
  | Some x => inl x
  | None => inr OutOfRange
  end.

(** [x in l] *)
Definition contem (l : list string) (x : string) : bool := existsb (String.eqb x) l.

Definition contem_nivel (l : list nat) (n : nat) : bool := existsb (Nat.eqb n) l.

Definition set_nivel (secao : string) (nivel : nat) (j : jogo) : jogo :=
  mkJogo secao nivel (letras_nivel j) (letra_atual_idx j) (gesto_alvo j)
         (niveis_completos j) (secoes_liberadas j) (parabens j).

Definition set_letras (letras : list string) (idx : nat) (j : jogo) : jogo :=
  mkJogo (secao_atual j) (nivel_atual j) letras idx (gesto_alvo j)
         (niveis_completos j) (secoes_liberadas j) (parabens j).

Definition set_alvo (alvo : string) (j : jogo) : jogo :=
  mkJogo (secao_atual j) (nivel_atual j) (letras_nivel j) (S (letra_atual_idx j))
         (Some alvo) (niveis_completos j) (secoes_liberadas j) (parabens j).

Definition set_completos (d : list (string * list nat)) (j : jogo) : jogo :=
  mkJogo (secao_atual j) (nivel_atual j) (letras_nivel j) (letra_atual_idx j)
         (gesto_alvo j) d (secoes_liberadas j) (parabens j).

Definition liberar (secao : string) (j : jogo) : jogo :=
  mkJogo (secao_atual j) (nivel_atual j) (letras_nivel j) (letra_atual_idx j)
         (gesto_alvo j) (niveis_completos j) (secoes_liberadas j ++ [secao])
         (parabens j).

Definition mostrar_tela_parabens (j : jogo) : jogo :=
  mkJogo (secao_atual j) (nivel_atual j) (letras_nivel j) (letra_atual_idx j)
         (gesto_alvo j) (niveis_completos j) (secoes_liberadas j)
         (S (parabens j)).

Section Tabela.

(** [self.secoes]: the sections in the order of the dict, each with its
    levels and the letters of each level. *)
Variable secoes : list (string * list (nat * list string)).

(** The state that [__init__] leaves: nothing completed, the first
    section open.  The attributes of a level do not exist before
    [iniciar_nivel_real], which sets all of them; they are given values
    that are not read. *)
Definition inicial : jogo :=
  mkJogo EmptyString 1 [] 0 None
         (map (fun s => (fst s, [])) secoes) ["Alfabeto"%string] 0.

Definition proxima_letra : N unit :=
  self <- getN ;;
  if letra_atual_idx self <? length (letras_nivel self) then
    alvo <- liftN (item (letras_nivel self) (letra_atual_idx self)) ;;
    modifyN (set_alvo alvo)
  else
    completos <- liftN (getitem String.eqb (niveis_completos self) (secao_atual self)) ;;
    (if negb (contem_nivel completos (nivel_atual self))
     then modifyN (set_completos
                     (append_at (niveis_completos self) (secao_atual self)
                                (nivel_atual self)))
     else retN tt) ;;
    niveis <- liftN (getitem String.eqb secoes (secao_atual self)) ;;
    (if nivel_atual self =? length niveis then
       self1 <- getN ;;
       (if negb (contem (secoes_liberadas self1) (secao_atual self1))
        then modifyN (liberar (secao_atual self1))
        else retN tt) ;;
       let nomes := map fst secoes in
       index_atual <- liftN (list_index nomes (secao_atual self)) ;;
       (if index_atual <? length nomes - 1 then
          proxima_secao <- liftN (item nomes (index_atual + 1)) ;;
          self2 <- getN ;;
          if negb (contem (secoes_liberadas self2) proxima_secao)
          then modifyN (liberar proxima_secao)
          else retN tt
        else retN tt)
     else retN tt) ;;
    modifyN mostrar_tela_parabens.

Definition iniciar_nivel_real (secao : string) (nivel : nat) : N unit :=
  modifyN (set_nivel secao nivel) ;;
  niveis <- liftN (getitem String.eqb secoes secao) ;;
  letras <- liftN (getitem Nat.eqb niveis nivel) ;;
  modifyN (set_letras letras 0) ;;
  proxima_letra.

(** [nivel_liberado] of [criar_card]: whether the button of a level is
    enabled on the card of its section. *)
Definition nivel_liberado (secao : string) (nivel : nat) (self : jogo) : bool + erro :=
  let secao_liberada := contem (secoes_liberadas self) secao in
  match getitem String.eqb (niveis_completos self) secao with
  | inr e => inr e
  | inl completos =>
      let nivel_completo := contem_nivel completos nivel in
      inl (((nivel =? 1) && secao_liberada) || nivel_completo)
  end.

(** [proxima_letra] called [n] times, as long as no call raises. *)
Fixpoint avancar (n : nat) : N unit :=
  match n with
  | O => retN tt
  | S k => proxima_letra ;; avancar k
  end.

End Tabela.

(** The levels of a section recorded as completed. *)
Definition completos_de (secao : string) (j : jogo) : list nat :=
  match getitem String.eqb (niveis_completos j) secao with
  | inl l => l
  | inr _ => []
  end.

(** The section that follows [secao] in the table, if any. *)
Fixpoint seguinte (nomes : list string) (secao : string) : option string :=
  match nomes with
  | [] => None
  | y :: rest =>
      if String.eqb y secao then hd_error rest else seguinte rest secao
  end.

(** A small table for examples. *)
Definition tabela_demo : list (string * list (nat * list string)) :=
  [ ("Alfabeto", [ (1, ["A"; "E"; "I"]); (2, ["B"; "C"]) ]);
    ("Cores", [ (1, ["AZUL"; "VERDE"]) ]) ]%string.

End Niveis.

(** ** The score of a practice session ([main] with a target) *)

Section Placar.

(** [str.upper] *)
Variable upper : string -> string.

(** What the loop does with one recognition it reports, for the target
    and the counts [(acertos, tentativas)]. *)
Definition contar_evento (gesto_alvo : option string) (ev : option string * Q)
           (p : nat * nat) : res (nat * nat) :=
  if truthy gesto_alvo then
    match fst ev with
    | None => Exc AttributeError
    | Some gesto =>
        let correto := gesto_eqb (Some (upper gesto)) gesto_alvo in
        Val (if correto then S (fst p) else fst p, S (snd p))
    end
  else Val p.

(** The counts after the recognitions reported while the target stays. *)
Fixpoint placar (gesto_alvo : option string) (evs : list (option string * Q))
         (p : nat * nat) : res (nat * nat) :=
  match evs with
  | [] => Val p
  | ev :: rest =>
      match contar_evento gesto_alvo ev p with
      | Val p' => placar gesto_alvo rest p'
      | Exc e => Exc e
      end
  end.

(** The labels that count as correct for a target. *)
Definition corretos (gesto_alvo : option string) (labels : list string) : list string :=
  filter (fun g => gesto_eqb (Some (upper g)) gesto_alvo) labels.

End Placar.

(** [str.upper] on text in ASCII. *)
Definition upper_char (c : Ascii.ascii) : Ascii.ascii :=
  let n := Ascii.nat_of_ascii c in
  if (97 <=? n) && (n <=? 122) then Ascii.ascii_of_nat (n - 32) else c.

Fixpoint upper_ascii (s : string) : string :=
  match s with
  | EmptyString => EmptyString
  | String c rest => String (upper_char c) (upper_ascii rest)
  end.

(** ** The loading screen of a level *)

(** [carregar_nivel_background] reschedules itself every 50 ms until the
    progress has passed 100 and it starts the level.  The result counts
    the reschedules and the calls of [pre_iniciar_camera] up to
    [iniciar_nivel_real]; [fuel] bounds the calls followed. *)
Fixpoint carregar_nivel_background (fuel : nat) (progresso : nat) : option (nat * nat) :=
  match fuel with
  | O => None
  | S fuel' =>
      let camera := if (progresso <=? 33) && (progresso =? 10) then 1 else 0 in
      if progresso <=? 100 then
        let incremento :=
          if 90 <? progresso then 1 else if 50 <? progresso then 2 else 5 in
        match carregar_nivel_background fuel' (progresso + incremento) with
        | Some (reagendamentos, cameras) => Some (S reagendamentos, camera + cameras)
        | None => None
        end
      else Some (0, camera)
  end.

(** ** [AplicativoLibras]: the camera callback *)

Module Camera.

(** The application with what the camera loop adds: [pendentes] counts
    the calls of [atualizar_frame] scheduled by [root.after(30, ...)] and
    not yet run, [reinicios] the calls of [reiniciar_camera]. *)
Record estado : Type := mkEstado {
  app : Gui.app;
  running : bool;
  frame_count : nat;
  skip_frames : nat;
  pendentes : nat;
  reinicios : nat
}.

(** What one call of [atualizar_frame] finds: the frame that [cap.read()]
    returns ([None] when [ret] is false), after MediaPipe, and whether
    the camera opens should this call restart it. *)
Definition leitura : Type := (option results * bool)%type.

Definition set_app (a : Gui.app) (s : estado) : estado :=
  mkEstado a (running s) (frame_count s) (skip_frames s) (pendentes s) (reinicios s).

Definition contar_frame (s : estado) : estado :=
  mkEstado (app s) (running s) (frame_count s + 1) (skip_frames s)
           (pendentes s) (reinicios s).

(** [root.after(30, self.atualizar_frame)] *)
Definition agendar (s : estado) : estado :=
  mkEstado (app s) (running s) (frame_count s) (skip_frames s)
           (S (pendentes s)) (reinicios s).

(** The event loop takes a scheduled call. *)
Definition desagendar (s : estado) : estado :=
  mkEstado (app s) (running s) (frame_count s) (skip_frames s)
           (pendentes s - 1) (reinicios s).

(** [parar_camera], as called by [reiniciar_camera]. *)
Definition parar_camera (s : estado) : estado :=
  mkEstado (app s) false (frame_count s) (skip_frames s)
           (pendentes s) (S (reinicios s)).

(** [iniciar_camera] up to its call of [atualizar_frame], when the
    camera opens. *)
Definition camera_aberta (s : estado) : estado :=
  mkEstado (app s) true 0 1 (pendentes s) (reinicios s).

Section Callback.

Variable modelo_gestos : option classifier.
Variable le_gestos : option (list string).

(** One call of [atualizar_frame], with the calls nested in it: a
    restart that opens the camera calls [atualizar_frame] again at once,
    on the next reading.  [None] when the readings given do not reach the
    end of the call. *)
Fixpoint atualizar_frame (env : list leitura) (s : estado)
  : option (estado * list leitura) :=
  match env with
  | [] => if running s then None else Some (s, [])
  | (lido, abre) :: rest =>
      if negb (running s) then Some (s, env)
      else
        let s1 := contar_frame s in
        let reiniciar_camera (s' : estado) :=
          let s2 := parar_camera s' in
          if abre then atualizar_frame rest (camera_aberta s2)
          else Some (s2, rest) in
        let corpo :=
          match lido with
          | None => reiniciar_camera s1
          | Some rs =>
              if frame_count s1 mod (skip_frames s1 + 1) =? 0 then
                match Gui.processar_frame modelo_gestos le_gestos rs (app s1) with
                | (Val _, a') => Some (set_app a' s1, rest)
                | (Exc _, a') => reiniciar_camera (set_app a' s1)
                end
              else Some (s1, rest)
          end in
        match corpo with
        | Some (s4, rest') => Some (if running s4 then agendar s4 else s4, rest')
        | None => None
        end
  end.

(** The event loop runs [n] scheduled calls of [atualizar_frame], or
    fewer when none is left. *)
Fixpoint mainloop (n : nat) (env : list leitura) (s : estado)
  : option (estado * list leitura) :=
  match n with
  | O => Some (s, env)
  | S k =>
      if pendentes s =? 0 then Some (s, env)
      else
        match atualizar_frame env (desagendar s) with
        | Some (s', env') => mainloop k env' s'
        | None => None
        end
  end.

End Callback.

(** The frames that reach [processar_frame] when nothing fails: those
    for which the counter, incremented first, is a multiple of
    [skip + 1]. *)
Fixpoint processados (skip count : nat) (frames : list results) : list results :=
  match frames with
  | [] => []
  | rs :: rest =>
      if (count + 1) mod (skip + 1) =? 0
      then rs :: processados skip (count + 1) rest
      else processados skip (count + 1) rest
  end.

End Camera.

(** * Facts *)

(** ** Comparisons *)

Lemma Qlt_bool_iff (a b : Q) : Qlt_bool a b = true <-> (a < b)%Q.
Proof.
  unfold Qlt_bool. rewrite negb_true_iff, <- not_true_iff_false, Qle_bool_iff.
  split; [ apply Qnot_le_lt | apply Qlt_not_le ].
Qed.

Lemma Qlt_bool_false_iff (a b : Q) : Qlt_bool a b = false <-> (b <= a)%Q.
Proof. unfold Qlt_bool. rewrite negb_false_iff. apply Qle_bool_iff. Qed.

Lemma gesto_eqb_eq (a b : option string) : gesto_eqb a b = true <-> a = b.
Proof.
  destruct a as [x | ], b as [y | ]; simpl; try (split; congruence).
  rewrite String.eqb_eq. split; congruence.
Qed.

Lemma gesto_eqb_refl (a : option string) : gesto_eqb a a = true.
Proof. apply gesto_eqb_eq. reflexivity. Qed.

Lemma gesto_eqb_neq (a b : option string) : gesto_eqb a b = false <-> a <> b.
Proof. rewrite <- gesto_eqb_eq. destruct (gesto_eqb a b); split; congruence. Qed.

Lemma truthy_Some (g : string) : truthy (Some g) = true <-> g <> EmptyString.
Proof.
  simpl. rewrite negb_true_iff. destruct (String.eqb_spec g EmptyString); split; congruence.
Qed.

(** ** The deque *)

Module DequeFacts.

Section Facts.
Variable A : Type.
Implicit Types (d xs : list A) (x : A) (maxlen : nat).

Lemma length_tl d : length (tl d) = pred (length d).
Proof. destruct d; reflexivity. Qed.

Lemma append_length maxlen d x :
  length d <= maxlen ->
  length (Deque.append maxlen d x) = Nat.min maxlen (S (length d)).
Proof.
  intros Hd. unfold Deque.append.
  destruct (Nat.ltb_spec maxlen (length (d ++ [x]))) as [Hlt | Hge];
    [ rewrite length_tl | ]; rewrite length_app in *; simpl in *; lia.
Qed.

Lemma append_length_le maxlen d x :
  length d <= maxlen -> length (Deque.append maxlen d x) <= maxlen.
Proof. intros Hd. rewrite append_length by exact Hd. lia. Qed.

Lemma append_not_full maxlen d x :
  length d < maxlen -> Deque.append maxlen d x = d ++ [x].
Proof.
  intros Hd. unfold Deque.append.
  destruct (Nat.ltb_spec maxlen (length (d ++ [x]))) as [Hlt | Hge];
    [ rewrite length_app in Hlt; simpl in Hlt; lia | reflexivity ].
Qed.

Lemma append_full maxlen d x :
  length d = maxlen -> Deque.append maxlen d x = tl (d ++ [x]).
Proof.
  intros Hd. unfold Deque.append.
  destruct (Nat.ltb_spec maxlen (length (d ++ [x]))) as [Hlt | Hge];
    [ reflexivity | rewrite length_app in Hge; simpl in Hge; lia ].
Qed.

Lemma append_Forall (P : A -> Prop) maxlen d x :
  Forall P d -> P x -> Forall P (Deque.append maxlen d x).
Proof.
  intros Hd Hx. unfold Deque.append.
  assert (Hall : Forall P (d ++ [x])).
  { apply Forall_app. split; [ exact Hd | constructor; [ exact Hx | constructor ] ]. }
  destruct (maxlen <? length (d ++ [x])); [ | exact Hall ].
  destruct (d ++ [x]) as [ | y l ]; [ constructor | ].
  simpl. inversion Hall; assumption.
Qed.

Lemma extend_length_le maxlen xs d :
  length d <= maxlen -> length (Deque.extend maxlen d xs) <= maxlen.
Proof.
  unfold Deque.extend. revert d.
  induction xs as [ | x xs IH ]; intros d Hd; simpl.
  - exact Hd.
  - apply IH. apply append_length_le. exact Hd.
Qed.

(** Below capacity nothing is dropped. *)
Lemma extend_below maxlen xs d :
  length d + length xs <= maxlen -> Deque.extend maxlen d xs = d ++ xs.
Proof.
  unfold Deque.extend. revert d.
  induction xs as [ | x xs IH ]; intros d Hd; simpl in *.
  - symmetry. apply app_nil_r.
  - rewrite IH by (rewrite append_length; lia).
    rewrite append_not_full by lia.
    rewrite <- app_assoc. reflexivity.
Qed.

End Facts.

End DequeFacts.

(** ** The pose encoder *)

Lemma flatten_length (lms : list landmark) : length (flatten lms) = 3 * length lms.
Proof.
  unfold flatten. induction lms as [ | [[x y] z] lms IH ]; simpl; [ reflexivity | ].
  rewrite IH. lia.
Qed.

(** Every sample has 126 entries, whatever the detector found. *)
Lemma processar_landmarks_ok (rs : results) : sample_ok (processar_landmarks rs).
Proof.
  unfold sample_ok, processar_landmarks.
  rewrite flatten_length, length_app, repeat_length.
  set (l := firstn 42 _).
  assert (length l <= 42) by apply firstn_le_length.
  lia.
Qed.

(** ** The window is a FIFO *)

(** Pushing samples one after the other extends the window. *)
Lemma pushes_extend
      (model : classifier) (classes : list string) (min_confidence : Q)
      (xs : list sample) (r : recognizer) :
  buffer (apply_ops model classes min_confidence (map OpPush xs) r) =
    Deque.extend SEQUENCE_LENGTH (buffer r) xs.
Proof.
  unfold apply_ops, Deque.extend. revert r.
  induction xs as [ | x xs IH ]; intros r; simpl; [ reflexivity | ].
  rewrite IH. reflexivity.
Qed.

(** C7.  Pushing exactly [SEQUENCE_LENGTH] samples into the empty window
    of a fresh recogniser leaves exactly those samples, in the order
    pushed; one more push puts the new sample last and drops the oldest
    sample and nothing else. *)
Theorem window_fifo
        (model : classifier) (classes : list string) (min_confidence : Q)
        (xs : list sample) :
  length xs = SEQUENCE_LENGTH ->
  buffer (apply_ops model classes min_confidence (map OpPush xs) init) = xs /\
  forall x : sample,
    exists oldest kept,
      xs = oldest :: kept /\
      Deque.append SEQUENCE_LENGTH xs x = kept ++ [x] /\
      buffer (apply_ops model classes min_confidence (map OpPush (xs ++ [x])) init) =
        kept ++ [x].
Proof.
  intros Hlen.
  assert (Hfill : Deque.extend SEQUENCE_LENGTH [] xs = xs)
    by (rewrite DequeFacts.extend_below by (simpl; lia); reflexivity).
  split.
  - rewrite pushes_extend. exact Hfill.
  - intros x. destruct xs as [ | oldest kept ]; [ discriminate Hlen | ].
    exists oldest, kept. split; [ reflexivity | ].
    assert (Hpush : Deque.append SEQUENCE_LENGTH (oldest :: kept) x = kept ++ [x])
      by (rewrite DequeFacts.append_full by exact Hlen; reflexivity).
    split; [ exact Hpush | ].
    rewrite pushes_extend. unfold Deque.extend. rewrite fold_left_app.
    fold (Deque.extend SEQUENCE_LENGTH (buffer init) (oldest :: kept)).
    change (buffer init) with (@nil sample). rewrite Hfill. exact Hpush.
Qed.

Lemma window_fifo_witness :
  let xs := map (fun n => [inject_Z (Z.of_nat n)]) (seq 0 SEQUENCE_LENGTH) in
  buffer (apply_ops demo_model demo_classes MIN_CONFIDENCE (map OpPush xs) init) = xs /\
  forall x : sample,
    exists oldest kept,
      xs = oldest :: kept /\
      Deque.append SEQUENCE_LENGTH xs x = kept ++ [x] /\
      buffer (apply_ops demo_model demo_classes MIN_CONFIDENCE
                (map OpPush (xs ++ [x])) init) = kept ++ [x].
Proof.
  intros xs. apply (window_fifo demo_model demo_classes MIN_CONFIDENCE xs).
  reflexivity.
Defined.

(** ** Unfolding the methods *)

Ltac run_py :=
  cbv beta iota delta [bind get modify ret lift predict try_except].

Section RecognizerFacts.

Variable model : classifier.
Variable classes : list string.
Variable min_confidence : Q.

Local Abbreviation reconhecer := (reconhecer model classes min_confidence).
Local Abbreviation processar_frame := (processar_frame model classes min_confidence).

(** [reconhecer] on a window that is not full. *)
Lemma reconhecer_short (r : recognizer) :
  length (buffer r) < SEQUENCE_LENGTH ->
  reconhecer r = (Val (None, 0%Q), r).
Proof.
  intros Hlen. unfold reconhecer. run_py.
  apply Nat.ltb_lt in Hlen. rewrite Hlen. reflexivity.
Qed.

(** [reconhecer] on a full window, case by case. *)
Lemma reconhecer_full (r : recognizer) :
  reshape SEQUENCE_LENGTH (buffer r) = Val (buffer r) ->
  reconhecer r =
    let r1 := log_call (buffer r) r in
    match top_class model (buffer r) with
    | Exc e => (Exc e, r1)
    | Val (classe_idx, confianca) =>
        if Qlt_bool confianca min_confidence then (Val (None, confianca), r1)
        else
          match index classes classe_idx with
          | Exc e => (Exc e, r1)
          | Val gesto =>
              let r2 := set_prediction_history (voted gesto r) r1 in
              match votacao (voted gesto r) with
              | Exc e => (Exc e, r2)
              | Val gesto_final => (Val (Some gesto_final, confianca), r2)
              end
          end
    end.
Proof.
  intros Hshape.
  assert (Hlen : (length (buffer r) <? SEQUENCE_LENGTH) = false).
  { unfold reshape in Hshape.
    destruct (Nat.eqb_spec (length (buffer r)) SEQUENCE_LENGTH) as [E | E];
      [ rewrite E; apply Nat.ltb_irrefl | discriminate Hshape ]. }
  unfold reconhecer, top_class, voted. run_py. rewrite Hlen, Hshape. simpl.
  destruct (model (buffer r)) as [batch | e]; [ | reflexivity ].
  destruct (index batch 0) as [predicoes | e]; [ | reflexivity ].
  destruct (argmax predicoes) as [classe_idx | e]; [ | reflexivity ].
  destruct (index predicoes classe_idx) as [confianca | e]; [ | reflexivity ].
  destruct (Qlt_bool confianca min_confidence); [ reflexivity | ].
  destruct (index classes classe_idx) as [gesto | e]; [ | reflexivity ].
  simpl.
  destruct (votacao _) as [gesto_final | e]; reflexivity.
Qed.

(** A frame without hands. *)
Lemma processar_frame_absent (rs : results) (r : recognizer) :
  has_hands rs = false ->
  processar_frame rs r =
    (Val (ultimo_gesto r, ultima_confianca r, false),
     if (RESET_THRESHOLD <? frames_sem_maos r + 1) && (0 <? length (buffer r))
     then mkRecognizer [] [] (frames_sem_maos r + 1)
                       (ultimo_gesto r) (ultima_confianca r) (predict_calls r)
     else set_frames_sem_maos (frames_sem_maos r + 1) r).
Proof.
  intros Hno. unfold processar_frame. rewrite Hno. run_py. simpl.
  destruct ((RESET_THRESHOLD <? frames_sem_maos r + 1) && (0 <? length (buffer r)));
    reflexivity.
Qed.

(** A frame with hands that does not fill the window. *)
Lemma processar_frame_filling (rs : results) (r : recognizer) :
  has_hands rs = true ->
  length (pushed rs r) <> SEQUENCE_LENGTH ->
  processar_frame rs r =
    (Val (ultimo_gesto r, ultima_confianca r, false),
     set_buffer (pushed rs r) (set_frames_sem_maos 0 r)).
Proof.
  intros Hyes Hlen. unfold processar_frame. rewrite Hyes. run_py. simpl.
  fold (pushed rs r). apply Nat.eqb_neq in Hlen. rewrite Hlen. reflexivity.
Qed.

(** A frame with hands that fills the window, in terms of what
    [reconhecer] does on the pushed window. *)
Lemma processar_frame_full (rs : results) (r : recognizer) :
  has_hands rs = true ->
  length (pushed rs r) = SEQUENCE_LENGTH ->
  processar_frame rs r =
    match reconhecer (set_buffer (pushed rs r) (set_frames_sem_maos 0 r)) with
    | (Exc e, r') => (Exc e, r')
    | (Val (gesto, confianca), r') =>
        if truthy gesto && negb (gesto_eqb gesto (ultimo_gesto r'))
        then (Val (gesto, confianca, true),
              set_buffer [] (set_ultimo gesto confianca r'))
        else (Val (ultimo_gesto r', ultima_confianca r', false), r')
    end.
Proof.
  intros Hyes Hlen. unfold processar_frame. rewrite Hyes. run_py. simpl.
  fold (pushed rs r). apply Nat.eqb_eq in Hlen. rewrite Hlen.
  destruct (reconhecer _) as [[[gesto confianca] | e] r']; [ | reflexivity ].
  simpl.
  destruct (truthy gesto && negb (gesto_eqb gesto (ultimo_gesto r'))); reflexivity.
Qed.

(** What [reconhecer] can change: nothing but the vote history, which
    gains at most one label, and the record of classifier calls. *)
Lemma reconhecer_effect (r : recognizer) :
  let '(result, r') := reconhecer r in
  buffer r' = buffer r /\
  frames_sem_maos r' = frames_sem_maos r /\
  ultimo_gesto r' = ultimo_gesto r /\
  ultima_confianca r' = ultima_confianca r /\
  (predict_calls r' = predict_calls r \/
   predict_calls r' = buffer r :: predict_calls r) /\
  (prediction_history r' = prediction_history r \/
   exists g, prediction_history r' = voted g r).
Proof.
  unfold reconhecer, voted. run_py.
  destruct (length (buffer r) <? SEQUENCE_LENGTH); [ simpl; tauto | ].
  unfold reshape.
  destruct ((length (buffer r) =? SEQUENCE_LENGTH) &&
            forallb (fun s => length s =? 126) (buffer r));
    [ | simpl; tauto ].
  simpl.
  destruct (model (buffer r)) as [batch | e]; [ | simpl; tauto ].
  destruct (index batch 0) as [predicoes | e]; [ | simpl; tauto ].
  destruct (argmax predicoes) as [classe_idx | e]; [ | simpl; tauto ].
  destruct (index predicoes classe_idx) as [confianca | e]; [ | simpl; tauto ].
  destruct (Qlt_bool confianca min_confidence); [ simpl; tauto | ].
  destruct (index classes classe_idx) as [gesto | e]; [ | simpl; tauto ].
  simpl.
  destruct (votacao _) as [gesto_final | e]; simpl;
    repeat split; try tauto; right; exists gesto; reflexivity.
Qed.

(** What a frame with hands can change. *)
Lemma processar_frame_present (rs : results) (r : recognizer) :
  has_hands rs = true ->
  let '(result, r') := processar_frame rs r in
  frames_sem_maos r' = 0 /\
  buffer r' = match result with
              | Val (_, _, true) => []
              | _ => pushed rs r
              end /\
  (predict_calls r' = predict_calls r \/
   predict_calls r' = pushed rs r :: predict_calls r) /\
  (prediction_history r' = prediction_history r \/
   exists g, prediction_history r' = voted g r).
Proof.
  intros Hyes.
  destruct (Nat.eq_dec (length (pushed rs r)) SEQUENCE_LENGTH) as [Hfull | Hnot].
  - rewrite (processar_frame_full rs r Hyes Hfull).
    pose proof (reconhecer_effect (set_buffer (pushed rs r) (set_frames_sem_maos 0 r)))
      as Heff.
    destruct (reconhecer _) as [[[gesto confianca] | e] r']; simpl in Heff;
      destruct Heff as (Hb & Hf & Hu & Hc & Hcalls & Hhist).
    + destruct (truthy gesto && negb (gesto_eqb gesto (ultimo_gesto r'))); simpl; tauto.
    + tauto.
  - rewrite (processar_frame_filling rs r Hyes Hnot). simpl. tauto.
Qed.

(** [processar_frame] keeps both deques within their [maxlen]. *)
Lemma processar_frame_bounded (rs : results) (r : recognizer) :
  bounded r -> bounded (snd (processar_frame rs r)).
Proof.
  intros [Hb Hh]. unfold bounded.
  destruct (has_hands rs) eqn:Hyes.
  - pose proof (processar_frame_present rs r Hyes) as Heff.
    destruct (processar_frame rs r) as [result r']. simpl.
    destruct Heff as (_ & Hbuf & _ & Hhist). split.
    + rewrite Hbuf.
      assert (length (pushed rs r) <= SEQUENCE_LENGTH)
        by (apply DequeFacts.append_length_le; exact Hb).
      destruct result as [[[g c] [ | ]] | e]; simpl; lia.
    + destruct Hhist as [-> | [g ->]];
        [ exact Hh | apply DequeFacts.append_length_le; exact Hh ].
  - rewrite (processar_frame_absent rs r Hyes). simpl.
    destruct ((RESET_THRESHOLD <? frames_sem_maos r + 1) && (0 <? length (buffer r)));
      simpl; split; solve [ assumption | apply Nat.le_0_l ].
Qed.

(** [processar_frame] only ever stores samples of the right size. *)
Lemma processar_frame_samples (rs : results) (r : recognizer) :
  Forall sample_ok (buffer r) ->
  Forall sample_ok (buffer (snd (processar_frame rs r))).
Proof.
  intros Hok.
  destruct (has_hands rs) eqn:Hyes.
  - pose proof (processar_frame_present rs r Hyes) as Heff.
    destruct (processar_frame rs r) as [result r']. simpl.
    destruct Heff as (_ & Hbuf & _). rewrite Hbuf.
    assert (Forall sample_ok (pushed rs r))
      by (apply DequeFacts.append_Forall;
          [ exact Hok | apply processar_landmarks_ok ]).
    destruct result as [[[g c] [ | ]] | e]; solve [ assumption | constructor ].
  - rewrite (processar_frame_absent rs r Hyes). simpl.
    destruct ((RESET_THRESHOLD <? frames_sem_maos r + 1) && (0 <? length (buffer r)));
      simpl; solve [ assumption | constructor ].
Qed.

Lemma processar_frame_well_formed (rs : results) (r : recognizer) :
  well_formed r -> well_formed (snd (processar_frame rs r)).
Proof.
  intros [Hb Hs]. split;
    [ apply processar_frame_bounded | apply processar_frame_samples ]; assumption.
Qed.

(** A window that is full and holds proper samples goes through
    [reshape]. *)
Lemma reshape_full (w : list sample) :
  length w = SEQUENCE_LENGTH -> Forall sample_ok w ->
  reshape SEQUENCE_LENGTH w = Val w.
Proof.
  intros Hlen Hok. unfold reshape.
  apply Nat.eqb_eq in Hlen. rewrite Hlen. simpl.
  replace (forallb (fun s => length s =? 126) w) with true; [ reflexivity | ].
  symmetry. apply forallb_forall. intros s Hin.
  apply Nat.eqb_eq. rewrite Forall_forall in Hok. apply Hok. exact Hin.
Qed.

Lemma reshape_Val (n : nat) (w w' : list sample) :
  reshape n w = Val w' -> w' = w /\ length w = n /\ Forall sample_ok w.
Proof.
  unfold reshape. intros H.
  destruct (Nat.eqb_spec (length w) n) as [Hlen | ]; [ | discriminate H ].
  destruct (forallb (fun s => length s =? 126) w) eqn:Hall; [ | discriminate H ].
  simpl in H. injection H as <-. repeat split; [ exact Hlen | ].
  apply Forall_forall. intros s Hin.
  rewrite forallb_forall in Hall. apply Nat.eqb_eq, Hall. exact Hin.
Qed.

Lemma pushed_ok (rs : results) (r : recognizer) :
  Forall sample_ok (buffer r) -> Forall sample_ok (pushed rs r).
Proof.
  intros Hok. apply DequeFacts.append_Forall;
    [ exact Hok | apply processar_landmarks_ok ].
Qed.

End RecognizerFacts.

(** ** The inference step guards its precondition *)

(** C9.  Called on a window that holds fewer than [SEQUENCE_LENGTH]
    samples, [reconhecer] returns [(None, 0.0)] and leaves the whole
    recogniser as it was: window, vote history, last gesture, and the
    record of classifier calls, so the classifier was not called.  The
    answer is the same whatever the classifier is. *)
Theorem reconhecer_guard
        (model : classifier) (classes : list string) (min_confidence : Q)
        (r : recognizer) :
  length (buffer r) < SEQUENCE_LENGTH ->
  reconhecer model classes min_confidence r = (Val (None, 0%Q), r) /\
  predict_calls (snd (reconhecer model classes min_confidence r)) = predict_calls r /\
  forall model' : classifier,
    reconhecer model' classes min_confidence r = (Val (None, 0%Q), r).
Proof.
  intros Hlen. split; [ | split ].
  - apply reconhecer_short. exact Hlen.
  - rewrite reconhecer_short by exact Hlen. reflexivity.
  - intros model'. apply reconhecer_short. exact Hlen.
Qed.

Lemma reconhecer_guard_witness :
  let r := snd (demo_run (repeat (mao 1) 7) init) in
  reconhecer demo_model demo_classes MIN_CONFIDENCE r = (Val (None, 0%Q), r) /\
  predict_calls (snd (reconhecer demo_model demo_classes MIN_CONFIDENCE r)) =
    predict_calls r /\
  forall model' : classifier,
    reconhecer model' demo_classes MIN_CONFIDENCE r = (Val (None, 0%Q), r).
Proof.
  intros r. apply (reconhecer_guard demo_model demo_classes MIN_CONFIDENCE r).
  vm_compute. lia.
Defined.

(** ** The confidence gate *)

(** The gate of [GestureRecognizer] comes before the history.  When the
    classifier's top probability for the window of this
    frame is strictly below [min_confidence], the frame reports no
    recognition, whatever the top class is (even one without a label);
    the vote history, the last gesture and its confidence stay as they
    were.  The only traces of the frame are the pushed sample, the
    presence counter and the recorded classifier call. *)
Theorem low_confidence_discarded
        (model : classifier) (classes : list string) (min_confidence : Q)
        (rs : results) (r : recognizer) (classe_idx : nat) (confianca : Q) :
  has_hands rs = true ->
  reshape SEQUENCE_LENGTH (pushed rs r) = Val (pushed rs r) ->
  top_class model (pushed rs r) = Val (classe_idx, confianca) ->
  (confianca < min_confidence)%Q ->
  exists r',
    processar_frame model classes min_confidence rs r =
      (Val (ultimo_gesto r, ultima_confianca r, false), r') /\
    evento (ultimo_gesto r, ultima_confianca r, false) = None /\
    prediction_history r' = prediction_history r /\
    ultimo_gesto r' = ultimo_gesto r /\
    ultima_confianca r' = ultima_confianca r /\
    buffer r' = pushed rs r /\
    predict_calls r' = pushed rs r :: predict_calls r.
Proof.
  intros Hyes Hshape Htop Hlow.
  destruct (reshape_Val _ _ Hshape) as (_ & Hlen & _).
  rewrite (processar_frame_full model classes min_confidence rs r Hyes Hlen).
  rewrite reconhecer_full by exact Hshape.
  simpl. rewrite Htop.
  apply Qlt_bool_iff in Hlow. rewrite Hlow. simpl.
  eexists. split; [ reflexivity | ]. simpl. repeat split; reflexivity.
Qed.

Lemma low_confidence_discarded_witness :
  let r := snd (demo_run (repeat (mao 1) 30 ++ repeat (mao 4) 29) init) in
  exists r',
    processar_frame demo_model demo_classes MIN_CONFIDENCE (mao 4) r =
      (Val (ultimo_gesto r, ultima_confianca r, false), r') /\
    evento (ultimo_gesto r, ultima_confianca r, false) = None /\
    prediction_history r' = prediction_history r /\
    ultimo_gesto r' = ultimo_gesto r /\
    ultima_confianca r' = ultima_confianca r /\
    buffer r' = pushed (mao 4) r /\
    predict_calls r' = pushed (mao 4) r :: predict_calls r.
Proof.
  intros r.
  apply (@low_confidence_discarded demo_model demo_classes MIN_CONFIDENCE
           (mao 4) r 0 (4 # 10)).
  - reflexivity.
  - vm_compute. reflexivity.
  - vm_compute. reflexivity.
  - vm_compute. reflexivity.
Defined.

(** ** The presence tracker *)

(** The presence test of [GestureRecognizer].  A frame without hands
    pushes no sample, calls no classifier and
    reports nothing; it adds one to [frames_sem_maos], and when the new
    count exceeds [RESET_THRESHOLD] while the window is not empty it
    empties the window and the vote history, and otherwise leaves both;
    the last gesture stays in every case.  A frame with hands sets
    [frames_sem_maos] to 0 and pushes the encoded sample: the window it
    leaves is the pushed one, emptied only when the frame reports a
    recognition, and the classifier, if called, was given the pushed
    window. *)
Theorem presence_tracker
        (model : classifier) (classes : list string) (min_confidence : Q)
        (rs : results) (r : recognizer) :
  (has_hands rs = false ->
   exists r',
     processar_frame model classes min_confidence rs r =
       (Val (ultimo_gesto r, ultima_confianca r, false), r') /\
     frames_sem_maos r' = frames_sem_maos r + 1 /\
     ultimo_gesto r' = ultimo_gesto r /\
     predict_calls r' = predict_calls r /\
     (RESET_THRESHOLD < frames_sem_maos r' -> buffer r <> [] ->
      buffer r' = [] /\ prediction_history r' = []) /\
     (frames_sem_maos r' <= RESET_THRESHOLD \/ buffer r = [] ->
      buffer r' = buffer r /\ prediction_history r' = prediction_history r)) /\
  (has_hands rs = true ->
   exists result r',
     processar_frame model classes min_confidence rs r = (result, r') /\
     frames_sem_maos r' = 0 /\
     buffer r' = match result with
                 | Val (_, _, true) => []
                 | _ => pushed rs r
                 end /\
     (predict_calls r' = predict_calls r \/
      predict_calls r' = pushed rs r :: predict_calls r)) /\
  RESET_THRESHOLD = 10.
Proof.
  split; [ | split; [ | reflexivity ] ].
  - intros Hno. rewrite processar_frame_absent by exact Hno.
    eexists. split; [ reflexivity | ].
    destruct (Nat.ltb_spec RESET_THRESHOLD (frames_sem_maos r + 1)) as [Hgt | Hle];
      destruct (buffer r) as [ | s b ] eqn:Hbuf; simpl;
      (split; [ reflexivity | ]); (split; [ reflexivity | ]);
      (split; [ reflexivity | ]); split.
    + intros _ Hne. congruence.
    + intros _. rewrite Hbuf. split; reflexivity.
    + intros _ _. split; reflexivity.
    + intros [Hle | Hnil]; [ exfalso; lia | discriminate Hnil ].
    + intros _ Hne. congruence.
    + intros _. rewrite Hbuf. split; reflexivity.
    + intros Hgt. exfalso. lia.
    + intros _. rewrite Hbuf. split; reflexivity.
  - intros Hyes.
    pose proof (processar_frame_present model classes min_confidence rs r Hyes) as H.
    destruct (processar_frame model classes min_confidence rs r) as [result r'].
    exists result, r'. split; [ reflexivity | ]. tauto.
Qed.

Lemma presence_tracker_witness :
  let r := snd (demo_run (repeat (mao 1) 3 ++ repeat sem_maos 10) init) in
  (exists r',
     demo_frame sem_maos r = (Val (ultimo_gesto r, ultima_confianca r, false), r') /\
     frames_sem_maos r' = frames_sem_maos r + 1 /\
     ultimo_gesto r' = ultimo_gesto r /\
     predict_calls r' = predict_calls r /\
     (RESET_THRESHOLD < frames_sem_maos r' -> buffer r <> [] ->
      buffer r' = [] /\ prediction_history r' = []) /\
     (frames_sem_maos r' <= RESET_THRESHOLD \/ buffer r = [] ->
      buffer r' = buffer r /\ prediction_history r' = prediction_history r)) /\
  (exists result r',
     demo_frame (mao 2) r = (result, r') /\
     frames_sem_maos r' = 0 /\
     buffer r' = match result with
                 | Val (_, _, true) => []
                 | _ => pushed (mao 2) r
                 end /\
     (predict_calls r' = predict_calls r \/
      predict_calls r' = pushed (mao 2) r :: predict_calls r)).
Proof.
  intros r. split.
  - apply (proj1 (presence_tracker demo_model demo_classes MIN_CONFIDENCE sem_maos r)).
    reflexivity.
  - apply (proj1 (proj2
             (presence_tracker demo_model demo_classes MIN_CONFIDENCE (mao 2) r))).
    reflexivity.
Defined.

(** ** Both deques stay within their capacity *)

Lemma apply_op_bounded
      (model : classifier) (classes : list string) (min_confidence : Q)
      (o : op) (r : recognizer) :
  bounded r -> bounded (apply_op model classes min_confidence r o).
Proof.
  intros Hb. destruct o as [ rs | s | g | | | ]; simpl.
  - apply processar_frame_bounded. exact Hb.
  - destruct Hb as [Hw Hh]. split; simpl;
      [ apply DequeFacts.append_length_le | ]; assumption.
  - destruct Hb as [Hw Hh]. split; simpl;
      [ | apply DequeFacts.append_length_le ]; assumption.
  - destruct Hb as [Hw Hh]. split; simpl; [ apply Nat.le_0_l | assumption ].
  - destruct Hb as [Hw Hh]. split; simpl; [ assumption | apply Nat.le_0_l ].
  - split; simpl; apply Nat.le_0_l.
Qed.

Lemma apply_ops_bounded
      (model : classifier) (classes : list string) (min_confidence : Q)
      (ops : list op) (r : recognizer) :
  bounded r -> bounded (apply_ops model classes min_confidence ops r).
Proof.
  unfold apply_ops. revert r.
  induction ops as [ | o ops IH ]; intros r Hb; simpl;
    [ exact Hb | apply IH, apply_op_bounded, Hb ].
Qed.

(** C6.  After any sequence of [processar_frame] calls (raising or not),
    pushes, clears and resets applied to a fresh recogniser, the window
    holds at most [SEQUENCE_LENGTH] = 30 samples and the vote history at
    most [HISTORY_SIZE] = 15 labels. *)
Theorem capacity_invariant
        (model : classifier) (classes : list string) (min_confidence : Q)
        (ops : list op) :
  let r := apply_ops model classes min_confidence ops init in
  length (buffer r) <= SEQUENCE_LENGTH /\
  length (prediction_history r) <= HISTORY_SIZE /\
  SEQUENCE_LENGTH = 30 /\ HISTORY_SIZE = 15.
Proof.
  assert (Hb : bounded (apply_ops model classes min_confidence ops init)).
  { apply apply_ops_bounded. split; simpl; apply Nat.le_0_l. }
  destruct Hb as [Hw Hh]. repeat split; assumption.
Qed.

(** ** The majority vote *)

Lemma contar_snoc (history : list string) (g : string) :
  contar (history ++ [g]) = incr g (contar history).
Proof. unfold contar. rewrite fold_left_app. reflexivity. Qed.

Lemma ocorrencias_snoc (k g : string) (history : list string) :
  ocorrencias k (history ++ [g]) =
    if string_dec k g then S (ocorrencias k history) else ocorrencias k history.
Proof.
  unfold ocorrencias. rewrite count_occ_app. simpl.
  destruct (string_dec g k) as [E | E], (string_dec k g) as [E' | E'];
    try congruence; lia.
Qed.

(** A known key keeps its place. *)
Lemma incr_keys_known (g : string) (contagem : list (string * nat)) :
  In g (map fst contagem) ->
  map fst (incr g contagem) = map fst contagem.
Proof.
  induction contagem as [ | [k n] rest IH ]; simpl; intros Hin.
  - destruct Hin.
  - destruct (String.eqb_spec k g) as [E | E]; simpl; [ reflexivity | ].
    rewrite IH; [ reflexivity | ]. destruct Hin; [ contradiction | assumption ].
Qed.

(** A new key goes to the end. *)
Lemma incr_keys_new (g : string) (contagem : list (string * nat)) :
  ~ In g (map fst contagem) ->
  map fst (incr g contagem) = map fst contagem ++ [g].
Proof.
  induction contagem as [ | [k n] rest IH ]; simpl; intros Hnot.
  - reflexivity.
  - destruct (String.eqb_spec k g) as [E | E]; simpl; [ tauto | ].
    rewrite IH by tauto. reflexivity.
Qed.

(** Counting one more [g] adds one to the count of [g] and to no other. *)
Lemma incr_counts (c : string -> nat) (g : string) (contagem : list (string * nat)) :
  NoDup (map fst contagem) ->
  Forall (fun kn => snd kn = c (fst kn)) contagem ->
  (~ In g (map fst contagem) -> c g = 0) ->
  Forall (fun kn => snd kn = if string_dec (fst kn) g
                             then S (c (fst kn)) else c (fst kn))
         (incr g contagem).
Proof.
  induction contagem as [ | [k n] rest IH ]; simpl; intros Hnd Hall Hnew.
  - constructor; [ | constructor ]. simpl.
    destruct (string_dec g g) as [ _ | N ]; [ | contradiction ].
    rewrite Hnew by tauto. reflexivity.
  - inversion Hnd as [ | ? ? Hnotin Hnd' ]; subst.
    inversion Hall as [ | ? ? Hk Hrest ]; subst. simpl in Hk.
    destruct (String.eqb_spec k g) as [E | E].
    + subst k. constructor; simpl.
      * destruct (string_dec g g) as [ _ | N ]; [ congruence | contradiction ].
      * rewrite Forall_forall in Hrest |- *. intros [k' n'] Hin. simpl.
        destruct (string_dec k' g) as [E' | _ ]; [ | apply (Hrest _ Hin) ].
        exfalso. apply Hnotin. subst k'.
        apply in_map_iff. exists (g, n'). split; [ reflexivity | exact Hin ].
    + constructor; simpl.
      * destruct (string_dec k g) as [ E' | _ ]; [ contradiction | exact Hk ].
      * apply IH; [ exact Hnd' | exact Hrest | ].
        intros Hnotg. apply Hnew. intros [ Hkg | Hin ]; [ contradiction | tauto ].
Qed.

(** The counting dictionary of a history: its keys are the labels of the
    history, each once, in the order of their first occurrence, and each
    key is mapped to its number of occurrences. *)
Lemma contar_spec (history : list string) :
  NoDup (chaves history) /\
  (forall k, In k (chaves history) <-> In k history) /\
  Forall (fun kn => snd kn = ocorrencias (fst kn) history) (contar history) /\
  (forall ks1 k ks2,
     chaves history = ks1 ++ k :: ks2 ->
     exists antes depois,
       history = antes ++ k :: depois /\ incl antes ks1).
Proof.
  unfold chaves.
  induction history as [ | g history IH ] using rev_ind.
  - simpl. repeat split; try constructor; try tauto.
    intros ks1 k ks2 H. destruct ks1; discriminate H.
  - destruct IH as (Hnd & Hkeys & Hcnt & Hord).
    rewrite contar_snoc.
    assert (Hcounts :
      Forall (fun kn => snd kn = ocorrencias (fst kn) (history ++ [g]))
             (incr g (contar history))).
    { eapply Forall_impl;
        [ | apply (incr_counts (fun k => ocorrencias k history) g Hnd Hcnt) ].
      - intros [k n]. simpl. intros ->. rewrite ocorrencias_snoc. reflexivity.
      - intros Hnot. unfold ocorrencias. apply count_occ_not_In.
        rewrite <- Hkeys. exact Hnot. }
    destruct (in_dec string_dec g (map fst (contar history))) as [Hin | Hnot].
    + rewrite (incr_keys_known g _ Hin).
      split; [ exact Hnd | ]. split; [ | split; [ exact Hcounts | ] ].
      * intros k. rewrite in_app_iff, Hkeys. simpl.
        split; [ tauto | ].
        intros [ H | [ <- | [] ] ]; [ exact H | apply Hkeys, Hin ].
      * intros ks1 k ks2 Hsplit.
        destruct (Hord _ _ _ Hsplit) as (antes & depois & -> & Hincl).
        exists antes, (depois ++ [g]). split; [ | exact Hincl ].
        rewrite <- app_assoc. reflexivity.
    + rewrite (incr_keys_new g _ Hnot).
      split; [ | split; [ | split; [ exact Hcounts | ] ] ].
      * apply NoDup_app; [ exact Hnd | constructor; [ intros [] | constructor ] | ].
        intros x Hx [ <- | [] ]. exact (Hnot Hx).
      * intros k. rewrite !in_app_iff, Hkeys. reflexivity.
      * intros ks1 k ks2 Hsplit.
        destruct ks2 as [ | y ks2 _ ] using rev_ind.
        -- apply app_inj_tail in Hsplit. destruct Hsplit as [<- <-].
           exists history, []. split; [ reflexivity | ].
           intros x Hx. apply Hkeys. exact Hx.
        -- change (ks1 ++ k :: ks2 ++ [y]) with (ks1 ++ (k :: ks2) ++ [y]) in Hsplit.
           rewrite app_assoc in Hsplit.
           apply app_inj_tail in Hsplit. destruct Hsplit as [Hsplit _].
           destruct (Hord _ _ _ Hsplit) as (antes & depois & -> & Hincl).
           exists antes, (depois ++ [g]). split; [ | exact Hincl ].
           rewrite <- app_assoc. reflexivity.
Qed.

(** [max] returns the first item whose count is the largest. *)
Lemma max_from_spec (items : list (string * nat)) (best : string * nat) :
  exists m1 m2,
    best :: items = m1 ++ max_from best items :: m2 /\
    (forall it, In it m1 -> snd it < snd (max_from best items)) /\
    (forall it, In it m2 -> snd it <= snd (max_from best items)).
Proof.
  revert best. induction items as [ | it rest IH ]; intros best; simpl.
  - exists [], []. repeat split; intros ? [].
  - destruct (Nat.ltb_spec (snd best) (snd it)) as [Hlt | Hge].
    + destruct (IH it) as (m1 & m2 & Heq & Hm1 & Hm2).
      exists (best :: m1), m2. split; [ simpl; rewrite Heq; reflexivity | ].
      split; [ | exact Hm2 ].
      intros x [ <- | Hx ]; [ | apply Hm1, Hx ].
      assert (Hit : In it (m1 ++ max_from it rest :: m2))
        by (rewrite <- Heq; left; reflexivity).
      apply in_app_or in Hit. destruct Hit as [ Hit | [ Hit | Hit ] ].
      * specialize (Hm1 _ Hit). lia.
      * rewrite Hit. exact Hlt.
      * specialize (Hm2 _ Hit). lia.
    + destruct (IH best) as (m1 & m2 & Heq & Hm1 & Hm2).
      destruct m1 as [ | b m1 ]; simpl in Heq; injection Heq as Hb Hrest.
      * exists [], (it :: rest). rewrite <- Hb. split; [ reflexivity | ].
        split; [ intros ? [] | ].
        intros x [ <- | Hx ]; [ exact Hge | ].
        rewrite Hb. apply Hm2. rewrite <- Hrest. exact Hx.
      * subst b. exists (best :: it :: m1), m2.
        split; [ simpl; do 2 f_equal; exact Hrest | ].
        split; [ | exact Hm2 ].
        intros x [ <- | [ <- | Hx ] ].
        -- apply Hm1. left. reflexivity.
        -- assert (snd best < snd (max_from best rest))
             by (apply Hm1; left; reflexivity).
           lia.
        -- apply Hm1. right. exact Hx.
Qed.

(** On a history that is not empty the vote returns the first of its
    most frequent labels. *)
Lemma votacao_spec (history : list string) :
  history <> [] ->
  exists g, votacao history = Val g /\ first_most_frequent g history.
Proof.
  intros Hne.
  destruct (contar_spec history) as (Hnd & Hkeys & Hcnt & Hord).
  unfold votacao, py_max.
  destruct (contar history) as [ | best items ] eqn:Hcontar.
  - exfalso. destruct history as [ | g0 history ]; [ congruence | ].
    assert (Hin : In g0 (chaves (g0 :: history)))
      by (apply Hkeys; left; reflexivity).
    unfold chaves in Hin. rewrite Hcontar in Hin. exact Hin.
  - destruct (max_from_spec items best) as (m1 & m2 & Heq & Hm1 & Hm2).
    set (r := max_from best items) in *.
    exists (fst r). split; [ reflexivity | ].
    rewrite Heq in Hcnt.
    assert (Hr : snd r = ocorrencias (fst r) history).
    { rewrite Forall_forall in Hcnt. apply (Hcnt r).
      apply in_or_app. right. left. reflexivity. }
    assert (Hall : forall x, In x history -> ocorrencias x history <= snd r).
    { intros x Hx. apply Hkeys in Hx. unfold chaves in Hx.
      rewrite Hcontar, Heq in Hx. apply in_map_iff in Hx.
      destruct Hx as ([k n] & Hk & Hin). simpl in Hk. subst k.
      rewrite Forall_forall in Hcnt.
      pose proof (Hcnt _ Hin) as Hn. simpl in Hn. rewrite <- Hn.
      apply in_app_or in Hin. destruct Hin as [ Hin | [ Hin | Hin ] ].
      - specialize (Hm1 _ Hin). simpl in Hm1. lia.
      - rewrite Hin. simpl. lia.
      - specialize (Hm2 _ Hin). simpl in Hm2. lia. }
    destruct (Hord (map fst m1) (fst r) (map fst m2)) as (antes & depois & Hh & Hincl).
    { unfold chaves. rewrite Hcontar, Heq, map_app. reflexivity. }
    exists antes, depois. split; [ exact Hh | ]. split.
    + intros x. rewrite <- Hr.
      destruct (in_dec string_dec x history) as [Hx | Hx]; [ apply Hall, Hx | ].
      unfold ocorrencias. rewrite (proj1 (count_occ_not_In string_dec history x) Hx).
      apply Nat.le_0_l.
    + intros x Hx. apply Hincl in Hx. apply in_map_iff in Hx.
      destruct Hx as ([k n] & Hk & Hin). simpl in Hk. subst k.
      rewrite <- Hr. specialize (Hm1 _ Hin). simpl in Hm1.
      rewrite Forall_forall in Hcnt.
      assert (Hn : snd (x, n) = ocorrencias (fst (x, n)) history)
        by (apply Hcnt, in_or_app; left; exact Hin).
      simpl in Hn. rewrite <- Hn. exact Hm1.
Qed.

(** Only one label can be the first of the most frequent ones. *)
Lemma first_most_frequent_unique (g g' : string) (history : list string) :
  first_most_frequent g history -> first_most_frequent g' history -> g' = g.
Proof.
  intros (a & d & Hh & Hmax & Hbefore) (a' & d' & Hh' & Hmax' & Hbefore').
  assert (Hg' : ~ In g' a).
  { intros Hin. specialize (Hbefore _ Hin). specialize (Hmax' g). lia. }
  assert (Hg : ~ In g a').
  { intros Hin. specialize (Hbefore' _ Hin). specialize (Hmax g'). lia. }
  clear Hmax Hbefore Hmax' Hbefore'.
  rewrite Hh in Hh'. clear Hh.
  revert a' Hh' Hg. induction a as [ | x a IH ]; intros [ | y a' ] Heq Hg; simpl in *.
  - congruence.
  - exfalso. apply Hg. left. congruence.
  - exfalso. apply Hg'. left. congruence.
  - injection Heq as _ Heq. apply (IH (fun H => Hg' (or_intror H)) a' Heq).
    intros H. apply Hg. right. exact H.
Qed.

(** When [reconhecer] returns a label: the classifier's top class for
    the window passed the gate, its label went into the history, and the
    label returned is the vote over that history. *)
Lemma reconhecer_Some
      (model : classifier) (classes : list string) (min_confidence : Q)
      (r r' : recognizer) (g : string) (c : Q) :
  reconhecer model classes min_confidence r = (Val (Some g, c), r') ->
  exists classe_idx gesto,
    top_class model (buffer r) = Val (classe_idx, c) /\
    Qlt_bool c min_confidence = false /\
    index classes classe_idx = Val gesto /\
    r' = set_prediction_history (voted gesto r) (log_call (buffer r) r) /\
    votacao (voted gesto r) = Val g.
Proof.
  unfold reconhecer, top_class, voted. run_py.
  destruct (length (buffer r) <? SEQUENCE_LENGTH); [ discriminate | ].
  destruct (reshape SEQUENCE_LENGTH (buffer r)) as [entrada | e] eqn:Hshape;
    [ | discriminate ].
  apply reshape_Val in Hshape. destruct Hshape as (-> & _ & _).
  simpl.
  destruct (model (buffer r)) as [batch | e]; [ | discriminate ].
  destruct (index batch 0) as [predicoes | e]; [ | discriminate ].
  destruct (argmax predicoes) as [classe_idx | e]; [ | discriminate ].
  destruct (index predicoes classe_idx) as [confianca | e]; [ | discriminate ].
  destruct (Qlt_bool confianca min_confidence) eqn:Hgate; [ discriminate | ].
  destruct (index classes classe_idx) as [gesto | e] eqn:Hlabel; [ | discriminate ].
  simpl.
  destruct (votacao _) as [gesto_final | e] eqn:Hvote; [ | discriminate ].
  intros H. injection H as <- <- <-. exists classe_idx, gesto.
  repeat split; solve [ reflexivity | assumption ].
Qed.

Lemma voted_not_nil (g : string) (r : recognizer) : voted g r <> [].
Proof.
  unfold voted, Deque.append.
  destruct (prediction_history r) as [ | x [ | y h ] ]; simpl; try discriminate.
  destruct (HISTORY_SIZE <? S (S (length (h ++ [g])))); [ | discriminate ].
  destruct h; discriminate.
Qed.

(** C8.  On a history that is not empty the vote returns a label; that
    label is a most frequent one, and every label met in the history
    before its first occurrence is strictly less frequent, so among tied
    labels the one seen first wins; no other label has this property.
    The label returned by [reconhecer] is this vote over the history it
    leaves. *)
Theorem majority_vote
        (model : classifier) (classes : list string) (min_confidence : Q)
        (history : list string) (r r' : recognizer) (g : string) (c : Q) :
  (history <> [] ->
   exists final,
     votacao history = Val final /\
     first_most_frequent final history /\
     forall other, first_most_frequent other history -> other = final) /\
  (reconhecer model classes min_confidence r = (Val (Some g, c), r') ->
   votacao (prediction_history r') = Val g /\
   first_most_frequent g (prediction_history r') /\
   forall other, first_most_frequent other (prediction_history r') -> other = g).
Proof.
  split.
  - intros Hne. destruct (votacao_spec Hne) as (final & Hv & Hf).
    exists final. split; [ exact Hv | ]. split; [ exact Hf | ].
    intros other Ho. apply (first_most_frequent_unique Hf Ho).
  - intros Hrec. apply reconhecer_Some in Hrec.
    destruct Hrec as (classe_idx & gesto & _ & _ & _ & -> & Hv). simpl.
    destruct (votacao_spec (@voted_not_nil gesto r)) as (final & Hv' & Hf).
    assert (final = g) by congruence. subst final.
    split; [ exact Hv | ]. split; [ exact Hf | ].
    intros other Ho. apply (first_most_frequent_unique Hf Ho).
Qed.

Lemma majority_vote_witness :
  let history := ["B"; "A"; "C"; "A"; "B"; "C"; "D"]%string in
  let r := snd (demo_run (repeat (mao 1) 30 ++ repeat (mao 2) 29) init) in
  let r' := snd (demo_frame (mao 2) r) in
  let g := "A"%string in
  let c := (8 # 10)%Q in
  (exists final,
     votacao history = Val final /\
     first_most_frequent final history /\
     forall other, first_most_frequent other history -> other = final) /\
  (votacao (prediction_history r') = Val g /\
   first_most_frequent g (prediction_history r') /\
   forall other, first_most_frequent other (prediction_history r') -> other = g).
Proof.
  intros history r r' g c.
  destruct (@majority_vote demo_model demo_classes MIN_CONFIDENCE history
              (set_buffer (pushed (mao 2) r) (set_frames_sem_maos 0 r)) r' g c)
    as [Hvote Hrec].
  split.
  - apply Hvote. discriminate.
  - apply Hrec. vm_compute. reflexivity.
Defined.

(** ** Emission *)

(** A frame whose prediction passes the gate, whatever the vote says. *)
Lemma processar_frame_accepted
      (model : classifier) (classes : list string) (min_confidence : Q)
      (rs : results) (r : recognizer)
      (classe_idx : nat) (confianca : Q) (gesto gesto_final : string) :
  has_hands rs = true ->
  reshape SEQUENCE_LENGTH (pushed rs r) = Val (pushed rs r) ->
  top_class model (pushed rs r) = Val (classe_idx, confianca) ->
  Qlt_bool confianca min_confidence = false ->
  index classes classe_idx = Val gesto ->
  votacao (voted gesto r) = Val gesto_final ->
  processar_frame model classes min_confidence rs r =
    if truthy (Some gesto_final) &&
       negb (gesto_eqb (Some gesto_final) (ultimo_gesto r))
    then (Val (Some gesto_final, confianca, true),
          mkRecognizer [] (voted gesto r) 0 (Some gesto_final) confianca
                       (pushed rs r :: predict_calls r))
    else (Val (ultimo_gesto r, ultima_confianca r, false),
          mkRecognizer (pushed rs r) (voted gesto r) 0
                       (ultimo_gesto r) (ultima_confianca r)
                       (pushed rs r :: predict_calls r)).
Proof.
  intros Hyes Hshape Htop Hgate Hlabel Hvote.
  destruct (reshape_Val _ _ Hshape) as (_ & Hlen & _).
  rewrite (processar_frame_full model classes min_confidence rs r Hyes Hlen).
  rewrite reconhecer_full by exact Hshape.
  simpl. rewrite Htop, Hgate, Hlabel.
  unfold voted in *. simpl. rewrite Hvote. simpl.
  destruct (negb (String.eqb gesto_final EmptyString) &&
            negb (gesto_eqb (Some gesto_final) (ultimo_gesto r))); reflexivity.
Qed.

(** C1, as the code has it.  When the vote over the history (with the
    accepted label of this frame appended) gives a non-empty label that
    differs from [ultimo_gesto], or [ultimo_gesto] is [None], the frame
    reports a recognition carrying that label and the confidence of this
    frame's prediction, stores both as the last gesture, and empties the
    window.  The vote history is not emptied: it is the history with the
    accepted label appended. *)
Theorem emission_keeps_history
        (model : classifier) (classes : list string) (min_confidence : Q)
        (rs : results) (r : recognizer)
        (classe_idx : nat) (confianca : Q) (gesto gesto_final : string) :
  has_hands rs = true ->
  reshape SEQUENCE_LENGTH (pushed rs r) = Val (pushed rs r) ->
  top_class model (pushed rs r) = Val (classe_idx, confianca) ->
  (min_confidence <= confianca)%Q ->
  index classes classe_idx = Val gesto ->
  votacao (voted gesto r) = Val gesto_final ->
  gesto_final <> EmptyString ->
  ultimo_gesto r <> Some gesto_final ->
  exists r',
    processar_frame model classes min_confidence rs r =
      (Val (Some gesto_final, confianca, true), r') /\
    evento (Some gesto_final, confianca, true) = Some (Some gesto_final, confianca) /\
    r' = mkRecognizer [] (voted gesto r) 0 (Some gesto_final) confianca
                      (pushed rs r :: predict_calls r) /\
    ultimo_gesto r' = Some gesto_final /\
    ultima_confianca r' = confianca /\
    buffer r' = [] /\
    prediction_history r' = voted gesto r /\
    prediction_history r' <> [].
Proof.
  intros Hyes Hshape Htop Hgate Hlabel Hvote Hnonempty Hnew.
  apply Qlt_bool_false_iff in Hgate.
  rewrite (@processar_frame_accepted model classes min_confidence rs r
             _ _ _ _ Hyes Hshape Htop Hgate Hlabel Hvote).
  apply truthy_Some in Hnonempty. rewrite Hnonempty.
  assert (Hneq : gesto_eqb (Some gesto_final) (ultimo_gesto r) = false)
    by (apply gesto_eqb_neq; congruence).
  rewrite Hneq. simpl.
  eexists. split; [ reflexivity | ]. simpl.
  repeat split. apply voted_not_nil.
Qed.

Lemma emission_keeps_history_witness :
  let r := snd (demo_run (repeat (mao 1) 30 ++ repeat (mao 2) 30) init) in
  exists r',
    demo_frame (mao 2) r = (Val (Some "B"%string, (8 # 10)%Q, true), r') /\
    evento (Some "B"%string, (8 # 10)%Q, true) = Some (Some "B"%string, (8 # 10)%Q) /\
    r' = mkRecognizer [] (voted "B" r) 0 (Some "B"%string) (8 # 10)
                      (pushed (mao 2) r :: predict_calls r) /\
    ultimo_gesto r' = Some "B"%string /\
    ultima_confianca r' = (8 # 10)%Q /\
    buffer r' = [] /\
    prediction_history r' = voted "B" r /\
    prediction_history r' <> [].
Proof.
  intros r.
  apply (@emission_keeps_history demo_model demo_classes MIN_CONFIDENCE
           (mao 2) r 1 (8 # 10) "B"%string "B"%string).
  - reflexivity.
  - vm_compute. reflexivity.
  - vm_compute. reflexivity.
  - vm_compute. discriminate.
  - reflexivity.
  - vm_compute. reflexivity.
  - discriminate.
  - vm_compute. discriminate.
Defined.

(** C1 as stated fails: the thirtieth frame of a hand that the
    classifier reads as A reports the recognition of A and empties the
    window, but the vote history still holds the label.  And a vote that
    gives the empty string is not reported although no gesture has been
    reported before: [if gesto and ...] takes it for no label. *)
Lemma emission_clears_history_counterexample :
  fst (demo_frame (mao 1) (snd (demo_run (repeat (mao 1) 29) init))) =
    Val (Some "A"%string, (9 # 10)%Q, true) /\
  buffer (snd (demo_frame (mao 1) (snd (demo_run (repeat (mao 1) 29) init)))) = [] /\
  ~ (buffer (snd (demo_frame (mao 1) (snd (demo_run (repeat (mao 1) 29) init)))) = [] /\
     prediction_history
       (snd (demo_frame (mao 1) (snd (demo_run (repeat (mao 1) 29) init)))) = []) /\
  votacao (voted EmptyString (snd (demo_run (repeat (mao 1) 29) init))) =
    Val EmptyString /\
  fst (processar_frame demo_model [EmptyString; "B"%string] MIN_CONFIDENCE (mao 1)
         (snd (demo_run (repeat (mao 1) 29) init))) =
    Val (None, 0%Q, false).
Proof.
  split; [ vm_compute; reflexivity | ].
  split; [ vm_compute; reflexivity | ].
  split; [ | split; vm_compute; reflexivity ].
  intros [_ H]. vm_compute in H. discriminate H.
Qed.

(** ** Votes over a history of two labels *)

Lemma repeat_snoc (A : Type) (x : A) (n : nat) :
  repeat x n ++ [x] = repeat x (S n).
Proof. symmetry. apply (repeat_cons n x). Qed.

Lemma contar_app (h1 h2 : list string) :
  contar (h1 ++ h2) = fold_left (fun contagem g => incr g contagem) h2 (contar h1).
Proof. unfold contar. apply fold_left_app. Qed.

Lemma incr_repeat_one (g : string) (n k : nat) :
  fold_left (fun contagem x => incr x contagem) (repeat g n) [(g, k)] = [(g, k + n)].
Proof.
  revert k. induction n as [ | n IH ]; intros k; simpl.
  - rewrite Nat.add_0_r. reflexivity.
  - rewrite String.eqb_refl, IH. f_equal. f_equal. lia.
Qed.

Lemma incr_repeat_two (o g : string) (a n k : nat) :
  o <> g ->
  fold_left (fun contagem x => incr x contagem) (repeat g n) [(o, a); (g, k)] =
    [(o, a); (g, k + n)].
Proof.
  intros Hog. apply String.eqb_neq in Hog.
  revert k. induction n as [ | n IH ]; intros k; simpl.
  - rewrite Nat.add_0_r. reflexivity.
  - rewrite Hog, String.eqb_refl, IH. do 3 f_equal. lia.
Qed.

Lemma contar_repeat (g : string) (n : nat) :
  contar (repeat g (S n)) = [(g, S n)].
Proof. unfold contar. simpl. apply incr_repeat_one. Qed.

Lemma votacao_repeat (g : string) (n : nat) :
  votacao (repeat g (S n)) = Val g.
Proof. unfold votacao. rewrite contar_repeat. reflexivity. Qed.

(** With both labels present, the second one needs strictly more votes. *)
Lemma votacao_two (o g : string) (a b : nat) :
  o <> g ->
  votacao (repeat o (S a) ++ repeat g b) = if S a <? b then Val g else Val o.
Proof.
  intros Hog. unfold votacao. rewrite contar_app, contar_repeat.
  destruct b as [ | b ]; [ reflexivity | ].
  pose proof Hog as Hneq. apply String.eqb_neq in Hneq.
  cbn [repeat fold_left incr]. rewrite Hneq.
  rewrite incr_repeat_two by exact Hog.
  cbn [py_max max_from snd fst].
  replace (1 + b) with (S b) by reflexivity.
  destruct (S a <? S b); reflexivity.
Qed.

(** Appending to a history of two labels. *)
Lemma append_two (o g : string) (a b : nat) :
  a + b <= HISTORY_SIZE ->
  Deque.append HISTORY_SIZE (repeat o a ++ repeat g b) g =
    repeat o (fst (next_counts a b)) ++ repeat g (snd (next_counts a b)).
Proof.
  intros Hle. unfold next_counts.
  assert (Hlen : length (repeat o a ++ repeat g b) = a + b)
    by (rewrite length_app, !repeat_length; reflexivity).
  destruct (Nat.ltb_spec (a + b) HISTORY_SIZE) as [Hlt | Hge].
  - rewrite DequeFacts.append_not_full by (rewrite Hlen; exact Hlt).
    rewrite <- app_assoc, repeat_snoc. reflexivity.
  - rewrite DequeFacts.append_full by (rewrite Hlen; lia).
    rewrite <- app_assoc, repeat_snoc.
    destruct a as [ | a0 ]; reflexivity.
Qed.

Lemma next_counts_bound (a b : nat) :
  a + b <= HISTORY_SIZE ->
  fst (next_counts a b) + snd (next_counts a b) <= HISTORY_SIZE /\
  fst (next_counts a b) <= a /\
  (a + b < HISTORY_SIZE \/ 1 <= a -> snd (next_counts a b) = S b) /\
  b <= snd (next_counts a b).
Proof.
  unfold next_counts. intros Hle.
  destruct (Nat.ltb_spec (a + b) HISTORY_SIZE) as [Hlt | Hge]; simpl.
  - lia.
  - destruct a as [ | a0 ]; simpl; lia.
Qed.

(** ** Frames under a classifier that keeps giving one label *)

Section SteadyClassifier.

Variable model : classifier.
Variable classes : list string.
Variable min_confidence : Q.
Variable g : string.

Hypothesis Hanswers : always_answers model classes min_confidence g.
Hypothesis Hg : g <> EmptyString.

Local Abbreviation processar_frame := (processar_frame model classes min_confidence).
Local Abbreviation run := (run model classes min_confidence).

Lemma pushed_length (rs : results) (r : recognizer) :
  well_formed r ->
  length (pushed rs r) = Nat.min SEQUENCE_LENGTH (S (length (buffer r))).
Proof. intros [[Hb _] _]. apply DequeFacts.append_length. exact Hb. Qed.

(** The window is not full yet: the sample is pushed and that is all. *)
Lemma step_filling (rs : results) (r : recognizer) :
  has_hands rs = true -> well_formed r ->
  length (buffer r) + 1 < SEQUENCE_LENGTH ->
  processar_frame rs r =
    (Val (ultimo_gesto r, ultima_confianca r, false),
     set_buffer (pushed rs r) (set_frames_sem_maos 0 r)) /\
  length (pushed rs r) = length (buffer r) + 1.
Proof.
  intros Hyes Hwf Hlen.
  pose proof (pushed_length rs Hwf) as Hp.
  split; [ | lia ].
  apply processar_frame_filling; [ exact Hyes | lia ].
Qed.

(** The window is full: the classifier is called, its label [g] is
    appended and the vote decides. *)
Lemma step_inference (rs : results) (r : recognizer) (gesto_final : string) :
  has_hands rs = true -> well_formed r ->
  SEQUENCE_LENGTH <= length (buffer r) + 1 ->
  votacao (voted g r) = Val gesto_final ->
  exists confianca,
    processar_frame rs r =
      if truthy (Some gesto_final) &&
         negb (gesto_eqb (Some gesto_final) (ultimo_gesto r))
      then (Val (Some gesto_final, confianca, true),
            mkRecognizer [] (voted g r) 0 (Some gesto_final) confianca
                         (pushed rs r :: predict_calls r))
      else (Val (ultimo_gesto r, ultima_confianca r, false),
            mkRecognizer (pushed rs r) (voted g r) 0
                         (ultimo_gesto r) (ultima_confianca r)
                         (pushed rs r :: predict_calls r)).
Proof.
  intros Hyes Hwf Hlen Hvote.
  pose proof (pushed_length rs Hwf) as Hp.
  assert (Hshape : reshape SEQUENCE_LENGTH (pushed rs r) = Val (pushed rs r)).
  { apply reshape_full; [ lia | apply pushed_ok, Hwf ]. }
  destruct (Hanswers Hshape) as (classe_idx & confianca & Htop & Hgate & Hlabel).
  exists confianca.
  eapply processar_frame_accepted; eassumption.
Qed.

(** Once [g] is the last gesture and holds the majority, no frame
    reports anything and [g] keeps both. *)
Lemma settled_step (o : string) (amax : nat) (rs : results) (r : recognizer) :
  o <> g -> settled o g amax r -> well_formed r ->
  exists out r',
    processar_frame rs r = (Val out, r') /\
    evento out = None /\
    settled o g amax r' /\
    (predict_calls r <> [] -> predict_calls r' <> []).
Proof.
  intros Hog (Hlast & a & b & Hhist & Hamax & Hmaj & Hsize) Hwf.
  destruct (has_hands rs) eqn:Hyes.
  - destruct (Nat.lt_ge_cases (length (buffer r) + 1) SEQUENCE_LENGTH) as [Hlt | Hge].
    + destruct (step_filling rs Hyes Hwf Hlt) as [-> _].
      eexists _, _. split; [ reflexivity | ]. split; [ reflexivity | ].
      split; [ | intros H; exact H ].
      split; [ exact Hlast | ]. exists a, b. simpl. tauto.
    + assert (Hvoted : voted g r =
                repeat o (fst (next_counts a b)) ++ repeat g (snd (next_counts a b))).
      { unfold voted. rewrite Hhist. apply append_two. exact Hsize. }
      destruct (next_counts_bound a b Hsize) as (Hsum & Hfst & Hsnd & Hmono).
      assert (Hvote : votacao (voted g r) = Val g).
      { rewrite Hvoted.
        destruct (fst (next_counts a b)) as [ | a' ] eqn:Ha'.
        - simpl. destruct (snd (next_counts a b)) as [ | b' ] eqn:Hb'.
          + exfalso. unfold next_counts in Ha', Hb'.
            destruct (a + b <? HISTORY_SIZE) eqn:Hlt; simpl in *; [ discriminate | ].
            apply Nat.ltb_ge in Hlt. destruct a; simpl in *;
              [ unfold HISTORY_SIZE in *; lia | discriminate ].
          + apply votacao_repeat.
        - rewrite votacao_two by exact Hog.
          assert (Hlt : S a' < snd (next_counts a b)) by lia.
          apply Nat.ltb_lt in Hlt. rewrite Hlt. reflexivity. }
      destruct (step_inference rs Hyes Hwf Hge Hvote) as (confianca & ->).
      rewrite Hlast, gesto_eqb_refl, andb_false_r.
      eexists _, _. split; [ reflexivity | ]. split; [ reflexivity | ].
      split; [ | intros _; simpl; discriminate ].
      split; [ reflexivity | ].
      exists (fst (next_counts a b)), (snd (next_counts a b)). simpl.
      split; [ exact Hvoted | ]. lia.
  - rewrite processar_frame_absent by exact Hyes.
    eexists _, _. split; [ reflexivity | ]. split; [ reflexivity | ].
    destruct ((RESET_THRESHOLD <? frames_sem_maos r + 1) && (0 <? length (buffer r))).
    + split; [ | intros H; exact H ].
      split; [ exact Hlast | ]. exists 0, 0. simpl.
      repeat split; solve [ lia | apply Nat.le_0_l ].
    + split; [ | intros H; exact H ].
      split; [ exact Hlast | ]. exists a, b. simpl. tauto.
Qed.

Lemma run_cons (rs : results) (fs : list results) (r : recognizer) :
  run (rs :: fs) r =
    match processar_frame rs r with
    | (Exc e, r') => (Exc e, r')
    | (Val out, r') =>
        match run fs r' with
        | (Val outs, r'') => (Val (out :: outs), r'')
        | (Exc e, r'') => (Exc e, r'')
        end
    end.
Proof. reflexivity. Qed.

Lemma eventos_cons_none (out : frame_out) (outs : list frame_out) :
  evento out = None -> eventos (out :: outs) = eventos outs.
Proof. intros H. unfold eventos. simpl. rewrite H. reflexivity. Qed.

Lemma eventos_cons_some (out : frame_out) (outs : list frame_out)
      (ev : option string * Q) :
  evento out = Some ev -> eventos (out :: outs) = ev :: eventos outs.
Proof. intros H. unfold eventos. simpl. rewrite H. reflexivity. Qed.

(** ... and so for any number of frames. *)
Lemma settled_run (o : string) (amax : nat) (fs : list results) (r : recognizer) :
  o <> g -> settled o g amax r -> well_formed r ->
  exists outs r',
    run fs r = (Val outs, r') /\
    eventos outs = [] /\
    settled o g amax r' /\
    well_formed r' /\
    (predict_calls r <> [] -> predict_calls r' <> []).
Proof.
  intros Hog. revert r. induction fs as [ | rs fs IH ]; intros r Hset Hwf.
  - exists [], r. simpl. tauto.
  - destruct (settled_step rs Hog Hset Hwf) as (out & r1 & Hstep & Hev & Hset1 & Hcalls1).
    assert (Hwf1 : well_formed r1).
    { pose proof (processar_frame_well_formed model classes min_confidence rs Hwf) as H.
      rewrite Hstep in H. exact H. }
    destruct (IH r1 Hset1 Hwf1) as (outs & r' & Hrun & Hevs & Hset' & Hwf' & Hcalls').
    exists (out :: outs), r'. rewrite run_cons, Hstep, Hrun.
    split; [ reflexivity | ].
    split; [ rewrite eventos_cons_none by exact Hev; exact Hevs | ].
    tauto.
Qed.

(** Before the first recognition: a frame either leaves the recogniser
    fresh, or it fills the window and reports [g]. *)
Lemma fresh_step (o : string) (rs : results) (r : recognizer) :
  fresh r -> well_formed r ->
  exists out r',
    processar_frame rs r = (Val out, r') /\
    ((evento out = None /\ fresh r') \/
     (exists c, evento out = Some (Some g, c) /\
                settled o g 0 r' /\ predict_calls r' <> [])).
Proof.
  intros (Hlast & Hhist & Hcalls) Hwf.
  destruct (has_hands rs) eqn:Hyes.
  - destruct (Nat.lt_ge_cases (length (buffer r) + 1) SEQUENCE_LENGTH) as [Hlt | Hge].
    + destruct (step_filling rs Hyes Hwf Hlt) as [-> _].
      eexists _, _. split; [ reflexivity | ]. left.
      split; [ reflexivity | ]. repeat split; assumption.
    + assert (Hvote : votacao (voted g r) = Val g).
      { unfold voted. rewrite Hhist. reflexivity. }
      destruct (step_inference rs Hyes Hwf Hge Hvote) as (confianca & ->).
      rewrite Hlast. apply truthy_Some in Hg. rewrite Hg. simpl.
      eexists _, _. split; [ reflexivity | ]. right.
      exists confianca. split; [ reflexivity | ].
      split; [ | simpl; discriminate ].
      split; [ reflexivity | ]. exists 0, 1. simpl.
      unfold voted. rewrite Hhist. unfold HISTORY_SIZE.
      repeat split; solve [ reflexivity | lia ].
  - rewrite processar_frame_absent by exact Hyes.
    eexists _, _. split; [ reflexivity | ]. left.
    split; [ reflexivity | ].
    destruct ((RESET_THRESHOLD <? frames_sem_maos r + 1) && (0 <? length (buffer r)));
      repeat split; simpl; assumption.
Qed.

(** From a fresh recogniser any frames give no recognition until the
    window fills, and exactly one, of [g], from then on. *)
Lemma fresh_run (o : string) (fs : list results) (r : recognizer) :
  o <> g -> fresh r -> well_formed r ->
  exists outs r',
    run fs r = (Val outs, r') /\
    well_formed r' /\
    ((fresh r' /\ eventos outs = []) \/
     (settled o g 0 r' /\ predict_calls r' <> [] /\
      exists c, eventos outs = [(Some g, c)])).
Proof.
  intros Hog. revert r. induction fs as [ | rs fs IH ]; intros r Hfresh Hwf.
  - exists [], r. simpl. tauto.
  - destruct (fresh_step o rs Hfresh Hwf)
      as (out & r1 & Hstep & [ [Hev Hfresh1] | (c & Hev & Hset1 & Hcalls1) ]);
      assert (Hwf1 : well_formed r1)
        by (pose proof (processar_frame_well_formed model classes min_confidence rs Hwf)
              as H; rewrite Hstep in H; exact H).
    + destruct (IH r1 Hfresh1 Hwf1) as (outs & r' & Hrun & Hwf' & Hcases).
      exists (out :: outs), r'. rewrite run_cons, Hstep, Hrun.
      split; [ reflexivity | ]. split; [ exact Hwf' | ].
      rewrite eventos_cons_none by exact Hev. exact Hcases.
    + destruct (settled_run fs Hog Hset1 Hwf1)
        as (outs & r' & Hrun & Hevs & Hset' & Hwf' & Hcalls').
      exists (out :: outs), r'. rewrite run_cons, Hstep, Hrun.
      split; [ reflexivity | ]. split; [ exact Hwf' | ]. right.
      split; [ exact Hset' | ]. split; [ apply Hcalls', Hcalls1 | ].
      exists c. rewrite (eventos_cons_some out outs Hev), Hevs. reflexivity.
Qed.

(** While another label [A] holds the majority, frames with hands keep
    appending [g]; the eighth vote at the latest goes to [g], which is
    then reported, once. *)
Lemma contested_run (A : string) (fs : list results) :
  A <> g ->
  forall (r : recognizer) (b : nat),
    contested A g b r -> well_formed r ->
    Forall (fun rs => has_hands rs = true) fs ->
    (SEQUENCE_LENGTH - 1 - length (buffer r)) + (8 - b) <= length fs ->
    exists outs r' c,
      run fs r = (Val outs, r') /\
      eventos outs = [(Some g, c)] /\
      settled A g HISTORY_SIZE r' /\
      well_formed r'.
Proof.
  intros HAg. induction fs as [ | rs fs IH ];
    intros r b (a & Hhist & Hba & Hsize & Hnot & Hlast) Hwf Hall Hlen.
  - exfalso. cbn [length] in Hlen. unfold HISTORY_SIZE in *. lia.
  - inversion Hall as [ | ? ? Hyes Hall' ]; subst.
    pose proof (processar_frame_well_formed model classes min_confidence rs Hwf) as Hwf1.
    cbn [length] in Hlen.
    destruct (Nat.lt_ge_cases (length (buffer r) + 1) SEQUENCE_LENGTH) as [Hlt | Hge].
    + destruct (step_filling rs Hyes Hwf Hlt) as [Hstep Hplen].
      rewrite Hstep in Hwf1. cbn [snd] in Hwf1.
      match type of Hwf1 with well_formed ?x => set (r1 := x) in * end.
      assert (Hc1 : contested A g b r1) by (exists a; simpl; tauto).
      assert (Hl1 : SEQUENCE_LENGTH - 1 - length (buffer r1) + (8 - b) <= length fs).
      { subst r1. cbn [buffer set_buffer]. rewrite Hplen.
        unfold SEQUENCE_LENGTH in *. lia. }
      destruct (IH r1 b Hc1 Hwf1 Hall' Hl1) as (outs & r' & c & Hrun & Hevs & Hset & Hwf').
      eexists (_ :: outs), r', c. rewrite run_cons, Hstep, Hrun.
      split; [ reflexivity | ].
      rewrite eventos_cons_none by reflexivity. tauto.
    + assert (Hvoted : voted g r =
                repeat A (fst (next_counts a b)) ++ repeat g (snd (next_counts a b))).
      { unfold voted. rewrite Hhist. apply append_two. exact Hsize. }
      destruct (next_counts_bound a b Hsize) as (Hsum & Hfst & Hsnd & _).
      assert (Hb' : snd (next_counts a b) = S b).
      { apply Hsnd. unfold HISTORY_SIZE in *. lia. }
      rewrite Hb' in *.
      assert (Hwins :
        (fst (next_counts a b) = 0 \/ fst (next_counts a b) < S b) ->
        exists outs r' c,
          run (rs :: fs) r = (Val outs, r') /\
          eventos outs = [(Some g, c)] /\
          settled A g HISTORY_SIZE r' /\ well_formed r').
      { intros Hmaj.
        assert (Hvote : votacao (voted g r) = Val g).
        { rewrite Hvoted. destruct (fst (next_counts a b)) as [ | a' ].
          - apply votacao_repeat.
          - rewrite votacao_two by exact HAg.
            destruct Hmaj as [ Hmaj | Hmaj ]; [ discriminate Hmaj | ].
            apply Nat.ltb_lt in Hmaj. rewrite Hmaj. reflexivity. }
        destruct (step_inference rs Hyes Hwf Hge Hvote) as (c & Hstep).
        apply truthy_Some in Hg. rewrite Hg in Hstep.
        assert (Hneq : gesto_eqb (Some g) (ultimo_gesto r) = false)
          by (apply gesto_eqb_neq; congruence).
        rewrite Hneq in Hstep. cbn [andb negb] in Hstep.
        rewrite Hstep in Hwf1. cbn [snd] in Hwf1.
        match type of Hwf1 with well_formed ?x => set (r1 := x) in * end.
        assert (Hs1 : settled A g HISTORY_SIZE r1).
        { split; [ reflexivity | ].
          exists (fst (next_counts a b)), (S b). subst r1. cbn [prediction_history].
          split; [ exact Hvoted | ]. lia. }
        destruct (settled_run fs HAg Hs1 Hwf1)
          as (outs & r' & Hrun & Hevs & Hset & Hwf' & _).
        eexists (_ :: outs), r', c. rewrite run_cons, Hstep, Hrun.
        split; [ reflexivity | ].
        rewrite (@eventos_cons_some _ outs (Some g, c)) by reflexivity.
        rewrite Hevs. tauto. }
      destruct (fst (next_counts a b)) as [ | a' ] eqn:Ha';
        [ apply Hwins; left; reflexivity | ].
      destruct (Nat.lt_ge_cases (S a') (S b)) as [Hwin | Hlose];
        [ apply Hwins; right; exact Hwin | ].
      clear Hwins.
      (* [A] still wins: nothing is reported *)
      assert (Hvote : votacao (voted g r) = Val A).
      { rewrite Hvoted, votacao_two by exact HAg.
        apply Nat.ltb_ge in Hlose. rewrite Hlose. reflexivity. }
      destruct (step_inference rs Hyes Hwf Hge Hvote) as (c & Hstep).
      assert (HlastA : ultimo_gesto r = Some A) by (apply Hlast; lia).
      rewrite HlastA, gesto_eqb_refl, andb_false_r in Hstep.
      rewrite Hstep in Hwf1. cbn [snd] in Hwf1.
      match type of Hwf1 with well_formed ?x => set (r1 := x) in * end.
      assert (Hc1 : contested A g (S b) r1).
      { exists (S a'). subst r1. cbn [prediction_history ultimo_gesto].
        split; [ exact Hvoted | ].
        repeat split; solve [ lia | congruence ]. }
      assert (Hl1 : SEQUENCE_LENGTH - 1 - length (buffer r1) + (8 - S b) <= length fs).
      { subst r1. cbn [buffer]. rewrite (pushed_length rs Hwf).
        unfold SEQUENCE_LENGTH in *. lia. }
      destruct (IH r1 (S b) Hc1 Hwf1 Hall' Hl1)
        as (outs & r' & c' & Hrun & Hevs & Hset & Hwf').
      eexists (_ :: outs), r', c'. rewrite run_cons, Hstep, Hrun.
      split; [ reflexivity | ].
      rewrite eventos_cons_none by reflexivity. tauto.
Qed.

End SteadyClassifier.

(** ** Debounce *)

Lemma init_fresh : fresh init.
Proof. repeat split. Qed.

Lemma init_well_formed : well_formed init.
Proof. repeat split; simpl; solve [ apply Nat.le_0_l | constructor ]. Qed.

(** C2, as the code has it.  Under a classifier that keeps answering
    [A] above the gate, a run of any frames from a fresh recogniser never
    raises and reports nothing until the classifier is first called (the
    window first fills), and exactly one recognition, of [A], from then
    on.  While the vote equals the last gesture a frame on a full window
    reports nothing and slides the window: the oldest sample leaves, the
    new one is appended.  When the classifier then keeps answering
    another label [B] on frames with hands, a second recognition, of [B],
    is reported, once, within [SEQUENCE_LENGTH + 7] frames: [B] has to
    outvote the labels [A] that the history still holds. *)
Theorem debounce_until_outvoted
        (mA mB : classifier) (classes : list string) (min_confidence : Q)
        (A B : string) :
  always_answers mA classes min_confidence A ->
  always_answers mB classes min_confidence B ->
  A <> EmptyString -> B <> EmptyString -> A <> B ->
  (forall fs,
     exists outs r,
       run mA classes min_confidence fs init = (Val outs, r) /\
       ((predict_calls r = [] /\ eventos outs = []) \/
        (predict_calls r <> [] /\ exists c, eventos outs = [(Some A, c)]))) /\
  (forall rs r oldest kept,
     has_hands rs = true -> well_formed r ->
     buffer r = oldest :: kept -> length (buffer r) = SEQUENCE_LENGTH ->
     votacao (voted A r) = Val A -> ultimo_gesto r = Some A ->
     exists out r',
       processar_frame mA classes min_confidence rs r = (Val out, r') /\
       evento out = None /\
       ultimo_gesto r' = Some A /\
       buffer r' = kept ++ [processar_landmarks rs]) /\
  (forall fsA fsB,
     Forall (fun rs => has_hands rs = true) fsB ->
     SEQUENCE_LENGTH + 7 <= length fsB ->
     exists outsA rA outsB rB cB,
       run mA classes min_confidence fsA init = (Val outsA, rA) /\
       run mB classes min_confidence fsB rA = (Val outsB, rB) /\
       (eventos outsA = [] \/ exists cA, eventos outsA = [(Some A, cA)]) /\
       eventos outsB = [(Some B, cB)] /\
       ultimo_gesto rB = Some B).
Proof.
  intros HmA HmB HA HB HAB.
  assert (HBA : B <> A) by congruence.
  split; [ | split ].
  - intros fs.
    destruct (fresh_run HmA HA fs HBA init_fresh init_well_formed)
      as (outs & r & Hrun & _ & [ [Hfresh Hevs] | (_ & Hcalls & Hevs) ]).
    + exists outs, r. split; [ exact Hrun | ]. left.
      split; [ apply Hfresh | exact Hevs ].
    + exists outs, r. split; [ exact Hrun | ]. right. tauto.
  - intros rs r oldest kept Hyes Hwf Hbuf Hlen Hvote Hlast.
    assert (Hge : SEQUENCE_LENGTH <= length (buffer r) + 1) by lia.
    destruct (step_inference HmA rs Hyes Hwf Hge Hvote) as (c & Hstep).
    rewrite Hlast, gesto_eqb_refl, andb_false_r in Hstep.
    eexists _, _. split; [ exact Hstep | ]. split; [ reflexivity | ].
    split; [ reflexivity | ]. cbn [buffer]. unfold pushed.
    rewrite DequeFacts.append_full by exact Hlen. rewrite Hbuf. reflexivity.
  - intros fsA fsB Hall Hlen.
    destruct (fresh_run HmA HA fsA HBA init_fresh init_well_formed)
      as (outsA & rA & HrunA & HwfA & Hcases).
    assert (Hcont : contested A B 0 rA).
    { destruct Hcases as [ [(Hlast & Hhist & _) _] | ((Hlast & a & b & Hhist & Ha & _ & Hsize) & _) ].
      - exists 0. rewrite Hhist, Hlast. simpl.
        repeat split; solve [ apply Nat.le_0_l | discriminate | lia ].
      - exists b. assert (a = 0) by lia. subst a. simpl in Hhist, Hsize.
        rewrite Hhist, Hlast, app_nil_r.
        repeat split; solve [ apply Nat.le_0_l | congruence | lia ]. }
    assert (Hbound : SEQUENCE_LENGTH - 1 - length (buffer rA) + (8 - 0) <= length fsB).
    { unfold SEQUENCE_LENGTH in *. lia. }
    destruct (@contested_run mB classes min_confidence B HmB HB A fsB HAB
                rA 0 Hcont HwfA Hall Hbound)
      as (outsB & rB & cB & HrunB & HevsB & (HlastB & _) & _).
    exists outsA, rA, outsB, rB, cB.
    split; [ exact HrunA | ]. split; [ exact HrunB | ].
    split; [ | split; [ exact HevsB | exact HlastB ] ].
    destruct Hcases as [ [_ Hevs] | (_ & _ & Hevs) ]; [ left | right ]; exact Hevs.
Qed.

Lemma debounce_until_outvoted_witness :
  let mA := const_model (9 # 10) (1 # 10) in
  let mB := const_model (2 # 10) (8 # 10) in
  let classes := ["A"; "B"]%string in
  let A := "A"%string in
  let B := "B"%string in
  (forall fs,
     exists outs r,
       run mA classes MIN_CONFIDENCE fs init = (Val outs, r) /\
       ((predict_calls r = [] /\ eventos outs = []) \/
        (predict_calls r <> [] /\ exists c, eventos outs = [(Some A, c)]))) /\
  (forall rs r oldest kept,
     has_hands rs = true -> well_formed r ->
     buffer r = oldest :: kept -> length (buffer r) = SEQUENCE_LENGTH ->
     votacao (voted A r) = Val A -> ultimo_gesto r = Some A ->
     exists out r',
       processar_frame mA classes MIN_CONFIDENCE rs r = (Val out, r') /\
       evento out = None /\
       ultimo_gesto r' = Some A /\
       buffer r' = kept ++ [processar_landmarks rs]) /\
  (forall fsA fsB,
     Forall (fun rs => has_hands rs = true) fsB ->
     SEQUENCE_LENGTH + 7 <= length fsB ->
     exists outsA rA outsB rB cB,
       run mA classes MIN_CONFIDENCE fsA init = (Val outsA, rA) /\
       run mB classes MIN_CONFIDENCE fsB rA = (Val outsB, rB) /\
       (eventos outsA = [] \/ exists cA, eventos outsA = [(Some A, cA)]) /\
       eventos outsB = [(Some B, cB)] /\
       ultimo_gesto rB = Some B).
Proof.
  intros mA mB classes A B.
  apply (@debounce_until_outvoted mA mB classes MIN_CONFIDENCE A B).
  - intros w _. exists 0, (9 # 10)%Q. repeat split.
  - intros w _. exists 1, (8 # 10)%Q. repeat split.
  - discriminate.
  - discriminate.
  - discriminate.
Defined.

(** C2 as stated fails at its last part.  Thirty frames read as A and
    then thirty frames read as B: when the window is full again the
    classifier answers B with confidence 0.8, above the gate and
    different from the last gesture A, and B enters the vote history;
    yet the run has reported A only, because A and B are tied in the
    history and A was seen first. *)
Lemma differing_label_counterexample :
  demo_eventos (repeat (mao 1) 30 ++ repeat (mao 2) 30) init =
    Val [(Some "A"%string, (9 # 10)%Q)] /\
  top_class demo_model
    (buffer (snd (demo_run (repeat (mao 1) 30 ++ repeat (mao 2) 30) init))) =
    Val (1, (8 # 10)%Q) /\
  index demo_classes 1 = Val "B"%string /\
  Qlt_bool (8 # 10) MIN_CONFIDENCE = false /\
  prediction_history
    (snd (demo_run (repeat (mao 1) 30 ++ repeat (mao 2) 30) init)) =
    ["A"; "B"]%string /\
  ultimo_gesto (snd (demo_run (repeat (mao 1) 30 ++ repeat (mao 2) 30) init)) =
    Some "A"%string /\
  ~ (exists c,
       demo_eventos (repeat (mao 1) 30 ++ repeat (mao 2) 30) init =
         Val [(Some "A"%string, (9 # 10)%Q); (Some "B"%string, c)]).
Proof.
  repeat split; try (vm_compute; reflexivity).
  intros [c H]. vm_compute in H. discriminate H.
Qed.

(** After the absence reset the history is empty, and the first window
    read as another label is reported at once. *)
Example absence_then_new_label :
  demo_eventos
    (repeat (mao 1) 35 ++ repeat sem_maos 11 ++ repeat (mao 2) 30) init =
    Val [(Some "A"%string, (9 # 10)%Q); (Some "B"%string, (8 # 10)%Q)].
Proof. vm_compute. reflexivity. Qed.

(** ** Where the reported label and confidence come from *)

(** A frame reports a recognition only when it had hands, filled the
    window, and [reconhecer] returned a label. *)
Lemma processar_frame_novo
      (model : classifier) (classes : list string) (min_confidence : Q)
      (rs : results) (r r' : recognizer) (label : option string) (conf : Q) :
  processar_frame model classes min_confidence rs r = (Val (label, conf, true), r') ->
  has_hands rs = true /\
  length (pushed rs r) = SEQUENCE_LENGTH /\
  exists g r1,
    label = Some g /\
    reconhecer model classes min_confidence
      (set_buffer (pushed rs r) (set_frames_sem_maos 0 r)) = (Val (Some g, conf), r1) /\
    r' = set_buffer [] (set_ultimo (Some g) conf r1).
Proof.
  intros Hstep.
  destruct (has_hands rs) eqn:Hyes;
    [ | rewrite processar_frame_absent in Hstep by exact Hyes; discriminate Hstep ].
  split; [ reflexivity | ].
  destruct (Nat.eq_dec (length (pushed rs r)) SEQUENCE_LENGTH) as [Hfull | Hnot];
    [ | rewrite processar_frame_filling in Hstep by assumption; discriminate Hstep ].
  split; [ exact Hfull | ].
  rewrite processar_frame_full in Hstep by assumption.
  destruct (reconhecer model classes min_confidence _) as [[[gesto c] | e] r1];
    [ | discriminate Hstep ].
  destruct (truthy gesto && negb (gesto_eqb gesto (ultimo_gesto r1))) eqn:Hcond;
    [ | discriminate Hstep ].
  injection Hstep as <- <- <-.
  destruct gesto as [g | ]; [ | discriminate Hcond ].
  exists g, r1. repeat split.
Qed.

(** C10.  The confidence of a reported recognition is the top class
    probability that the classifier gave for this frame's window, and the
    label is the vote over the history, to which the label of that top
    class has just been appended.  The two labels can differ: after the
    frames [mismatch_prefix] the demo recogniser holds a history of one
    A, seven B and seven A with A as the last gesture; a frame that the
    classifier reads as C with probability 3/4 (and B with 1/4) pushes
    the oldest A out, the vote goes to B, and the frame reports B with
    confidence 3/4. *)
Theorem label_confidence_mismatch
        (model : classifier) (classes : list string) (min_confidence : Q)
        (rs : results) (r r' : recognizer) (label : option string) (conf : Q) :
  (processar_frame model classes min_confidence rs r = (Val (label, conf, true), r') ->
   exists classe_idx gesto final,
     top_class model (pushed rs r) = Val (classe_idx, conf) /\
     index classes classe_idx = Val gesto /\
     prediction_history r' = voted gesto r /\
     votacao (voted gesto r) = Val final /\
     label = Some final) /\
  (demo_eventos mismatch_prefix init =
       Val [(Some "A"%string, (9 # 10)%Q); (Some "B"%string, (8 # 10)%Q);
            (Some "A"%string, (9 # 10)%Q)] /\
     fst (demo_frame (mao 3) (snd (demo_run mismatch_prefix init))) =
       Val (Some "B"%string, (3 # 4)%Q, true) /\
     demo_model (pushed (mao 3) (snd (demo_run mismatch_prefix init))) =
       Val [[0 # 1; 1 # 4; 3 # 4]%Q] /\
     top_class demo_model (pushed (mao 3) (snd (demo_run mismatch_prefix init))) =
       Val (2, (3 # 4)%Q) /\
     index demo_classes 2 = Val "C"%string /\
     index demo_classes 1 = Val "B"%string).
Proof.
  split.
  - intros Hstep. apply processar_frame_novo in Hstep.
    destruct Hstep as (_ & _ & g & r1 & -> & Hrec & ->).
    apply reconhecer_Some in Hrec.
    destruct Hrec as (classe_idx & gesto & Htop & _ & Hlabel & -> & Hvote).
    exists classe_idx, gesto, g. simpl in *. repeat split; assumption.
  - repeat split; vm_compute; reflexivity.
Qed.

Lemma label_confidence_mismatch_witness :
  let r := snd (demo_run mismatch_prefix init) in
  let r' := snd (demo_frame (mao 3) r) in
  exists classe_idx gesto final,
    top_class demo_model (pushed (mao 3) r) = Val (classe_idx, (3 # 4)%Q) /\
    index demo_classes classe_idx = Val gesto /\
    prediction_history r' = voted gesto r /\
    votacao (voted gesto r) = Val final /\
    Some "B"%string = Some final.
Proof.
  intros r r'.
  apply (@label_confidence_mismatch demo_model demo_classes MIN_CONFIDENCE
           (mao 3) r r' (Some "B"%string) (3 # 4)).
  vm_compute. reflexivity.
Defined.

(** ** A failing classifier *)

(** An exception raised while a frame is processed leaves the loop. *)
Lemma main_loop_raises
      (model : classifier) (classes : list string) (min_confidence : Q)
      (rs : results) (k : key) (rest : list tick) (r r' : recognizer) (e : py_exc) :
  processar_frame model classes min_confidence rs r = (Exc e, r') ->
  main_loop model classes min_confidence ((Some rs, k) :: rest) r = (Crashed e, r', []).
Proof. intros H. simpl. rewrite H. reflexivity. Qed.

(** [processar_frame] lets through whatever the classifier raises on a
    full window. *)
Lemma processar_frame_raises
      (model : classifier) (classes : list string) (min_confidence : Q)
      (rs : results) (r : recognizer) (e : py_exc) :
  has_hands rs = true ->
  reshape SEQUENCE_LENGTH (pushed rs r) = Val (pushed rs r) ->
  top_class model (pushed rs r) = Exc e ->
  processar_frame model classes min_confidence rs r =
    (Exc e, log_call (pushed rs r)
              (set_buffer (pushed rs r) (set_frames_sem_maos 0 r))).
Proof.
  intros Hyes Hshape Htop.
  destruct (reshape_Val _ _ Hshape) as (_ & Hlen & _).
  rewrite processar_frame_full by assumption.
  rewrite reconhecer_full by exact Hshape.
  simpl. rewrite Htop. reflexivity.
Qed.

(** C5 on [GestureRecognizer]: the code at a failing input.  After 29
    frames with hands, a frame on which the classifier raises makes
    [processar_frame] raise, and the main loop ends there: the frames
    that follow are not processed and nothing is reported.  The same
    happens when the classifier returns an empty batch. *)
Theorem classifier_failure_ends_loop :
  let ticks good bad :=
    map (fun rs => (Some rs, KeyOther)) (repeat (mao 1) 29 ++ [bad] ++ repeat good 40) in
  fst (demo_frame (mao 5) (snd (demo_run (repeat (mao 1) 29) init))) = Exc ModelError /\
  fst (fst (main_loop demo_model demo_classes MIN_CONFIDENCE
              (ticks (mao 1) (mao 5)) init)) = Crashed ModelError /\
  snd (main_loop demo_model demo_classes MIN_CONFIDENCE
         (ticks (mao 1) (mao 5)) init) = [] /\
  fst (fst (main_loop demo_model demo_classes MIN_CONFIDENCE
              (ticks (mao 1) (mao 6)) init)) = Crashed IndexError /\
  fst (fst (main_loop demo_model demo_classes MIN_CONFIDENCE
              (ticks (mao 1) (mao 1)) init)) = Looping /\
  snd (main_loop demo_model demo_classes MIN_CONFIDENCE
         (ticks (mao 1) (mao 1)) init) = [(Some "A"%string, (9 # 10)%Q)].
Proof. repeat split; vm_compute; reflexivity. Qed.

(** ** The desktop application: the inference step has a handler *)

Module GuiFacts.

Import Gui.

(** With a model, a label set and a target, [reconhecer_gesto] never
    raises: whatever goes wrong inside [try] is caught. *)
Lemma reconhecer_gesto_returns
      (modelo : classifier) (classes_ : list string) (a : app) (alvo : string) :
  gesto_alvo a = Some alvo -> alvo <> EmptyString ->
  exists a', reconhecer_gesto (Some modelo) (Some classes_) a = (Val tt, a').
Proof.
  intros Halvo Hne. unfold reconhecer_gesto. run_py.
  rewrite Halvo. apply truthy_Some in Hne. rewrite Hne.
  destruct (reshape 30 (buffer_gestos a)) as [entrada | e]; [ | eexists; reflexivity ].
  destruct (modelo entrada) as [batch | e]; [ | eexists; reflexivity ].
  destruct (index batch 0) as [preds | e]; [ | eexists; reflexivity ].
  destruct (argmax preds) as [classe_idx | e]; [ | eexists; reflexivity ].
  destruct (index preds classe_idx) as [confianca | e]; [ | eexists; reflexivity ].
  destruct (index classes_ classe_idx) as [gesto | e]; [ | eexists; reflexivity ].
  cbn beta iota.
  destruct (votacao _) as [gesto_final | e]; [ | eexists; reflexivity ].
  destruct (Qgt_bool confianca (7 # 10) && String.eqb gesto_final (normalizar alvo));
    [ eexists; reflexivity | ].
  destruct (negb (gesto_eqb (Some gesto) _)); eexists; reflexivity.
Qed.

(** When the classifier fails on the window (it raises, or what it
    returns has no first row or no entries), the failure is shown and
    nothing else changes: the window and the vote history are as they
    were. *)
Lemma reconhecer_gesto_failure
      (modelo : classifier) (classes_ : list string) (a : app) (alvo : string)
      (e : py_exc) :
  gesto_alvo a = Some alvo -> alvo <> EmptyString ->
  reshape 30 (buffer_gestos a) = Val (buffer_gestos a) ->
  top_class modelo (buffer_gestos a) = Exc e ->
  reconhecer_gesto (Some modelo) (Some classes_) a =
    (Val tt, mostrar (ErroNoReconhecimento e) a).
Proof.
  intros Halvo Hne Hshape Htop. unfold reconhecer_gesto. run_py.
  rewrite Halvo. apply truthy_Some in Hne. rewrite Hne, Hshape.
  unfold top_class in Htop.
  destruct (modelo (buffer_gestos a)) as [batch | e0];
    [ | injection Htop as ->; reflexivity ].
  destruct (index batch 0) as [preds | e0];
    [ | injection Htop as ->; reflexivity ].
  destruct (argmax preds) as [classe_idx | e0];
    [ | injection Htop as ->; reflexivity ].
  destruct (index preds classe_idx) as [confianca | e0];
    [ discriminate Htop | injection Htop as ->; reflexivity ].
Qed.

(** The same when the top class has no label in [le.classes_]. *)
Lemma reconhecer_gesto_unknown_class
      (modelo : classifier) (classes_ : list string) (a : app) (alvo : string)
      (classe_idx : nat) (confianca : Q) (e : py_exc) :
  gesto_alvo a = Some alvo -> alvo <> EmptyString ->
  reshape 30 (buffer_gestos a) = Val (buffer_gestos a) ->
  top_class modelo (buffer_gestos a) = Val (classe_idx, confianca) ->
  index classes_ classe_idx = Exc e ->
  reconhecer_gesto (Some modelo) (Some classes_) a =
    (Val tt, mostrar (ErroNoReconhecimento e) a).
Proof.
  intros Halvo Hne Hshape Htop Hlabel. unfold reconhecer_gesto. run_py.
  rewrite Halvo. apply truthy_Some in Hne. rewrite Hne, Hshape.
  unfold top_class in Htop.
  destruct (modelo (buffer_gestos a)) as [batch | e0]; [ | discriminate Htop ].
  destruct (index batch 0) as [preds | e0]; [ | discriminate Htop ].
  destruct (argmax preds) as [i | e0]; [ | discriminate Htop ].
  destruct (index preds i) as [c | e0]; [ | discriminate Htop ].
  injection Htop as -> ->. rewrite Hlabel. reflexivity.
Qed.

(** A target and a full window on which [demo_model] raises. *)
Example failure_is_shown :
  let a := mkApp (repeat (processar_landmarks (mao 5)) 30) ["A"%string] 0
                 None (Some "A"%string) 0 1 0 [] in
  processar_frame (Some demo_model) (Some demo_classes) (mao 5) a =
    (Val tt, mostrar (ErroNoReconhecimento ModelError) a).
Proof. vm_compute. reflexivity. Qed.

(** In the application every prediction enters the vote history, also
    one below the 0.7 that a success needs. *)
Example low_confidence_enters_history :
  let a := mkApp (repeat (processar_landmarks (mao 4)) 30) [] 0
                 None (Some "B"%string) 0 1 0 [] in
  historico_predicoes
    (snd (processar_frame (Some demo_model) (Some demo_classes) (mao 4) a)) =
    ["A"%string].
Proof. vm_compute. reflexivity. Qed.

(** A success empties both the window and the vote history. *)
Example success_clears_both :
  let a := mkApp (repeat (processar_landmarks (mao 1)) 30) [] 0
                 None (Some "A_DIR"%string) 0 2 0 [] in
  processar_frame (Some demo_model) (Some demo_classes) (mao 1) a =
    (Val tt, mkApp [] [] 0 (Some "A"%string) (Some "A_DIR"%string) 20 2 1
                   [Correto "A"%string]).
Proof. vm_compute. reflexivity. Qed.

End GuiFacts.

(** ** The stand-alone script *)

Module LegacyScriptFacts.

Import LegacyScript.

(** The script empties only the window when the hands have been away:
    the vote history stays. *)
Lemma absence_keeps_history
      (model : classifier) (classes_ : list string) (rs : results) (g : globals) :
  has_hands rs = false ->
  length (buffer g) <> SEQUENCE_LENGTH ->
  iteracao model classes_ rs g =
    (Val None,
     if (RESET_THRESHOLD <? frames_sem_maos g + 1) && (0 <? length (buffer g))
     then mkGlobals [] (frames_sem_maos g + 1) (historico_predicoes g) (ultimo_gesto g)
     else mkGlobals (buffer g) (frames_sem_maos g + 1)
                    (historico_predicoes g) (ultimo_gesto g)).
Proof.
  intros Hno Hlen. unfold iteracao. rewrite Hno. run_py. simpl.
  apply Nat.eqb_neq in Hlen.
  destruct ((RESET_THRESHOLD <? frames_sem_maos g + 1) && (0 <? length (buffer g)));
    simpl; [ reflexivity | rewrite Hlen; reflexivity ].
Qed.

(** On a recognition the script, too, empties the window and keeps the
    vote history. *)
Example recognition_keeps_history :
  let g := mkGlobals (repeat (processar_landmarks (mao 1)) 29) 0 [] None in
  iteracao demo_model demo_classes (mao 1) g =
    (Val (Some ("A"%string, (9 # 10)%Q)),
     mkGlobals [] 0 ["A"%string] (Some "A"%string)).
Proof. vm_compute. reflexivity. Qed.

(** The script has no handler either. *)
Example classifier_exception_propagates :
  let g := mkGlobals (repeat (processar_landmarks (mao 1)) 29) 0 [] None in
  fst (iteracao demo_model demo_classes (mao 5) g) = Exc ModelError.
Proof. vm_compute. reflexivity. Qed.

End LegacyScriptFacts.

(** * More of the code *)

(** ** The pose encoder in full *)

Lemma flatten_app (l1 l2 : list landmark) :
  flatten (l1 ++ l2) = flatten l1 ++ flatten l2.
Proof. unfold flatten. apply flat_map_app. Qed.

Lemma flatten_zeros (n : nat) :
  flatten (repeat zero_landmark n) = repeat 0%Q (3 * n).
Proof.
  induction n as [ | n IH ]; [ reflexivity | ].
  replace (3 * S n) with (S (S (S (3 * n)))) by lia.
  unfold flatten in *. simpl. rewrite IH. reflexivity.
Qed.

Lemma processar_landmarks_shape (rs : results) :
  processar_landmarks rs =
    flatten (firstn 42 (all_landmarks rs)) ++
    repeat 0%Q (126 - 3 * Nat.min 42 (length (all_landmarks rs))).
Proof.
  unfold processar_landmarks.
  assert (Hlms : (if has_hands rs
                  then concat (match rs with Some hs => hs | None => [] end)
                  else []) = all_landmarks rs).
  { destruct rs as [ [ | h hs ] | ]; reflexivity. }
  rewrite Hlms, flatten_app, flatten_zeros, length_firstn.
  f_equal. f_equal. lia.
Qed.

(** X1.  The sample always has 126 numbers.  It starts with the coordinates
    of the first 42 landmarks detected, hand after hand in detection
    order, and is filled up with zeros; landmarks beyond the 42nd are
    dropped.  So: without hands the sample is all zeros; one hand of 21
    landmarks fills the first 63 numbers, whichever hand it is; two hands
    of 21 landmarks fill the sample, and further hands change nothing. *)
Theorem pose_encoding (rs : results) (h1 h2 : hand) (more : list hand) :
  length (processar_landmarks rs) = 126 /\
  processar_landmarks rs =
    flatten (firstn 42 (all_landmarks rs)) ++
    repeat 0%Q (126 - 3 * Nat.min 42 (length (all_landmarks rs))) /\
  (has_hands rs = false -> processar_landmarks rs = repeat 0%Q 126) /\
  (length h1 = 21 ->
   processar_landmarks (Some [h1]) = flatten h1 ++ repeat 0%Q 63) /\
  (length h1 = 21 -> length h2 = 21 ->
   processar_landmarks (Some (h1 :: h2 :: more)) = flatten h1 ++ flatten h2).
Proof.
  split; [ apply processar_landmarks_ok | ].
  split; [ apply processar_landmarks_shape | ].
  split; [ | split ].
  - intros Hno. rewrite processar_landmarks_shape.
    destruct rs as [ [ | h hs ] | ]; try discriminate Hno; reflexivity.
  - intros H1. rewrite processar_landmarks_shape. cbn [all_landmarks concat].
    rewrite app_nil_r, firstn_all2 by lia. rewrite H1. reflexivity.
  - intros H1 H2. rewrite processar_landmarks_shape. cbn [all_landmarks concat].
    rewrite app_assoc, firstn_app.
    rewrite firstn_all2 by (rewrite length_app; lia).
    replace (42 - length (h1 ++ h2)) with 0 by (rewrite length_app; lia).
    rewrite firstn_0, app_nil_r, flatten_app.
    rewrite !length_app, H1, H2.
    replace (126 - 3 * Nat.min 42 (21 + 21 + length (concat more))) with 0 by lia.
    simpl. rewrite app_nil_r. reflexivity.
Qed.

Lemma pose_encoding_witness :
  let h1 := repeat (1 # 2, 1 # 3, 0 # 1)%Q 21 in
  let h2 := repeat (1 # 4, 1 # 5, 1 # 6)%Q 21 in
  let h3 := repeat (1 # 7, 1 # 8, 1 # 9)%Q 21 in
  processar_landmarks None = repeat 0%Q 126 /\
  processar_landmarks (Some [h1]) = flatten h1 ++ repeat 0%Q 63 /\
  processar_landmarks (Some [h1; h2; h3]) = flatten h1 ++ flatten h2.
Proof.
  intros h1 h2 h3.
  destruct (pose_encoding None h1 h2 [h3]) as (_ & _ & Hnone & _).
  destruct (pose_encoding (Some [h1]) h1 h2 [h3]) as (_ & _ & _ & Hone & Htwo).
  split; [ apply Hnone; reflexivity | ].
  split; [ apply Hone; reflexivity | apply Htwo; reflexivity ].
Defined.

(** ** [reset] gives a new recogniser *)

Lemma same_attrs_refl (r : recognizer) : same_attrs r r.
Proof. repeat split. Qed.

(** What [reconhecer] does and returns depends on the attributes only. *)
Lemma reconhecer_same_attrs
      (model : classifier) (classes : list string) (min_confidence : Q)
      (r1 r2 : recognizer) :
  same_attrs r1 r2 ->
  fst (reconhecer model classes min_confidence r1) =
    fst (reconhecer model classes min_confidence r2) /\
  same_attrs (snd (reconhecer model classes min_confidence r1))
             (snd (reconhecer model classes min_confidence r2)).
Proof.
  destruct r1 as [b1 h1 f1 u1 c1 k1], r2 as [b2 h2 f2 u2 c2 k2].
  unfold same_attrs. cbn [buffer prediction_history frames_sem_maos
                          ultimo_gesto ultima_confianca].
  intros (-> & -> & -> & -> & ->).
  unfold reconhecer. run_py.
  cbn [buffer prediction_history frames_sem_maos ultimo_gesto ultima_confianca
       log_call set_prediction_history fst snd].
  destruct (length b2 <? SEQUENCE_LENGTH); [ repeat split | ].
  destruct (reshape SEQUENCE_LENGTH b2) as [entrada | e]; [ | repeat split ].
  destruct (model entrada) as [batch | e]; [ | repeat split ].
  destruct (index batch 0) as [predicoes | e]; [ | repeat split ].
  destruct (argmax predicoes) as [classe_idx | e]; [ | repeat split ].
  destruct (index predicoes classe_idx) as [confianca | e]; [ | repeat split ].
  destruct (Qlt_bool confianca min_confidence); [ repeat split | ].
  destruct (index classes classe_idx) as [gesto | e]; [ | repeat split ].
  cbn [buffer prediction_history frames_sem_maos ultimo_gesto ultima_confianca
       log_call set_prediction_history fst snd].
  destruct (votacao (Deque.append HISTORY_SIZE h2 gesto)) as [gesto_final | e];
    repeat split.
Qed.

(** What a frame does and returns depends on the attributes only. *)
Lemma processar_frame_same_attrs
      (model : classifier) (classes : list string) (min_confidence : Q)
      (rs : results) (r1 r2 : recognizer) :
  same_attrs r1 r2 ->
  fst (processar_frame model classes min_confidence rs r1) =
    fst (processar_frame model classes min_confidence rs r2) /\
  same_attrs (snd (processar_frame model classes min_confidence rs r1))
             (snd (processar_frame model classes min_confidence rs r2)).
Proof.
  intros Hsame.
  pose proof Hsame as (Hb & Hh & Hf & Hu & Hc).
  assert (Hp : pushed rs r1 = pushed rs r2) by (unfold pushed; rewrite Hb; reflexivity).
  destruct (has_hands rs) eqn:Hyes.
  - destruct (Nat.eq_dec (length (pushed rs r1)) SEQUENCE_LENGTH) as [Hfull | Hnot].
    + rewrite (processar_frame_full model classes min_confidence rs r1 Hyes Hfull).
      rewrite Hp in Hfull.
      rewrite (processar_frame_full model classes min_confidence rs r2 Hyes Hfull).
      destruct (@reconhecer_same_attrs model classes min_confidence
                  (set_buffer (pushed rs r1) (set_frames_sem_maos 0 r1))
                  (set_buffer (pushed rs r2) (set_frames_sem_maos 0 r2)))
        as [Hout Hnext].
      { unfold same_attrs. simpl. rewrite Hp. tauto. }
      destruct (reconhecer model classes min_confidence
                  (set_buffer (pushed rs r1) (set_frames_sem_maos 0 r1)))
        as [[[g1 c1] | e1] r1'];
        destruct (reconhecer model classes min_confidence
                    (set_buffer (pushed rs r2) (set_frames_sem_maos 0 r2)))
        as [[[g2 c2] | e2] r2'];
        simpl in Hout, Hnext; try discriminate Hout.
      * injection Hout as <- <-.
        destruct Hnext as (Hb' & Hh' & Hf' & Hu' & Hc').
        rewrite Hu'.
        destruct (truthy g1 && negb (gesto_eqb g1 (ultimo_gesto r2'))); simpl.
        -- split; [ reflexivity | ]. unfold same_attrs. simpl. tauto.
        -- rewrite Hc'. split; [ reflexivity | ]. unfold same_attrs. tauto.
      * simpl. split; [ congruence | exact Hnext ].
    + rewrite (processar_frame_filling model classes min_confidence rs r1 Hyes Hnot).
      rewrite Hp in Hnot.
      rewrite (processar_frame_filling model classes min_confidence rs r2 Hyes Hnot).
      simpl. rewrite Hu, Hc, Hp. split; [ reflexivity | ].
      unfold same_attrs. simpl. tauto.
  - rewrite !processar_frame_absent by exact Hyes.
    rewrite Hb, Hf, Hu, Hc. simpl. split; [ reflexivity | ].
    destruct ((RESET_THRESHOLD <? frames_sem_maos r2 + 1) && (0 <? length (buffer r2)));
      unfold same_attrs; simpl; tauto.
Qed.

Lemma run_same_attrs
      (model : classifier) (classes : list string) (min_confidence : Q)
      (fs : list results) (r1 r2 : recognizer) :
  same_attrs r1 r2 ->
  fst (run model classes min_confidence fs r1) =
    fst (run model classes min_confidence fs r2) /\
  same_attrs (snd (run model classes min_confidence fs r1))
             (snd (run model classes min_confidence fs r2)).
Proof.
  revert r1 r2. induction fs as [ | rs fs IH ]; intros r1 r2 Hsame; simpl.
  - split; [ reflexivity | exact Hsame ].
  - destruct (processar_frame_same_attrs model classes min_confidence rs Hsame)
      as [Hout Hnext].
    destruct (processar_frame model classes min_confidence rs r1) as [[out1 | e1] r1'];
      destruct (processar_frame model classes min_confidence rs r2) as [[out2 | e2] r2'];
      simpl in Hout, Hnext; try discriminate Hout.
    + injection Hout as <-. destruct (IH r1' r2' Hnext) as [Houts Hfinal].
      destruct (run model classes min_confidence fs r1') as [[outs1 | e1] r1''];
        destruct (run model classes min_confidence fs r2') as [[outs2 | e2] r2''];
        simpl in Houts, Hfinal |- *; try discriminate Houts;
        (split; [ congruence | exact Hfinal ]).
    + simpl. split; [ congruence | exact Hnext ].
Qed.

(** X2.  Whatever the recogniser has been through, after [reset()] it answers
    any frames as a newly constructed recogniser does: the same returns,
    frame by frame, or the same exception, and the same attributes at the
    end. *)
Theorem reset_as_new
        (model : classifier) (classes : list string) (min_confidence : Q)
        (r : recognizer) (fs : list results) :
  fst (run model classes min_confidence fs (snd (reset r))) =
    fst (run model classes min_confidence fs init) /\
  same_attrs (snd (run model classes min_confidence fs (snd (reset r))))
             (snd (run model classes min_confidence fs init)).
Proof.
  apply run_same_attrs. repeat split.
Qed.

(** ** The main loop and the keys *)

Lemma run_app
      (model : classifier) (classes : list string) (min_confidence : Q)
      (fs1 fs2 : list results) (r : recognizer) :
  run model classes min_confidence (fs1 ++ fs2) r =
    match run model classes min_confidence fs1 r with
    | (Exc e, r1) => (Exc e, r1)
    | (Val outs1, r1) =>
        match run model classes min_confidence fs2 r1 with
        | (Val outs2, r2) => (Val (outs1 ++ outs2), r2)
        | (Exc e, r2) => (Exc e, r2)
        end
    end.
Proof.
  revert r. induction fs1 as [ | rs fs1 IH ]; intros r; simpl.
  - destruct (run model classes min_confidence fs2 r) as [[outs2 | e] r2]; reflexivity.
  - destruct (processar_frame model classes min_confidence rs r) as [[out | e] r1];
      [ | reflexivity ].
    rewrite IH.
    destruct (run model classes min_confidence fs1 r1) as [[outs1 | e] r1'];
      [ | reflexivity ].
    destruct (run model classes min_confidence fs2 r1') as [[outs2 | e] r2];
      reflexivity.
Qed.

Lemma eventos_app (outs1 outs2 : list frame_out) :
  eventos (outs1 ++ outs2) = eventos outs1 ++ eventos outs2.
Proof. unfold eventos. apply flat_map_app. Qed.

Lemma frames_read_all (fs : list results) : frames_read (map Some fs) = fs.
Proof.
  unfold frames_read. induction fs as [ | rs fs IH ]; simpl;
    [ reflexivity | rewrite IH; reflexivity ].
Qed.

(** Iterations without a handled key, followed by any others. *)
Lemma main_loop_quiet_then
      (model : classifier) (classes : list string) (min_confidence : Q)
      (reads : list (option results)) (rest : list tick) (r : recognizer) :
  main_loop model classes min_confidence (quiet reads ++ rest) r =
    match run model classes min_confidence (frames_read reads) r with
    | (Val outs, r1) =>
        match main_loop model classes min_confidence rest r1 with
        | (st, r2, evs) => (st, r2, eventos outs ++ evs)
        end
    | (Exc e, r1) =>
        (Crashed e, r1,
         snd (main_loop model classes min_confidence (quiet reads ++ rest) r))
    end.
Proof.
  revert r. induction reads as [ | [rs | ] reads IH ]; intros r.
  - simpl. destruct (main_loop model classes min_confidence rest r) as [[st r2] evs].
    reflexivity.
  - cbn [quiet map app frames_read flat_map main_loop run].
    fold (quiet reads). fold (frames_read reads).
    destruct (processar_frame model classes min_confidence rs r) as [[out | e] r1];
      [ | reflexivity ].
    rewrite IH.
    destruct (run model classes min_confidence (frames_read reads) r1)
      as [[outs | e] r1'].
    + destruct (main_loop model classes min_confidence rest r1') as [[st r2] evs].
      unfold eventos at 2. cbn [flat_map]. fold (eventos outs).
      rewrite app_assoc. reflexivity.
    + reflexivity.
  - cbn [quiet map app frames_read flat_map main_loop].
    fold (quiet reads). fold (frames_read reads).
    rewrite IH at 1.
    destruct (run model classes min_confidence (frames_read reads) r)
      as [[outs | e] r1]; reflexivity.
Qed.

(** Iterations without a handled key on which no call raises. *)
Lemma main_loop_quiet
      (model : classifier) (classes : list string) (min_confidence : Q)
      (reads : list (option results)) (r r' : recognizer) (outs : list frame_out) :
  run model classes min_confidence (frames_read reads) r = (Val outs, r') ->
  main_loop model classes min_confidence (quiet reads) r = (Looping, r', eventos outs).
Proof.
  intros Hrun.
  pose proof (main_loop_quiet_then model classes min_confidence reads [] r) as H.
  rewrite app_nil_r, Hrun in H. rewrite H. simpl. rewrite app_nil_r. reflexivity.
Qed.

(** X3.  While no handled key is pressed the loop is a sequence of
    [processar_frame] calls on the frames that [cap.read()] delivered:
    iterations without a frame change nothing; the recognitions printed
    are those of the calls, in order; and the loop is left exactly when a
    call raises, with the recogniser as that call left it. *)
Theorem main_loop_is_run
        (model : classifier) (classes : list string) (min_confidence : Q)
        (reads : list (option results)) (r : recognizer) :
  match run model classes min_confidence (frames_read reads) r with
  | (Val outs, r') =>
      main_loop model classes min_confidence (quiet reads) r =
        (Looping, r', eventos outs)
  | (Exc e, r') =>
      fst (main_loop model classes min_confidence (quiet reads) r) = (Crashed e, r')
  end.
Proof.
  pose proof (main_loop_quiet_then model classes min_confidence reads [] r) as H.
  rewrite app_nil_r in H.
  destruct (run model classes min_confidence (frames_read reads) r) as [[outs | e] r'].
  - rewrite H. simpl. rewrite app_nil_r. reflexivity.
  - rewrite H. reflexivity.
Qed.



(** ** [R] re-arms the recogniser *)

Section Rearm.

Variable model : classifier.
Variable classes : list string.
Variable min_confidence : Q.
Variable g : string.

Hypothesis Hanswers : always_answers model classes min_confidence g.
Hypothesis Hg : g <> EmptyString.

(** From a fresh recogniser, frames with hands report [g] on the frame
    that fills the window and on no other. *)
Lemma fresh_fill (fs : list results) :
  forall r : recognizer,
    fresh r -> well_formed r ->
    Forall (fun rs => has_hands rs = true) fs ->
    SEQUENCE_LENGTH - 1 - length (buffer r) < length fs ->
    exists outs r' c,
      run model classes min_confidence fs r = (Val outs, r') /\
      eventos outs = [(Some g, c)] /\
      well_formed r'.
Proof.
  induction fs as [ | rs fs IH ]; intros r Hfresh Hwf Hall Hlen.
  - exfalso. cbn [length] in Hlen. lia.
  - inversion Hall as [ | ? ? Hyes Hall' ]; subst.
    cbn [length] in Hlen.
    pose proof (processar_frame_well_formed model classes min_confidence rs Hwf) as Hwf1.
    destruct (Nat.lt_ge_cases (length (buffer r) + 1) SEQUENCE_LENGTH) as [Hlt | Hge].
    + destruct (@step_filling model classes min_confidence rs r Hyes Hwf Hlt)
        as [Hstep Hplen].
      rewrite Hstep in Hwf1. cbn [snd] in Hwf1.
      match type of Hwf1 with well_formed ?x => set (r1 := x) in * end.
      assert (Hf1 : fresh r1) by (destruct Hfresh as (? & ? & ?); repeat split; assumption).
      assert (Hl1 : SEQUENCE_LENGTH - 1 - length (buffer r1) < length fs).
      { subst r1. cbn [buffer set_buffer]. rewrite Hplen.
        unfold SEQUENCE_LENGTH in *. lia. }
      destruct (IH r1 Hf1 Hwf1 Hall' Hl1) as (outs & r' & c & Hrun & Hevs & Hwf').
      eexists (_ :: outs), r', c. rewrite run_cons, Hstep, Hrun.
      split; [ reflexivity | ].
      rewrite eventos_cons_none by reflexivity. tauto.
    + destruct Hfresh as (Hlast & Hhist & Hcalls).
      assert (Hvote : votacao (voted g r) = Val g)
        by (unfold voted; rewrite Hhist; reflexivity).
      destruct (@step_inference model classes min_confidence g Hanswers
                  rs r g Hyes Hwf Hge Hvote) as (c & Hstep).
      pose proof Hg as Htruthy. apply truthy_Some in Htruthy.
      rewrite Hlast, Htruthy in Hstep. cbn [gesto_eqb andb negb] in Hstep.
      rewrite Hstep in Hwf1. cbn [snd] in Hwf1.
      match type of Hwf1 with well_formed ?x => set (r1 := x) in * end.
      assert (Hs1 : settled EmptyString g 0 r1).
      { split; [ reflexivity | ]. exists 0, 1. subst r1. cbn [prediction_history].
        unfold voted. rewrite Hhist. unfold HISTORY_SIZE.
        repeat split; solve [ reflexivity | lia ]. }
      assert (Hog : EmptyString <> g) by congruence.
      destruct (@settled_run model classes min_confidence g Hanswers
                  EmptyString 0 fs r1 Hog Hs1 Hwf1)
        as (outs & r' & Hrun & Hevs & _ & Hwf' & _).
      eexists (_ :: outs), r', c. rewrite run_cons, Hstep, Hrun.
      split; [ reflexivity | ].
      rewrite (@eventos_cons_some _ outs (Some g, c)) by reflexivity.
      rewrite Hevs. tauto.
Qed.

End Rearm.

(** X5.  Under a classifier that keeps answering [A], frames with hands
    report [A] once, however long the hand is held.  When [R] is pressed
    after that, [A] is reported once more as soon as the window has
    filled again: [reset()] also forgets the last gesture. *)
Theorem reset_key_rearms
        (model : classifier) (classes : list string) (min_confidence : Q)
        (A : string) (fs1 fs2 : list results) (rs : results) :
  always_answers model classes min_confidence A ->
  A <> EmptyString ->
  Forall (fun f => has_hands f = true) (fs1 ++ [rs]) ->
  SEQUENCE_LENGTH <= length (fs1 ++ [rs]) ->
  Forall (fun f => has_hands f = true) fs2 ->
  SEQUENCE_LENGTH <= length fs2 ->
  (exists c1 c2 r',
     main_loop model classes min_confidence
       (quiet (map Some fs1) ++ (Some rs, KeyR) :: quiet (map Some fs2)) init =
       (Looping, r', [(Some A, c1); (Some A, c2)])) /\
  (exists c1 r',
     main_loop model classes min_confidence
       (quiet (map Some fs1) ++ (Some rs, KeyOther) :: quiet (map Some fs2)) init =
       (Looping, r', [(Some A, c1)])).
Proof.
  intros Hans HA Hall1 Hlen1 Hall2 Hlen2.
  (* the frames before the key *)
  destruct (@fresh_fill model classes min_confidence A Hans HA (fs1 ++ [rs]) init
              init_fresh init_well_formed Hall1)
    as (outs1 & r1 & c1 & Hrun1 & Hevs1 & Hwf1).
  { simpl. unfold SEQUENCE_LENGTH in *. lia. }
  rewrite run_app in Hrun1.
  destruct (run model classes min_confidence fs1 init) as [[outsa | e] ra] eqn:Hruna;
    [ | discriminate Hrun1 ].
  cbn [run] in Hrun1.
  destruct (processar_frame model classes min_confidence rs ra) as [[out | e] rb] eqn:Hstep;
    [ | discriminate Hrun1 ].
  injection Hrun1 as <- <-.
  rewrite eventos_app in Hevs1.
  split.
  - (* with [R] *)
    destruct (@fresh_fill model classes min_confidence A Hans HA fs2 init
                init_fresh init_well_formed Hall2)
      as (outs2 & r2 & c2 & Hrun2 & Hevs2 & _).
    { simpl. unfold SEQUENCE_LENGTH in *. lia. }
    assert (Hreset : same_attrs (snd (reset rb)) init) by (repeat split).
    destruct (run_same_attrs model classes min_confidence fs2 Hreset) as [Houts _].
    rewrite Hrun2 in Houts. cbn [fst] in Houts.
    destruct (run model classes min_confidence fs2 (snd (reset rb)))
      as [[outs2' | e] r2'] eqn:Hrun2'; cbn [fst] in Houts; [ | discriminate Houts ].
    injection Houts as ->.
    exists c1, c2, r2'.
    rewrite main_loop_quiet_then, frames_read_all, Hruna.
    cbn [main_loop]. rewrite Hstep.
    rewrite (@main_loop_quiet model classes min_confidence (map Some fs2)
               (snd (reset rb)) r2' outs2)
      by (rewrite frames_read_all; exact Hrun2').
    rewrite Hevs2. f_equal.
    rewrite app_assoc. unfold eventos in Hevs1 at 2. cbn [flat_map] in Hevs1.
    rewrite app_nil_r in Hevs1. rewrite Hevs1. reflexivity.
  - (* without *)
    assert (Hsettled : exists outs2 r2,
              run model classes min_confidence fs2 rb = (Val outs2, r2) /\
              eventos outs2 = []).
    { assert (Hog : EmptyString <> A) by congruence.
      destruct (@fresh_run model classes min_confidence A Hans HA EmptyString
                  (fs1 ++ [rs] ++ fs2) init Hog init_fresh init_well_formed)
        as (outs & r' & Hrun & _ & Hcases).
      rewrite run_app, Hruna in Hrun. cbn [app run] in Hrun. rewrite Hstep in Hrun.
      destruct (run model classes min_confidence fs2 rb) as [[outs2 | e] r2];
        [ | discriminate Hrun ].
      injection Hrun as <- <-.
      exists outs2, r2. split; [ reflexivity | ].
      destruct Hcases as [ [_ Hevs] | (_ & _ & c & Hevs) ];
        rewrite eventos_app in Hevs;
        change (out :: outs2) with ([out] ++ outs2) in Hevs;
        rewrite eventos_app, app_assoc, Hevs1 in Hevs.
      - discriminate Hevs.
      - simpl in Hevs. injection Hevs as _ Hevs. exact Hevs. }
    destruct Hsettled as (outs2 & r2 & Hrun2 & Hevs2).
    exists c1, r2.
    rewrite main_loop_quiet_then, frames_read_all, Hruna.
    cbn [main_loop]. rewrite Hstep.
    rewrite (@main_loop_quiet model classes min_confidence (map Some fs2)
               rb r2 outs2)
      by (rewrite frames_read_all; exact Hrun2).
    rewrite Hevs2, app_nil_r. f_equal.
    unfold eventos in Hevs1 at 2. cbn [flat_map] in Hevs1.
    rewrite app_nil_r in Hevs1. exact Hevs1.
Qed.

Lemma reset_key_rearms_witness :
  let model := const_model (9 # 10) (1 # 10) in
  let classes := ["A"; "B"]%string in
  let fs1 := repeat (mao 1) 33 in
  let fs2 := repeat (mao 2) 30 in
  (exists c1 c2 r',
     main_loop model classes MIN_CONFIDENCE
       (quiet (map Some fs1) ++ (Some (mao 1), KeyR) :: quiet (map Some fs2)) init =
       (Looping, r', [(Some "A"%string, c1); (Some "A"%string, c2)])) /\
  (exists c1 r',
     main_loop model classes MIN_CONFIDENCE
       (quiet (map Some fs1) ++ (Some (mao 1), KeyOther) :: quiet (map Some fs2)) init =
       (Looping, r', [(Some "A"%string, c1)])).
Proof.
  intros model classes fs1 fs2.
  apply (@reset_key_rearms model classes MIN_CONFIDENCE "A"%string fs1 fs2 (mao 1)).
  - intros w _. exists 0, (9 # 10)%Q. repeat split.
  - discriminate.
  - repeat constructor.
  - vm_compute. lia.
  - repeat constructor.
  - vm_compute. lia.
Defined.



(** ** What every run of the recogniser satisfies *)

Lemma pushed_length_bounds (rs : results) (r : recognizer) :
  length (pushed rs r) <= S (length (buffer r)) /\
  (length (pushed rs r) = SEQUENCE_LENGTH -> SEQUENCE_LENGTH - 1 <= length (buffer r)).
Proof.
  unfold pushed, Deque.append. cbv zeta.
  destruct (Nat.ltb_spec SEQUENCE_LENGTH
              (length (buffer r ++ [processar_landmarks rs]))) as [Hlt | Hge];
    [ rewrite DequeFacts.length_tl | ]; rewrite length_app in *; simpl in *;
    unfold SEQUENCE_LENGTH in *; lia.
Qed.

(** One frame: either nothing is reported and the last gesture stays, or
    a label is reported that is not empty, differs from the last gesture,
    passed the gate, found the window full, and becomes the last gesture
    of an emptied window. *)
Lemma processar_frame_report
      (model : classifier) (classes : list string) (min_confidence : Q)
      (rs : results) (r r' : recognizer) (out : frame_out) :
  processar_frame model classes min_confidence rs r = (Val out, r') ->
  (novo out = false /\ evento out = None /\ ultimo_gesto r' = ultimo_gesto r /\
   length (buffer r') <= S (length (buffer r))) \/
  (exists g c,
     novo out = true /\ evento out = Some (Some g, c) /\
     g <> EmptyString /\ ultimo_gesto r <> Some g /\
     (min_confidence <= c)%Q /\
     ultimo_gesto r' = Some g /\ buffer r' = [] /\
     SEQUENCE_LENGTH - 1 <= length (buffer r)).
Proof.
  intros Hstep.
  destruct (pushed_length_bounds rs r) as [Hple Hpfull].
  destruct (has_hands rs) eqn:Hyes.
  - destruct (Nat.eq_dec (length (pushed rs r)) SEQUENCE_LENGTH) as [Hfull | Hnot].
    + rewrite (processar_frame_full model classes min_confidence rs r Hyes Hfull)
        in Hstep.
      pose proof (reconhecer_effect model classes min_confidence
                    (set_buffer (pushed rs r) (set_frames_sem_maos 0 r))) as Heff.
      destruct (reconhecer model classes min_confidence
                  (set_buffer (pushed rs r) (set_frames_sem_maos 0 r)))
        as [[[gesto c] | e] r1] eqn:Hrec; [ | discriminate Hstep ].
      destruct Heff as (Hb & _ & Hu & _). simpl in Hu, Hb.
      destruct (truthy gesto && negb (gesto_eqb gesto (ultimo_gesto r1))) eqn:Hcond.
      * right. injection Hstep as <- <-.
        apply andb_prop in Hcond. destruct Hcond as [Htruthy Hneq].
        destruct gesto as [g | ]; [ | discriminate Htruthy ].
        apply truthy_Some in Htruthy.
        apply negb_true_iff, gesto_eqb_neq in Hneq.
        apply reconhecer_Some in Hrec.
        destruct Hrec as (classe_idx & gesto & _ & Hgate & _).
        exists g, c. repeat split; try assumption.
        -- rewrite <- Hu. congruence.
        -- apply Qlt_bool_false_iff. exact Hgate.
        -- apply Hpfull, Hfull.
      * left. injection Hstep as <- <-.
        split; [ reflexivity | ]. split; [ reflexivity | ].
        split; [ exact Hu | ]. rewrite Hb. exact Hple.
    + rewrite (processar_frame_filling model classes min_confidence rs r Hyes Hnot)
        in Hstep.
      left. injection Hstep as <- <-.
      split; [ reflexivity | ]. split; [ reflexivity | ].
      split; [ reflexivity | exact Hple ].
  - rewrite processar_frame_absent in Hstep by exact Hyes.
    left. injection Hstep as <- <-.
    split; [ reflexivity | ]. split; [ reflexivity | ].
    destruct ((RESET_THRESHOLD <? frames_sem_maos r + 1) && (0 <? length (buffer r)));
      simpl; split; solve [ reflexivity | lia ].
Qed.

Lemma last_cons (A : Type) (l : list A) :
  forall a d : A, last (a :: l) d = last l a.
Proof.
  induction l as [ | b l IH ]; intros a d; [ reflexivity | ].
  change (last (a :: b :: l) d) with (last (b :: l) d).
  rewrite !IH. reflexivity.
Qed.

Lemma spaced_weaken (flags : list bool) :
  forall k k', k <= k' -> spaced k' flags -> spaced k flags.
Proof.
  induction flags as [ | [ | ] flags IH ]; intros k k' Hle; simpl.
  - trivial.
  - intros [-> Hrest]. split; [ lia | exact Hrest ].
  - apply IH. lia.
Qed.

(** X6.  For any classifier, any frames and any starting point, as long as no
    call raises: no label is reported twice in a row (the last gesture
    counts as the one before the first report), every reported label is
    non-empty and its confidence passed the gate, the last gesture at the
    end is the last label reported, and two reports are at least
    [SEQUENCE_LENGTH] frames apart, the first needing the window to fill. *)
Theorem reports_are_debounced
        (model : classifier) (classes : list string) (min_confidence : Q)
        (fs : list results) (r r' : recognizer) (outs : list frame_out) :
  run model classes min_confidence fs r = (Val outs, r') ->
  alternating (ultimo_gesto r) (rotulos (eventos outs)) /\
  Forall (fun ev => exists g, fst ev = Some g /\ g <> EmptyString /\
                              (min_confidence <= snd ev)%Q) (eventos outs) /\
  ultimo_gesto r' = last (map Some (rotulos (eventos outs))) (ultimo_gesto r) /\
  spaced (SEQUENCE_LENGTH - 1 - length (buffer r)) (map novo outs).
Proof.
  revert r outs. induction fs as [ | rs fs IH ]; intros r outs Hrun.
  - simpl in Hrun. injection Hrun as <- <-. simpl. repeat split. constructor.
  - cbn [run] in Hrun.
    destruct (processar_frame model classes min_confidence rs r)
      as [[out | e] r1] eqn:Hstep; [ | discriminate Hrun ].
    destruct (run model classes min_confidence fs r1) as [[outs1 | e] r2] eqn:Hrest;
      [ | discriminate Hrun ].
    injection Hrun as <- <-.
    destruct (IH r1 outs1 Hrest) as (Halt & Hall & Hlast & Hsp).
    apply processar_frame_report in Hstep.
    destruct Hstep as [ (Hnovo & Hev & Hu & Hlen) | (g & c & Hnovo & Hev & Hg & Hneq & Hc & Hu & Hb & Hfull) ].
    + rewrite (eventos_cons_none out outs1 Hev). rewrite <- Hu.
      split; [ exact Halt | ]. split; [ exact Hall | ]. split; [ exact Hlast | ].
      cbn [map spaced]. rewrite Hnovo.
      apply (spaced_weaken _ (k' := SEQUENCE_LENGTH - 1 - length (buffer r1)));
        [ lia | exact Hsp ].
    + rewrite (eventos_cons_some out outs1 Hev).
      cbn [rotulos flat_map fst app map]. fold (rotulos (eventos outs1)).
      rewrite Hu in Halt, Hlast.
      split; [ split; [ exact Hneq | exact Halt ] | ].
      split; [ constructor; [ exists g; repeat split; assumption | exact Hall ] | ].
      split.
      * rewrite Hlast. symmetry. apply last_cons.
      * cbn [map spaced]. rewrite Hnovo. split; [ lia | ].
        rewrite Hb in Hsp. simpl in Hsp. exact Hsp.
Qed.

Lemma reports_are_debounced_witness :
  let outs := match fst (demo_run mismatch_prefix init) with
              | Val outs => outs
              | Exc _ => []
              end in
  let r' := snd (demo_run mismatch_prefix init) in
  alternating (ultimo_gesto init) (rotulos (eventos outs)) /\
  Forall (fun ev => exists g, fst ev = Some g /\ g <> EmptyString /\
                              (MIN_CONFIDENCE <= snd ev)%Q) (eventos outs) /\
  ultimo_gesto r' = last (map Some (rotulos (eventos outs))) (ultimo_gesto init) /\
  spaced (SEQUENCE_LENGTH - 1 - length (buffer init)) (map novo outs).
Proof.
  intros outs r'.
  apply (@reports_are_debounced demo_model demo_classes MIN_CONFIDENCE
           mismatch_prefix init r' outs).
  vm_compute. reflexivity.
Defined.

(** ** The stand-alone script, frame by frame *)

Module ScriptFacts.

Import LegacyScript.

(** The loop body, case by case. *)
Lemma iteracao_cases
      (model : classifier) (classes_ : list string) (rs : results) (g : globals) :
  iteracao model classes_ rs g =
    let g1 := script_presenca rs g in
    if length (buffer g1) =? SEQUENCE_LENGTH then
      match reshape SEQUENCE_LENGTH (buffer g1) with
      | Exc e => (Exc e, g1)
      | Val entrada =>
          match top_class model entrada with
          | Exc e => (Exc e, g1)
          | Val (classe_idx, confianca) =>
              if Qle_bool MIN_CONFIDENCE confianca then
                match index classes_ classe_idx with
                | Exc e => (Exc e, g1)
                | Val gesto_atual =>
                    let h := Deque.append 15 (historico_predicoes g1) gesto_atual in
                    match votacao h with
                    | Exc e =>
                        (Exc e, mkGlobals (buffer g1) (frames_sem_maos g1) h
                                          (ultimo_gesto g1))
                    | Val gesto_final =>
                        if negb (gesto_eqb (Some gesto_final) (ultimo_gesto g1))
                        then (Val (Some (gesto_final, confianca)),
                              mkGlobals [] (frames_sem_maos g1) h (Some gesto_final))
                        else (Val None,
                              mkGlobals (buffer g1) (frames_sem_maos g1) h
                                        (ultimo_gesto g1))
                    end
                end
              else (Val None, g1)
          end
      end
    else (Val None, g1).
Proof.
  unfold iteracao, script_presenca, top_class. run_py.
  destruct (has_hands rs); cbn [negb].
  - cbn [buffer frames_sem_maos historico_predicoes ultimo_gesto].
    destruct (length (Deque.append SEQUENCE_LENGTH (buffer g) (processar_landmarks rs))
              =? SEQUENCE_LENGTH); [ | reflexivity ].
    destruct (reshape SEQUENCE_LENGTH _) as [entrada | e]; [ | reflexivity ].
    destruct (model entrada) as [batch | e]; [ | reflexivity ].
    destruct (index batch 0) as [preds | e]; [ | reflexivity ].
    destruct (argmax preds) as [classe_idx | e]; [ | reflexivity ].
    destruct (index preds classe_idx) as [confianca | e]; [ | reflexivity ].
    destruct (Qle_bool MIN_CONFIDENCE confianca); [ | reflexivity ].
    destruct (index classes_ classe_idx) as [gesto | e]; [ | reflexivity ].
    cbn [buffer frames_sem_maos historico_predicoes ultimo_gesto].
    destruct (votacao _) as [gesto_final | e]; [ | reflexivity ].
    destruct (negb (gesto_eqb (Some gesto_final) (ultimo_gesto g))); reflexivity.
  - cbn [buffer frames_sem_maos historico_predicoes ultimo_gesto].
    destruct ((RESET_THRESHOLD <? frames_sem_maos g + 1) && (0 <? length (buffer g)));
      run_py;
      cbn [buffer frames_sem_maos historico_predicoes ultimo_gesto Deque.clear length].
    + reflexivity.
    + destruct (length (buffer g) =? SEQUENCE_LENGTH); [ | reflexivity ].
      destruct (reshape SEQUENCE_LENGTH (buffer g)) as [entrada | e]; [ | reflexivity ].
      destruct (model entrada) as [batch | e]; [ | reflexivity ].
      destruct (index batch 0) as [preds | e]; [ | reflexivity ].
      destruct (argmax preds) as [classe_idx | e]; [ | reflexivity ].
      destruct (index preds classe_idx) as [confianca | e]; [ | reflexivity ].
      destruct (Qle_bool MIN_CONFIDENCE confianca); [ | reflexivity ].
      destruct (index classes_ classe_idx) as [gesto | e]; [ | reflexivity ].
      cbn [buffer frames_sem_maos historico_predicoes ultimo_gesto].
      destruct (votacao _) as [gesto_final | e]; [ | reflexivity ].
      destruct (negb (gesto_eqb (Some gesto_final) (ultimo_gesto g))); reflexivity.
Qed.

(** What the first half of the loop body does to the variables. *)
Lemma script_presenca_effect (rs : results) (g : globals) :
  historico_predicoes (script_presenca rs g) = historico_predicoes g /\
  ultimo_gesto (script_presenca rs g) = ultimo_gesto g /\
  length (buffer (script_presenca rs g)) <= S (length (buffer g)) /\
  (length (buffer g) <= SEQUENCE_LENGTH ->
   length (buffer (script_presenca rs g)) <= SEQUENCE_LENGTH) /\
  (length (buffer (script_presenca rs g)) = SEQUENCE_LENGTH ->
   SEQUENCE_LENGTH - 1 <= length (buffer g)).
Proof.
  unfold script_presenca.
  destruct (has_hands rs).
  - cbn [buffer historico_predicoes ultimo_gesto].
    split; [ reflexivity | ]. split; [ reflexivity | ].
    unfold Deque.append. cbv zeta.
    destruct (Nat.ltb_spec SEQUENCE_LENGTH
                (length (buffer g ++ [processar_landmarks rs]))) as [Hlt | Hge];
      [ rewrite DequeFacts.length_tl | ]; rewrite length_app in *; simpl in *;
      unfold SEQUENCE_LENGTH in *; lia.
  - destruct ((RESET_THRESHOLD <? frames_sem_maos g + 1) && (0 <? length (buffer g)));
      cbn [buffer historico_predicoes ultimo_gesto length];
      unfold SEQUENCE_LENGTH; repeat split; lia.
Qed.

(** One iteration: either nothing is printed and the last gesture stays,
    or a label is printed that differs from the last gesture, passed the
    gate, found the window full, and becomes the last gesture of an
    emptied window.  The deques keep their capacity in both cases. *)
Lemma iteracao_report
      (model : classifier) (classes_ : list string) (rs : results)
      (g g' : globals) (printed : option (string * Q)) :
  iteracao model classes_ rs g = (Val printed, g') ->
  (length (buffer g) <= SEQUENCE_LENGTH -> length (buffer g') <= SEQUENCE_LENGTH) /\
  (length (historico_predicoes g) <= 15 -> length (historico_predicoes g') <= 15) /\
  ((printed = None /\ ultimo_gesto g' = ultimo_gesto g /\
    length (buffer g') <= S (length (buffer g))) \/
   (exists gesto_final c,
      printed = Some (gesto_final, c) /\
      ultimo_gesto g <> Some gesto_final /\
      (MIN_CONFIDENCE <= c)%Q /\
      ultimo_gesto g' = Some gesto_final /\ buffer g' = [] /\
      SEQUENCE_LENGTH - 1 <= length (buffer g))).
Proof.
  rewrite iteracao_cases. cbv zeta.
  destruct (script_presenca_effect rs g) as (Hh & Hu & Hle & Hcap & Hfull).
  set (g1 := script_presenca rs g) in *.
  assert (Hkeep : forall p, (Val p, g1) = (Val printed, g') ->
            (length (buffer g) <= SEQUENCE_LENGTH ->
             length (buffer g') <= SEQUENCE_LENGTH) /\
            (length (historico_predicoes g) <= 15 ->
             length (historico_predicoes g') <= 15) /\
            (p = None ->
             (printed = None /\ ultimo_gesto g' = ultimo_gesto g /\
              length (buffer g') <= S (length (buffer g))))).
  { intros p H. injection H as <- <-. rewrite Hh, Hu. tauto. }
  destruct (Nat.eqb_spec (length (buffer g1)) SEQUENCE_LENGTH) as [Hlen | Hlen].
  - destruct (reshape SEQUENCE_LENGTH (buffer g1)) as [entrada | e]; [ | discriminate ].
    destruct (top_class model entrada) as [[classe_idx confianca] | e]; [ | discriminate ].
    destruct (Qle_bool MIN_CONFIDENCE confianca) eqn:Hgate.
    + destruct (index classes_ classe_idx) as [gesto | e]; [ | discriminate ].
      assert (Hhist : length (historico_predicoes g) <= 15 ->
                length (Deque.append 15 (historico_predicoes g1) gesto) <= 15).
      { intros H. apply DequeFacts.append_length_le. rewrite Hh. exact H. }
      destruct (votacao _) as [gesto_final | e]; [ | discriminate ].
      destruct (gesto_eqb (Some gesto_final) (ultimo_gesto g1)) eqn:Heq; cbn [negb].
      * intros H. injection H as <- <-. cbn [buffer historico_predicoes ultimo_gesto].
        split; [ exact Hcap | ]. split; [ exact Hhist | ]. left. tauto.
      * intros H. injection H as <- <-. cbn [buffer historico_predicoes ultimo_gesto length].
        split; [ intros _; unfold SEQUENCE_LENGTH; lia | ].
        split; [ exact Hhist | ]. right.
        exists gesto_final, confianca. apply gesto_eqb_neq in Heq.
        repeat split.
        -- rewrite <- Hu. congruence.
        -- apply Qle_bool_iff. exact Hgate.
        -- apply Hfull, Hlen.
    + intros H. destruct (Hkeep None H) as (? & ? & Hnone).
      split; [ assumption | ]. split; [ assumption | ]. left. apply Hnone. reflexivity.
  - intros H. destruct (Hkeep None H) as (? & ? & Hnone).
    split; [ assumption | ]. split; [ assumption | ]. left. apply Hnone. reflexivity.
Qed.

(** X7.  However long the script runs: its window never holds more than 30
    samples nor its history more than 15 labels; it never prints the same
    label twice in a row; every confidence printed is at least
    [MIN_CONFIDENCE]; [ultimo_gesto] is the label printed last; and two
    prints are at least 30 frames apart, the first needing a full
    window. *)
Theorem script_reports_are_debounced
        (model : classifier) (classes_ : list string)
        (frames : list results) (g' : globals)
        (printed : list (option (string * Q))) :
  script_run model classes_ frames inicial = (Val printed, g') ->
  length (buffer g') <= 30 /\
  length (historico_predicoes g') <= 15 /\
  alternating None (map fst (flat_map (fun p => match p with
                                               | Some x => [x]
                                               | None => []
                                               end) printed)) /\
  Forall (fun p => match p with
                   | Some (_, c) => (MIN_CONFIDENCE <= c)%Q
                   | None => True
                   end) printed /\
  ultimo_gesto g' =
    last (map Some (map fst (flat_map (fun p => match p with
                                                | Some x => [x]
                                                | None => []
                                                end) printed))) None /\
  spaced 29 (map (fun p => match p with Some _ => true | None => false end) printed).
Proof.
  assert (Hgen : forall frames g g' printed,
    script_run model classes_ frames g = (Val printed, g') ->
    (length (buffer g) <= SEQUENCE_LENGTH -> length (buffer g') <= SEQUENCE_LENGTH) /\
    (length (historico_predicoes g) <= 15 -> length (historico_predicoes g') <= 15) /\
    alternating (ultimo_gesto g)
      (map fst (flat_map (fun p => match p with Some x => [x] | None => [] end) printed)) /\
    Forall (fun p => match p with
                     | Some (_, c) => (MIN_CONFIDENCE <= c)%Q
                     | None => True
                     end) printed /\
    ultimo_gesto g' =
      last (map Some (map fst (flat_map (fun p => match p with
                                                  | Some x => [x]
                                                  | None => []
                                                  end) printed))) (ultimo_gesto g) /\
    spaced (SEQUENCE_LENGTH - 1 - length (buffer g))
           (map (fun p => match p with Some _ => true | None => false end) printed)).
  { clear frames g' printed.
    induction frames as [ | rs frames IH ]; intros g g' printed Hrun.
    - simpl in Hrun. injection Hrun as <- <-. simpl. repeat split; try tauto. constructor.
    - cbn [script_run] in Hrun.
      destruct (iteracao model classes_ rs g) as [[p | e] g1] eqn:Hstep;
        [ | discriminate Hrun ].
      destruct (script_run model classes_ frames g1) as [[ps | e] g2] eqn:Hrest;
        [ | discriminate Hrun ].
      injection Hrun as <- <-.
      destruct (IH g1 g2 ps Hrest) as (Hb & Hh & Halt & Hall & Hlast & Hsp).
      apply iteracao_report in Hstep.
      destruct Hstep as (Hb1 & Hh1 & [ (-> & Hu & Hlen) | (gf & c & -> & Hneq & Hc & Hu & Hbuf & Hfull) ]).
      + cbn [flat_map app map spaced]. rewrite <- Hu.
        split; [ tauto | ]. split; [ tauto | ]. split; [ exact Halt | ].
        split; [ constructor; [ exact I | exact Hall ] | ].
        split; [ exact Hlast | ].
        apply (spaced_weaken _ (k' := SEQUENCE_LENGTH - 1 - length (buffer g1)));
          [ unfold SEQUENCE_LENGTH; lia | exact Hsp ].
      + cbn [flat_map app map fst spaced]. rewrite Hu in Halt, Hlast.
        split; [ tauto | ]. split; [ tauto | ].
        split; [ split; [ exact Hneq | exact Halt ] | ].
        split; [ constructor; [ exact Hc | exact Hall ] | ].
        split; [ rewrite Hlast; symmetry; apply last_cons | ].
        split; [ unfold SEQUENCE_LENGTH in *; lia | ].
        rewrite Hbuf in Hsp. exact Hsp. }
  intros Hrun. destruct (Hgen frames inicial g' printed Hrun)
    as (Hb & Hh & Halt & Hall & Hlast & Hsp).
  split; [ apply Hb; simpl; unfold SEQUENCE_LENGTH; lia | ].
  split; [ apply Hh; simpl; lia | ]. tauto.
Qed.

Lemma script_reports_are_debounced_witness :
  let frames := repeat (mao 1) 31 ++ repeat (mao 2) 45 ++ repeat sem_maos 3 in
  let printed := match fst (script_run demo_model demo_classes frames inicial) with
                 | Val ps => ps
                 | Exc _ => []
                 end in
  let g' := snd (script_run demo_model demo_classes frames inicial) in
  length (buffer g') <= 30 /\
  length (historico_predicoes g') <= 15 /\
  alternating None (map fst (flat_map (fun p => match p with
                                               | Some x => [x]
                                               | None => []
                                               end) printed)) /\
  Forall (fun p => match p with
                   | Some (_, c) => (MIN_CONFIDENCE <= c)%Q
                   | None => True
                   end) printed /\
  ultimo_gesto g' =
    last (map Some (map fst (flat_map (fun p => match p with
                                                | Some x => [x]
                                                | None => []
                                                end) printed))) None /\
  spaced 29 (map (fun p => match p with Some _ => true | None => false end) printed).
Proof.
  intros frames printed g'.
  apply (@script_reports_are_debounced demo_model demo_classes frames g' printed).
  vm_compute. reflexivity.
Defined.

(** X8.  The inference is outside the [else] of the presence test: on a frame
    without hands, as long as the window is full and not yet reset, the
    classifier is asked again about the same window and its label is
    appended once more; the vote over the longer history can then print
    a gesture although no hand is in front of the camera. *)
Theorem stale_window_votes_again
        (model : classifier) (classes_ : list string) (rs : results) (g : globals)
        (classe_idx : nat) (confianca : Q) (gesto gesto_final : string) :
  has_hands rs = false ->
  frames_sem_maos g + 1 <= RESET_THRESHOLD ->
  reshape SEQUENCE_LENGTH (buffer g) = Val (buffer g) ->
  top_class model (buffer g) = Val (classe_idx, confianca) ->
  (MIN_CONFIDENCE <= confianca)%Q ->
  index classes_ classe_idx = Val gesto ->
  votacao (Deque.append 15 (historico_predicoes g) gesto) = Val gesto_final ->
  iteracao model classes_ rs g =
    if gesto_eqb (Some gesto_final) (ultimo_gesto g)
    then (Val None,
          mkGlobals (buffer g) (frames_sem_maos g + 1)
                    (Deque.append 15 (historico_predicoes g) gesto) (ultimo_gesto g))
    else (Val (Some (gesto_final, confianca)),
          mkGlobals [] (frames_sem_maos g + 1)
                    (Deque.append 15 (historico_predicoes g) gesto)
                    (Some gesto_final)).
Proof.
  intros Hno Hcount Hshape Htop Hgate Hlabel Hvote.
  rewrite iteracao_cases. cbv zeta.
  assert (Hg1 : script_presenca rs g =
                mkGlobals (buffer g) (frames_sem_maos g + 1)
                          (historico_predicoes g) (ultimo_gesto g)).
  { unfold script_presenca. rewrite Hno.
    destruct (Nat.ltb_spec RESET_THRESHOLD (frames_sem_maos g + 1)) as [Hlt | _];
      [ lia | reflexivity ]. }
  rewrite Hg1. cbn [buffer frames_sem_maos historico_predicoes ultimo_gesto].
  destruct (reshape_Val _ _ Hshape) as (_ & Hlen & _).
  apply Nat.eqb_eq in Hlen. rewrite Hlen, Hshape, Htop.
  apply Qle_bool_iff in Hgate. rewrite Hgate, Hlabel, Hvote.
  destruct (gesto_eqb (Some gesto_final) (ultimo_gesto g)); reflexivity.
Qed.

Lemma stale_window_votes_again_witness :
  let g := mkGlobals (repeat (processar_landmarks (mao 2)) 30) 0
                     ["A"; "B"]%string (Some "A"%string) in
  iteracao demo_model demo_classes sem_maos g =
    (Val (Some ("B"%string, (8 # 10)%Q)),
     mkGlobals [] 1 ["A"; "B"; "B"]%string (Some "B"%string)).
Proof.
  intros g.
  apply (@stale_window_votes_again demo_model demo_classes sem_maos g
           1 (8 # 10) "B"%string "B"%string).
  - reflexivity.
  - vm_compute. lia.
  - vm_compute. reflexivity.
  - vm_compute. reflexivity.
  - vm_compute. discriminate.
  - reflexivity.
  - vm_compute. reflexivity.
Defined.

(** The script's absence reset: once more than [RESET_THRESHOLD] frames
    in a row came without hands and the window is not empty, the window
    is emptied and that is all; the vote history and the last gesture
    stay, nothing is printed and the classifier is not asked, even when
    the window was full. *)
Theorem script_absence_reset
        (model : classifier) (classes_ : list string) (rs : results) (g : globals) :
  has_hands rs = false ->
  RESET_THRESHOLD < frames_sem_maos g + 1 ->
  buffer g <> [] ->
  iteracao model classes_ rs g =
    (Val None,
     mkGlobals [] (frames_sem_maos g + 1) (historico_predicoes g) (ultimo_gesto g)) /\
  forall model' : classifier,
    iteracao model' classes_ rs g = iteracao model classes_ rs g.
Proof.
  intros Hno Hcount Hbuf.
  assert (Hg1 : script_presenca rs g =
                mkGlobals [] (frames_sem_maos g + 1)
                          (historico_predicoes g) (ultimo_gesto g)).
  { unfold script_presenca. rewrite Hno.
    apply Nat.ltb_lt in Hcount. rewrite Hcount.
    destruct (buffer g); [ congruence | reflexivity ]. }
  assert (Hany : forall m, iteracao m classes_ rs g =
            (Val None,
             mkGlobals [] (frames_sem_maos g + 1)
                       (historico_predicoes g) (ultimo_gesto g))).
  { intros m. rewrite iteracao_cases. cbv zeta. rewrite Hg1. reflexivity. }
  split; [ apply Hany | ]. intros model'. rewrite !Hany. reflexivity.
Qed.

Lemma script_absence_reset_witness :
  let g := mkGlobals (repeat (processar_landmarks (mao 2)) 30) 10
                     ["A"; "B"]%string (Some "A"%string) in
  iteracao demo_model demo_classes sem_maos g =
    (Val None, mkGlobals [] 11 ["A"; "B"]%string (Some "A"%string)) /\
  forall model' : classifier,
    iteracao model' demo_classes sem_maos g = iteracao demo_model demo_classes sem_maos g.
Proof.
  intros g.
  apply (@script_absence_reset demo_model demo_classes sem_maos g).
  - reflexivity.
  - vm_compute. lia.
  - discriminate.
Defined.

End ScriptFacts.

(** ** The desktop application, prediction by prediction *)

Module GuiTheorems.

Import Gui.

(** [reconhecer_gesto] when the classifier, the label lookup and the vote
    all succeed. *)
Lemma reconhecer_gesto_prediction
      (modelo : classifier) (classes_ : list string) (a : app) (alvo : string)
      (classe_idx : nat) (confianca : Q) (gesto gesto_final : string) :
  gesto_alvo a = Some alvo -> alvo <> EmptyString ->
  reshape 30 (buffer_gestos a) = Val (buffer_gestos a) ->
  top_class modelo (buffer_gestos a) = Val (classe_idx, confianca) ->
  index classes_ classe_idx = Val gesto ->
  votacao (Deque.append 15 (historico_predicoes a) (normalizar gesto)) =
    Val gesto_final ->
  reconhecer_gesto (Some modelo) (Some classes_) a =
    (Val tt, gui_after_prediction a gesto alvo confianca gesto_final).
Proof.
  intros Halvo Hne Hshape Htop Hlabel Hvote.
  destruct a as [b h n u t p l k ms].
  cbn [gesto_alvo buffer_gestos historico_predicoes] in Halvo, Hshape, Htop, Hvote.
  subst t.
  unfold reconhecer_gesto, gui_after_prediction. run_py.
  cbn [gesto_alvo buffer_gestos historico_predicoes frames_sem_maos
       ultimo_gesto_reconhecido pontuacao nivel_atual proxima_letra_agendada
       mensagens].
  apply truthy_Some in Hne. rewrite Hne, Hshape.
  unfold top_class in Htop.
  destruct (modelo b) as [batch | e0]; [ | discriminate Htop ].
  destruct (index batch 0) as [preds | e0]; [ | discriminate Htop ].
  destruct (argmax preds) as [i | e0]; [ | discriminate Htop ].
  destruct (index preds i) as [c | e0]; [ | discriminate Htop ].
  injection Htop as -> ->. rewrite Hlabel.
  cbn [historico_predicoes set_historico]. rewrite Hvote.
  destruct (Qgt_bool confianca (7 # 10) && String.eqb gesto_final (normalizar alvo)).
  - reflexivity.
  - cbn [ultimo_gesto_reconhecido set_historico].
    destruct (gesto_eqb (Some gesto) u); reflexivity.
Qed.

(** X9.  A prediction scores when its confidence is strictly above 0.7 and
    the vote equals the target, both without their [_DIR]/[_ESQ] marks:
    the score grows by ten times the level, one [proxima_letra] is
    scheduled, and the window and the history are emptied.  Otherwise
    nothing is scored and the window stays; the label has entered the
    history whatever its confidence was, also below 0.7.  In both cases
    the raw label becomes [ultimo_gesto_reconhecido]. *)
Theorem gui_prediction_effects
        (modelo : classifier) (classes_ : list string) (a : app) (alvo : string)
        (classe_idx : nat) (confianca : Q) (gesto gesto_final : string) :
  gesto_alvo a = Some alvo -> alvo <> EmptyString ->
  reshape 30 (buffer_gestos a) = Val (buffer_gestos a) ->
  top_class modelo (buffer_gestos a) = Val (classe_idx, confianca) ->
  index classes_ classe_idx = Val gesto ->
  votacao (Deque.append 15 (historico_predicoes a) (normalizar gesto)) =
    Val gesto_final ->
  exists a',
    reconhecer_gesto (Some modelo) (Some classes_) a = (Val tt, a') /\
    ultimo_gesto_reconhecido a' = Some gesto /\
    ((7 # 10 < confianca)%Q /\ gesto_final = normalizar alvo ->
     pontuacao a' = pontuacao a + 10 * nivel_atual a /\
     proxima_letra_agendada a' = S (proxima_letra_agendada a) /\
     buffer_gestos a' = [] /\ historico_predicoes a' = [] /\
     mensagens a' = Correto gesto_final :: mensagens a) /\
    ((confianca <= 7 # 10)%Q \/ gesto_final <> normalizar alvo ->
     pontuacao a' = pontuacao a /\
     proxima_letra_agendada a' = proxima_letra_agendada a /\
     buffer_gestos a' = buffer_gestos a /\
     historico_predicoes a' =
       Deque.append 15 (historico_predicoes a) (normalizar gesto)).
Proof.
  intros Halvo Hne Hshape Htop Hlabel Hvote.
  eexists. split;
    [ apply (reconhecer_gesto_prediction modelo classes_ a
               Halvo Hne Hshape Htop Hlabel Hvote) | ].
  unfold gui_after_prediction, Qgt_bool.
  destruct (Qlt_bool (7 # 10) confianca) eqn:Hconf;
    destruct (String.eqb_spec gesto_final (normalizar alvo)) as [Heq | Hneq];
    cbn [andb ultimo_gesto_reconhecido pontuacao proxima_letra_agendada
         buffer_gestos historico_predicoes mensagens];
    (split; [ reflexivity | ]); split; intros H.
  - repeat split.
  - exfalso. destruct H as [H | H]; [ | contradiction ].
    apply Qlt_bool_iff in Hconf. apply (Qlt_not_le _ _ Hconf H).
  - exfalso. tauto.
  - repeat split.
  - exfalso. destruct H as [H _]. apply Qlt_bool_iff in H. congruence.
  - repeat split.
  - exfalso. tauto.
  - repeat split.
Qed.

Lemma gui_prediction_effects_witness :
  let a := mkApp (repeat (processar_landmarks (mao 4)) 30) ["B"%string] 0
                 None (Some "A_DIR"%string) 0 3 0 [] in
  exists a',
    reconhecer_gesto (Some demo_model) (Some demo_classes) a = (Val tt, a') /\
    ultimo_gesto_reconhecido a' = Some "A"%string /\
    ((7 # 10 < 4 # 10)%Q /\ "B"%string = normalizar "A_DIR" ->
     pontuacao a' = pontuacao a + 10 * nivel_atual a /\
     proxima_letra_agendada a' = S (proxima_letra_agendada a) /\
     buffer_gestos a' = [] /\ historico_predicoes a' = [] /\
     mensagens a' = Correto "B"%string :: mensagens a) /\
    ((4 # 10 <= 7 # 10)%Q \/ "B"%string <> normalizar "A_DIR" ->
     pontuacao a' = pontuacao a /\
     proxima_letra_agendada a' = proxima_letra_agendada a /\
     buffer_gestos a' = buffer_gestos a /\
     historico_predicoes a' =
       Deque.append 15 (historico_predicoes a) (normalizar "A")).
Proof.
  intros a.
  apply (@gui_prediction_effects demo_model demo_classes a "A_DIR"%string
           0 (4 # 10) "A"%string "B"%string).
  - reflexivity.
  - discriminate.
  - vm_compute. reflexivity.
  - vm_compute. reflexivity.
  - reflexivity.
  - vm_compute. reflexivity.
Defined.

(** X10.  With a model, a label set and a target, nothing that goes wrong in
    the inference leaves [reconhecer_gesto]: it returns normally in every
    case, and when the window cannot be reshaped, the classifier raises
    or returns no usable row, or the top class has no label, the error
    is shown and everything else (window, history, score, last label) is
    as before. *)
Theorem gui_inference_errors_are_caught
        (modelo : classifier) (classes_ : list string) (a : app) (alvo : string)
        (e : py_exc) :
  gesto_alvo a = Some alvo -> alvo <> EmptyString ->
  (exists a', reconhecer_gesto (Some modelo) (Some classes_) a = (Val tt, a')) /\
  (reshape 30 (buffer_gestos a) = Exc e \/
   (reshape 30 (buffer_gestos a) = Val (buffer_gestos a) /\
    (top_class modelo (buffer_gestos a) = Exc e \/
     exists classe_idx confianca,
       top_class modelo (buffer_gestos a) = Val (classe_idx, confianca) /\
       index classes_ classe_idx = Exc e)) ->
   reconhecer_gesto (Some modelo) (Some classes_) a =
     (Val tt, mostrar (ErroNoReconhecimento e) a)).
Proof.
  intros Halvo Hne. split.
  - apply (GuiFacts.reconhecer_gesto_returns modelo classes_ a Halvo Hne).
  - intros [ Hshape | [Hshape [ Htop | (classe_idx & confianca & Htop & Hlabel) ]] ].
    + unfold reconhecer_gesto. run_py.
      rewrite Halvo. apply truthy_Some in Hne. rewrite Hne, Hshape. reflexivity.
    + apply (GuiFacts.reconhecer_gesto_failure modelo classes_ a Halvo Hne Hshape Htop).
    + apply (GuiFacts.reconhecer_gesto_unknown_class modelo classes_ a
               Halvo Hne Hshape Htop Hlabel).
Qed.

Lemma gui_inference_errors_are_caught_witness :
  let a := mkApp (repeat (processar_landmarks (mao 5)) 30) ["B"%string] 0
                 None (Some "A"%string) 40 3 0 [] in
  (exists a', reconhecer_gesto (Some demo_model) (Some demo_classes) a = (Val tt, a')) /\
  reconhecer_gesto (Some demo_model) (Some demo_classes) a =
    (Val tt, mostrar (ErroNoReconhecimento ModelError) a).
Proof.
  intros a.
  destruct (@gui_inference_errors_are_caught demo_model demo_classes a
              "A"%string ModelError) as [Hret Herr].
  - reflexivity.
  - discriminate.
  - split; [ exact Hret | ].
    apply Herr. right. split; [ vm_compute; reflexivity | ].
    left. vm_compute. reflexivity.
Defined.

(** The guard of [reconhecer_gesto] without a model, labels or target. *)
Lemma reconhecer_gesto_missing
      (modelo_gestos : option classifier) (le_gestos : option (list string))
      (a : app) :
  modelo_gestos = None \/ le_gestos = None \/ truthy (gesto_alvo a) = false ->
  reconhecer_gesto modelo_gestos le_gestos a = (Exc AttributeError, a).
Proof.
  intros Hmissing. unfold reconhecer_gesto. run_py.
  destruct Hmissing as [ -> | [ -> | Htarget ] ].
  - reflexivity.
  - destruct modelo_gestos; reflexivity.
  - rewrite Htarget. destruct modelo_gestos, le_gestos; reflexivity.
Qed.

(** ... and the frame that fills the window then. *)
Lemma processar_frame_missing
      (modelo_gestos : option classifier) (le_gestos : option (list string))
      (rs : results) (a : app) :
  modelo_gestos = None \/ le_gestos = None \/ truthy (gesto_alvo a) = false ->
  has_hands rs = true ->
  length (Deque.append 30 (buffer_gestos a) (processar_landmarks rs)) = 30 ->
  processar_frame modelo_gestos le_gestos rs a =
    (Exc AttributeError,
     set_buffer_gestos (Deque.append 30 (buffer_gestos a) (processar_landmarks rs))
                       (set_frames 0 a)).
Proof.
  intros Hmissing Hyes Hlen. unfold processar_frame. rewrite Hyes. run_py.
  cbn [buffer_gestos set_buffer_gestos set_frames].
  apply Nat.eqb_eq in Hlen. rewrite Hlen.
  apply reconhecer_gesto_missing. exact Hmissing.
Qed.

(** Without a model, without labels or without a target,
    [reconhecer_gesto] calls [reconhecer_gesto_simulado], which the class
    does not define: the call raises [AttributeError] and changes
    nothing.  [processar_frame] lets it through on every frame with hands
    that finds the window full, after it has pushed the sample. *)
Theorem gui_missing_fallback
        (modelo_gestos : option classifier) (le_gestos : option (list string))
        (rs : results) (a : app) :
  modelo_gestos = None \/ le_gestos = None \/ truthy (gesto_alvo a) = false ->
  reconhecer_gesto modelo_gestos le_gestos a = (Exc AttributeError, a) /\
  (has_hands rs = true ->
   length (Deque.append 30 (buffer_gestos a) (processar_landmarks rs)) = 30 ->
   processar_frame modelo_gestos le_gestos rs a =
     (Exc AttributeError,
      set_buffer_gestos (Deque.append 30 (buffer_gestos a) (processar_landmarks rs))
                        (set_frames 0 a))).
Proof.
  intros Hmissing. split.
  - apply reconhecer_gesto_missing. exact Hmissing.
  - intros Hyes Hlen. apply processar_frame_missing; assumption.
Qed.

Lemma gui_missing_fallback_witness :
  let a := mkApp (repeat (processar_landmarks (mao 1)) 29) [] 0
                 None None 0 1 0 [] in
  reconhecer_gesto (Some demo_model) (Some demo_classes) a = (Exc AttributeError, a) /\
  processar_frame (Some demo_model) (Some demo_classes) (mao 1) a =
    (Exc AttributeError,
     set_buffer_gestos (Deque.append 30 (buffer_gestos a) (processar_landmarks (mao 1)))
                       (set_frames 0 a)).
Proof.
  intros a.
  destruct (@gui_missing_fallback (Some demo_model) (Some demo_classes) (mao 1) a)
    as [Hrec Hframe].
  - right. right. reflexivity.
  - split; [ exact Hrec | ]. apply Hframe; reflexivity.
Defined.

End GuiTheorems.


(** ** The desktop application, frame after frame *)

Module GuiRuns.

Import Gui.

Lemma append_not_nil (A : Type) (maxlen : nat) (d : list A) (x : A) :
  0 < maxlen -> Deque.append maxlen d x <> [].
Proof.
  intros Hmax Hnil. apply (f_equal (@length A)) in Hnil.
  unfold Deque.append in Hnil.
  destruct (Nat.ltb_spec maxlen (length (d ++ [x]))) as [Hlt | Hge].
  - rewrite DequeFacts.length_tl in Hnil. cbn [length] in Hnil. lia.
  - rewrite length_app in Hnil. cbn [length] in Hnil. lia.
Qed.

Lemma append_length_any (A : Type) (maxlen : nat) (d : list A) (x : A) :
  length (Deque.append maxlen d x) <= Nat.max maxlen (length d).
Proof.
  unfold Deque.append.
  destruct (Nat.ltb_spec maxlen (length (d ++ [x]))) as [Hlt | Hge].
  - rewrite DequeFacts.length_tl, length_app. cbn [length]. lia.
  - lia.
Qed.

(** The two ways out of [reconhecer_gesto] once model, labels and target
    are there. *)
Lemma reconhecer_gesto_cases
      (modelo : classifier) (classes_ : list string) (a : app) (alvo : string) :
  gesto_alvo a = Some alvo -> alvo <> EmptyString ->
  (exists e, reconhecer_gesto (Some modelo) (Some classes_) a =
               (Val tt, mostrar (ErroNoReconhecimento e) a)) \/
  (exists gesto confianca gesto_final,
     reconhecer_gesto (Some modelo) (Some classes_) a =
       (Val tt, gui_after_prediction a gesto alvo confianca gesto_final)).
Proof.
  intros Halvo Hne.
  destruct (reshape 30 (buffer_gestos a)) as [w | e] eqn:Hshape.
  - destruct (reshape_Val _ _ Hshape) as (-> & _ & _).
    destruct (top_class modelo (buffer_gestos a)) as [[classe_idx confianca] | e] eqn:Htop.
    + destruct (index classes_ classe_idx) as [gesto | e] eqn:Hlabel.
      * destruct (@votacao_spec
                    (Deque.append 15 (historico_predicoes a) (normalizar gesto)))
          as (gesto_final & Hvote & _).
        { apply append_not_nil. lia. }
        right. exists gesto, confianca, gesto_final.
        apply (GuiTheorems.reconhecer_gesto_prediction modelo classes_ a
                 Halvo Hne Hshape Htop Hlabel Hvote).
      * left. exists e.
        apply (GuiFacts.reconhecer_gesto_unknown_class modelo classes_ a
                 Halvo Hne Hshape Htop Hlabel).
    + left. exists e.
      apply (GuiFacts.reconhecer_gesto_failure modelo classes_ a Halvo Hne Hshape Htop).
  - left. exists e. unfold reconhecer_gesto. run_py.
    rewrite Halvo. apply truthy_Some in Hne. rewrite Hne, Hshape. reflexivity.
Qed.

Ltac gui_fields :=
  cbn [gesto_alvo nivel_atual buffer_gestos historico_predicoes mensagens
       pontuacao proxima_letra_agendada frames_sem_maos ultimo_gesto_reconhecido
       set_buffer_gestos set_frames set_historico set_ultimo_reconhecido mostrar
       pontuar filter length Deque.clear].

(** One frame: what [processar_frame] keeps and what it counts. *)
Lemma processar_frame_step
      (modelo : classifier) (classes_ : list string) (rs : results)
      (a : app) (alvo : string) :
  gesto_alvo a = Some alvo -> alvo <> EmptyString ->
  length (buffer_gestos a) <= 30 -> length (historico_predicoes a) <= 15 ->
  exists a' n,
    processar_frame (Some modelo) (Some classes_) rs a = (Val tt, a') /\
    gesto_alvo a' = Some alvo /\ nivel_atual a' = nivel_atual a /\
    length (buffer_gestos a') <= 30 /\ length (historico_predicoes a') <= 15 /\
    n <= (if has_hands rs then 1 else 0) /\
    acertos_mostrados (mensagens a') = acertos_mostrados (mensagens a) + n /\
    pontuacao a' = pontuacao a + 10 * nivel_atual a * n /\
    proxima_letra_agendada a' = proxima_letra_agendada a + n.
Proof.
  intros Halvo Hne Hbuf Hhist.
  pose proof (@DequeFacts.append_length_le _ 30 (buffer_gestos a)
                (processar_landmarks rs) Hbuf) as Hb1.
  unfold processar_frame, acertos_mostrados.
  destruct (has_hands rs) eqn:Hyes; run_py.
  - cbn [buffer_gestos set_buffer_gestos set_frames].
    set (a1 := set_buffer_gestos _ _).
    assert (Halvo1 : gesto_alvo a1 = Some alvo) by exact Halvo.
    destruct (length (Deque.append 30 (buffer_gestos a) (processar_landmarks rs)) =? 30).
    + destruct (@reconhecer_gesto_cases modelo classes_ a1 alvo Halvo1 Hne)
        as [ (e & ->) | (gesto & confianca & gesto_final & ->) ].
      * exists (mostrar (ErroNoReconhecimento e) a1), 0.
        subst a1. gui_fields. repeat split; try assumption; lia.
      * unfold gui_after_prediction.
        destruct (Qgt_bool confianca (7 # 10) &&
                  String.eqb gesto_final (normalizar alvo)).
        -- eexists _, 1. split; [ reflexivity | ].
           subst a1. gui_fields. repeat split; try assumption; lia.
        -- eexists _, 0. split; [ reflexivity | ].
           pose proof (@append_length_any string 15 (historico_predicoes a)
                         (normalizar gesto)).
           subst a1. gui_fields.
           destruct (gesto_eqb (Some gesto) (ultimo_gesto_reconhecido a));
             gui_fields; repeat split; try assumption; lia.
    + exists a1, 0. subst a1. gui_fields. repeat split; try assumption; lia.
  - cbn [frames_sem_maos buffer_gestos set_frames].
    destruct ((RESET_THRESHOLD <? frames_sem_maos a + 1) &&
              (0 <? length (buffer_gestos a))).
    + eexists _, 0. split; [ reflexivity | ].
      gui_fields. repeat split; try assumption; lia.
    + eexists _, 0. split; [ reflexivity | ].
      gui_fields. repeat split; try assumption; lia.
Qed.

(** X11.  With a model, a label set and a target, no sequence of frames makes
    the application raise.  All along, the window holds at most 30
    samples and the history at most 15 labels; target and level stay;
    the score has grown by ten times the level for each success shown,
    and one [proxima_letra] is pending for each; there are no more
    successes than frames with hands. *)
Theorem gui_score_accounting
        (modelo : classifier) (classes_ : list string) (frames : list results)
        (a : app) (alvo : string) :
  gesto_alvo a = Some alvo -> alvo <> EmptyString ->
  length (buffer_gestos a) <= 30 -> length (historico_predicoes a) <= 15 ->
  exists a' n,
    gui_run (Some modelo) (Some classes_) frames a = (Val tt, a') /\
    gesto_alvo a' = Some alvo /\ nivel_atual a' = nivel_atual a /\
    length (buffer_gestos a') <= 30 /\ length (historico_predicoes a') <= 15 /\
    n <= length (filter has_hands frames) /\
    acertos_mostrados (mensagens a') = acertos_mostrados (mensagens a) + n /\
    pontuacao a' = pontuacao a + 10 * nivel_atual a * n /\
    proxima_letra_agendada a' = proxima_letra_agendada a + n.
Proof.
  revert a.
  induction frames as [ | rs frames IH ]; intros a Halvo Hne Hbuf Hhist.
  - exists a, 0. cbn [gui_run filter length]. repeat split; try assumption; lia.
  - destruct (@processar_frame_step modelo classes_ rs a alvo Halvo Hne Hbuf Hhist)
      as (a1 & n1 & Hstep & Halvo1 & Hniv1 & Hb1 & Hh1 & Hn1 & Hac1 & Hp1 & Hk1).
    destruct (IH a1 Halvo1 Hne Hb1 Hh1)
      as (a' & n & Hrun & Halvo' & Hniv' & Hb' & Hh' & Hn & Hac & Hp & Hk).
    exists a', (n1 + n). cbn [gui_run]. rewrite Hstep, Hrun.
    split; [ reflexivity | ].
    rewrite Hniv1 in *.
    repeat split; try assumption; try lia.
    cbn [filter]. destruct (has_hands rs); cbn [length]; lia.
Qed.

Lemma gui_score_accounting_witness :
  let a := mkApp [] [] 0 None (Some "A"%string) 0 3 0 [] in
  exists a' n,
    gui_run (Some demo_model) (Some demo_classes)
            (repeat (mao 1) 30 ++ repeat sem_maos 2) a = (Val tt, a') /\
    gesto_alvo a' = Some "A"%string /\ nivel_atual a' = nivel_atual a /\
    length (buffer_gestos a') <= 30 /\ length (historico_predicoes a') <= 15 /\
    n <= length (filter has_hands (repeat (mao 1) 30 ++ repeat sem_maos 2)) /\
    acertos_mostrados (mensagens a') = acertos_mostrados (mensagens a) + n /\
    pontuacao a' = pontuacao a + 10 * nivel_atual a * n /\
    proxima_letra_agendada a' = proxima_letra_agendada a + n.
Proof.
  intros a.
  apply (@gui_score_accounting demo_model demo_classes
           (repeat (mao 1) 30 ++ repeat sem_maos 2) a "A"%string).
  - reflexivity.
  - discriminate.
  - cbn. lia.
  - cbn. lia.
Defined.

End GuiRuns.


(** ** The desktop application with a hand that holds the target *)

Module GuiScoring.

Import Gui.

Section Holding.

Variable modelo : classifier.
Variable classes_ : list string.
Variable alvo : string.

Hypothesis Hsure : sempre_acerta modelo classes_ alvo.
Hypothesis Hne : alvo <> EmptyString.

(** A frame with hands that does not fill the window is only stored. *)
Lemma hold_filling (rs : results) (a : app) :
  has_hands rs = true -> length (buffer_gestos a) + 1 < 30 ->
  processar_frame (Some modelo) (Some classes_) rs a =
    (Val tt, set_buffer_gestos (buffer_gestos a ++ [processar_landmarks rs])
                               (set_frames 0 a)).
Proof.
  intros Hyes Hlen. unfold processar_frame. rewrite Hyes. run_py.
  cbn [buffer_gestos set_buffer_gestos set_frames].
  rewrite DequeFacts.append_not_full by lia.
  rewrite length_app. cbn [length].
  destruct (Nat.eqb_spec (length (buffer_gestos a) + 1) 30) as [Heq | _];
    [ lia | reflexivity ].
Qed.

(** The frame that fills the window scores. *)
Lemma hold_scores (rs : results) (a : app) :
  has_hands rs = true -> length (buffer_gestos a) + 1 = 30 ->
  Forall sample_ok (buffer_gestos a) -> historico_predicoes a = [] ->
  gesto_alvo a = Some alvo ->
  exists a',
    processar_frame (Some modelo) (Some classes_) rs a = (Val tt, a') /\
    buffer_gestos a' = [] /\ historico_predicoes a' = [] /\
    gesto_alvo a' = Some alvo /\ nivel_atual a' = nivel_atual a /\
    pontuacao a' = pontuacao a + 10 * nivel_atual a /\
    proxima_letra_agendada a' = S (proxima_letra_agendada a).
Proof.
  intros Hyes Hlen Hok Hhist Halvo.
  unfold processar_frame. rewrite Hyes. run_py.
  cbn [buffer_gestos set_buffer_gestos set_frames].
  rewrite DequeFacts.append_not_full by lia.
  set (w := buffer_gestos a ++ [processar_landmarks rs]).
  assert (Hw : length w = 30) by (subst w; rewrite length_app; cbn [length]; lia).
  rewrite Hw. cbn [Nat.eqb].
  assert (Hshape : reshape 30 w = Val w).
  { apply reshape_full; [ exact Hw | ].
    subst w. apply Forall_app. split; [ exact Hok | ].
    constructor; [ apply processar_landmarks_ok | constructor ]. }
  destruct (Hsure Hshape) as (classe_idx & confianca & gesto & Htop & Hconf & Hlabel & Hnorm).
  set (a1 := set_buffer_gestos w (set_frames 0 a)).
  assert (Hvote : votacao (Deque.append 15 (historico_predicoes a1) (normalizar gesto)) =
                  Val (normalizar gesto)).
  { subst a1. cbn [historico_predicoes set_buffer_gestos set_frames].
    rewrite Hhist. apply (votacao_repeat (normalizar gesto) 0). }
  rewrite (@GuiTheorems.reconhecer_gesto_prediction modelo classes_ a1 alvo
             classe_idx confianca gesto (normalizar gesto)
             Halvo Hne Hshape Htop Hlabel Hvote).
  unfold gui_after_prediction, Qgt_bool.
  apply Qlt_bool_iff in Hconf. rewrite Hconf, Hnorm, String.eqb_refl.
  cbn [andb]. eexists. split; [ reflexivity | ].
  subst a1. cbn. repeat split. exact Halvo.
Qed.

Lemma hold_run (frames : list results) :
  forall a : app,
    gesto_alvo a = Some alvo ->
    Forall (fun rs => has_hands rs = true) frames ->
    length (buffer_gestos a) < 30 -> Forall sample_ok (buffer_gestos a) ->
    historico_predicoes a = [] ->
    exists a',
      gui_run (Some modelo) (Some classes_) frames a = (Val tt, a') /\
      pontuacao a' =
        pontuacao a +
        10 * nivel_atual a * ((length (buffer_gestos a) + length frames) / 30) /\
      proxima_letra_agendada a' =
        proxima_letra_agendada a + (length (buffer_gestos a) + length frames) / 30 /\
      length (buffer_gestos a') =
        (length (buffer_gestos a) + length frames) mod 30 /\
      historico_predicoes a' = [].
Proof.
  induction frames as [ | rs frames IH ]; intros a Halvo Hall Hlen Hok Hhist.
  - exists a. cbn [gui_run length]. rewrite Nat.add_0_r.
    rewrite Nat.div_small, Nat.mod_small by exact Hlen.
    repeat split; try assumption; lia.
  - inversion Hall as [ | ? ? Hyes Hall' ]; subst.
    cbn [gui_run length].
    destruct (Nat.eq_dec (length (buffer_gestos a) + 1) 30) as [Hfull | Hnot].
    + destruct (@hold_scores rs a Hyes Hfull Hok Hhist Halvo)
        as (a1 & Hstep & Hb1 & Hh1 & Halvo1 & Hniv1 & Hp1 & Hk1).
      destruct (IH a1 Halvo1 Hall') as (a' & Hrun & Hp & Hk & Hb & Hh).
      { rewrite Hb1. cbn [length]. lia. }
      { rewrite Hb1. constructor. }
      { exact Hh1. }
      exists a'. rewrite Hstep, Hrun. split; [ reflexivity | ].
      rewrite Hb1, Hniv1 in *. cbn [length] in *. rewrite Nat.add_0_l in *.
      replace (length (buffer_gestos a) + S (length frames))
        with (1 * 30 + length frames) by lia.
      rewrite Nat.div_add_l by lia.
      rewrite (Nat.add_comm (1 * 30)), Nat.Div0.mod_add.
      rewrite Hp, Hk, Hp1, Hk1. repeat split; try assumption; lia.
    + rewrite (@hold_filling rs a Hyes) by lia.
      set (a1 := set_buffer_gestos _ _).
      destruct (IH a1) as (a' & Hrun & Hp & Hk & Hb & Hh).
      { exact Halvo. }
      { exact Hall'. }
      { subst a1. cbn [buffer_gestos set_buffer_gestos].
        rewrite length_app. cbn [length]. lia. }
      { subst a1. cbn [buffer_gestos set_buffer_gestos].
        apply Forall_app. split; [ exact Hok | ].
        constructor; [ apply processar_landmarks_ok | constructor ]. }
      { exact Hhist. }
      exists a'. rewrite Hrun. split; [ reflexivity | ].
      subst a1.
      cbn [buffer_gestos set_buffer_gestos set_frames pontuacao nivel_atual
           proxima_letra_agendada] in Hp, Hk, Hb.
      rewrite length_app in Hp, Hk, Hb. cbn [length] in Hp, Hk, Hb.
      replace (length (buffer_gestos a) + S (length frames))
        with (length (buffer_gestos a) + 1 + length frames) by lia.
      repeat split; assumption.
Qed.

End Holding.

(** X12.  A success does not pause the recognition.  From an empty window
    and an empty vote history (the state at the start and right after
    every success), while the classifier answers the target with a
    confidence above 0.7 on every window and the target is not changed,
    every thirtieth frame with hands scores again and schedules one more
    [proxima_letra]: after [n] frames with hands the score has grown by
    [10 * nivel_atual * (n / 30)]. *)
Theorem gui_scores_every_window
        (modelo : classifier) (classes_ : list string) (alvo : string)
        (frames : list results) (a : app) :
  sempre_acerta modelo classes_ alvo -> alvo <> EmptyString ->
  gesto_alvo a = Some alvo ->
  Forall (fun rs => has_hands rs = true) frames ->
  buffer_gestos a = [] -> historico_predicoes a = [] ->
  exists a',
    gui_run (Some modelo) (Some classes_) frames a = (Val tt, a') /\
    pontuacao a' = pontuacao a + 10 * nivel_atual a * (length frames / 30) /\
    proxima_letra_agendada a' = proxima_letra_agendada a + length frames / 30 /\
    length (buffer_gestos a') = length frames mod 30.
Proof.
  intros Hsure Hne Halvo Hall Hbuf Hhist.
  destruct (@hold_run modelo classes_ alvo Hsure Hne frames a Halvo Hall)
    as (a' & Hrun & Hp & Hk & Hb & _).
  - rewrite Hbuf. cbn [length]. lia.
  - rewrite Hbuf. constructor.
  - exact Hhist.
  - rewrite Hbuf in *. cbn [length] in *. rewrite Nat.add_0_l in *.
    exists a'. repeat split; assumption.
Qed.

Lemma gui_scores_every_window_witness :
  let a := mkApp [] [] 0 None (Some "A"%string) 0 2 0 [] in
  let frames := repeat (mao 1) 65 in
  exists a',
    gui_run (Some (const_model (9 # 10) (1 # 10))) (Some ["A_DIR"; "B"]%string)
            frames a = (Val tt, a') /\
    pontuacao a' = pontuacao a + 10 * nivel_atual a * (length frames / 30) /\
    proxima_letra_agendada a' = proxima_letra_agendada a + length frames / 30 /\
    length (buffer_gestos a') = length frames mod 30.
Proof.
  intros a frames.
  apply (@gui_scores_every_window (const_model (9 # 10) (1 # 10))
           ["A_DIR"; "B"]%string "A"%string frames a).
  - intros w _. exists 0, (9 # 10)%Q, "A_DIR"%string.
    repeat split.
  - discriminate.
  - reflexivity.
  - repeat constructor.
  - reflexivity.
  - reflexivity.
Defined.

End GuiScoring.


(** ** Left-hand and right-hand labels *)

Module GuiLabels.

Import Gui.

(** Nothing is replaced inside a prefix that has no [_], when the
    pattern starts with [_]. *)
Lemma replace_from_prefix (p new s t : string) :
  sem_sublinhado s = true ->
  replace_from (String (Ascii.ascii_of_nat 95) p) new 0 (String.append s t) =
  String.append s (replace_from (String (Ascii.ascii_of_nat 95) p) new 0 t).
Proof.
  induction s as [ | c s IH ]; intros Hs.
  - reflexivity.
  - cbn [sem_sublinhado] in Hs. apply andb_true_iff in Hs. destruct Hs as [Hc Hs].
    cbn [String.append replace_from startswith].
    destruct (Ascii.eqb_spec (Ascii.ascii_of_nat 95) c) as [Heq | Hneq].
    + subst c. rewrite Ascii.eqb_refl in Hc. discriminate Hc.
    + cbn [andb]. rewrite IH by exact Hs. reflexivity.
Qed.

Lemma append_empty (s : string) : String.append s EmptyString = s.
Proof. induction s as [ | c s IH ]; cbn; [ | rewrite IH ]; reflexivity. Qed.

(** X13.  For a label [g] without [_], the labels [g], [g_DIR] and [g_ESQ] are
    normalised to [g]: the two hands of one sign vote for the same entry
    of the history and match the same target. *)
Theorem normalizar_hand_suffix (g : string) :
  sem_sublinhado g = true ->
  normalizar g = g /\
  normalizar (String.append g "_DIR") = g /\
  normalizar (String.append g "_ESQ") = g.
Proof.
  intros Hg. unfold normalizar, replace.
  assert (Hclean : forall p, replace_from (String (Ascii.ascii_of_nat 95) p)
                               EmptyString 0 g = g).
  { intros p. rewrite <- (append_empty g) at 1.
    rewrite replace_from_prefix by exact Hg. cbn [replace_from]. apply append_empty. }
  change "_DIR"%string with (String (Ascii.ascii_of_nat 95) "DIR").
  change "_ESQ"%string with (String (Ascii.ascii_of_nat 95) "ESQ").
  repeat split.
  - rewrite !Hclean. reflexivity.
  - rewrite (@replace_from_prefix "DIR" EmptyString g _ Hg).
    change (replace_from (String (Ascii.ascii_of_nat 95) "DIR") EmptyString 0
              (String (Ascii.ascii_of_nat 95) "DIR")) with EmptyString.
    rewrite append_empty. apply Hclean.
  - rewrite (@replace_from_prefix "DIR" EmptyString g _ Hg).
    change (replace_from (String (Ascii.ascii_of_nat 95) "DIR") EmptyString 0
              (String (Ascii.ascii_of_nat 95) "ESQ"))
      with (String (Ascii.ascii_of_nat 95) "ESQ").
    rewrite (@replace_from_prefix "ESQ" EmptyString g _ Hg).
    change (replace_from (String (Ascii.ascii_of_nat 95) "ESQ") EmptyString 0
              (String (Ascii.ascii_of_nat 95) "ESQ")) with EmptyString.
    apply append_empty.
Qed.

Lemma normalizar_hand_suffix_witness :
  normalizar "OBRIGADO" = "OBRIGADO"%string /\
  normalizar (String.append "OBRIGADO" "_DIR") = "OBRIGADO"%string /\
  normalizar (String.append "OBRIGADO" "_ESQ") = "OBRIGADO"%string.
Proof.
  apply (@normalizar_hand_suffix "OBRIGADO"%string).
  reflexivity.
Defined.

End GuiLabels.


(** ** Letters, levels and sections of the desktop application *)

Module NiveisFacts.

Import Niveis.

Ltac run_nv := cbv beta iota delta [bindN getN modifyN retN liftN].

Lemma getitem_append_at (d : list (string * list nat)) (k : string) (x : nat)
      (s : string) :
  getitem String.eqb (append_at d k x) s =
  match getitem String.eqb d s with
  | inl l => inl (if String.eqb s k then l ++ [x] else l)
  | inr e => inr e
  end.
Proof.
  induction d as [ | [k' v] d IH ]; cbn [append_at getitem].
  - reflexivity.
  - destruct (String.eqb_spec k' k) as [Hk | Hk]; cbn [getitem].
    + subst k'. destruct (String.eqb_spec k s) as [Hs | Hs].
      * subst s. rewrite String.eqb_refl. reflexivity.
      * destruct (getitem String.eqb d s); [ | reflexivity ].
        destruct (String.eqb_spec s k); [ congruence | reflexivity ].
    + destruct (String.eqb_spec k' s) as [Hs | Hs].
      * subst s. destruct (String.eqb_spec k' k); [ contradiction | reflexivity ].
      * exact IH.
Qed.

Lemma contem_snoc (l : list string) (y s : string) :
  contem (l ++ [y]) s = contem l s || String.eqb s y.
Proof.
  unfold contem. rewrite existsb_app. cbn [existsb]. rewrite orb_false_r. reflexivity.
Qed.

Lemma contem_nivel_snoc (l : list nat) (y n : nat) :
  contem_nivel (l ++ [y]) n = contem_nivel l n || (n =? y).
Proof.
  unfold contem_nivel. rewrite existsb_app. cbn [existsb]. rewrite orb_false_r.
  reflexivity.
Qed.

Lemma contem_In (l : list string) (s : string) : contem l s = true <-> In s l.
Proof.
  unfold contem. rewrite existsb_exists. split.
  - intros (y & Hy & Heq). apply String.eqb_eq in Heq. subst y. exact Hy.
  - intros Hs. exists s. split; [ exact Hs | apply String.eqb_refl ].
Qed.

Lemma contem_nivel_In (l : list nat) (n : nat) : contem_nivel l n = true <-> In n l.
Proof.
  unfold contem_nivel. rewrite existsb_exists. split.
  - intros (y & Hy & Heq). apply Nat.eqb_eq in Heq. subst y. exact Hy.
  - intros Hn. exists n. split; [ exact Hn | apply Nat.eqb_refl ].
Qed.

Lemma NoDup_snoc (A : Type) (l : list A) (x : A) :
  NoDup l -> ~ In x l -> NoDup (l ++ [x]).
Proof.
  intros Hl Hx. apply NoDup_app.
  - exact Hl.
  - repeat constructor. intros [].
  - intros y Hy [Heq | []]. subst y. contradiction.
Qed.

(** A key of the table has a position among the names, and what follows
    that position is the next section. *)
Lemma list_index_seguinte (V : Type) (d : list (string * V)) (s : string) (v : V) :
  getitem String.eqb d s = inl v ->
  exists i, list_index (map fst d) s = inl i /\
    if i <? length (map fst d) - 1
    then exists p, item (map fst d) (i + 1) = inl p /\ seguinte (map fst d) s = Some p
    else seguinte (map fst d) s = None.
Proof.
  induction d as [ | [k' v'] d IH ]; cbn [getitem map fst list_index seguinte length].
  - discriminate.
  - replace (S (length (map fst d)) - 1) with (length (map fst d)) by lia.
    destruct (String.eqb_spec k' s) as [Hs | Hs].
    + intros _. exists 0. split; [ reflexivity | ].
      destruct (map fst d) as [ | p rest ]; cbn [length].
      * reflexivity.
      * cbn. exists p. split; reflexivity.
    + intros Hget. destruct (IH Hget) as (i & Hidx & Hnext).
      exists (S i). rewrite Hidx. split; [ reflexivity | ].
      destruct (map fst d) as [ | q rest ] eqn:Hnomes.
      * cbn [list_index] in Hidx. discriminate Hidx.
      * cbn [length] in *.
        replace (S (length rest) - 1) with (length rest) in Hnext by lia.
        change (S i <? S (length rest)) with (i <? length rest).
        destruct (i <? length rest).
        -- destruct Hnext as (p & Hitem & Hseg). exists p. split; [ | exact Hseg ].
           unfold item in *. cbn [Nat.add nth_error] in *. exact Hitem.
        -- exact Hnext.
Qed.

(** A call while letters are left only moves to the next letter. *)
Lemma proxima_letra_next (secoes : list (string * list (nat * list string)))
      (j : jogo) (c : string) :
  nth_error (letras_nivel j) (letra_atual_idx j) = Some c ->
  proxima_letra secoes j = (inl tt, set_alvo c j).
Proof.
  intros Hc. unfold proxima_letra. run_nv.
  assert (Hlt : letra_atual_idx j < length (letras_nivel j))
    by (apply nth_error_Some; congruence).
  apply Nat.ltb_lt in Hlt. rewrite Hlt. unfold item. rewrite Hc. reflexivity.
Qed.

Lemma avancar_walk (secoes : list (string * list (nat * list string))) (k : nat) :
  forall j : jogo,
    letra_atual_idx j + k <= length (letras_nivel j) ->
    exists j',
      avancar secoes k j = (inl tt, j') /\
      letra_atual_idx j' = letra_atual_idx j + k /\
      letras_nivel j' = letras_nivel j /\
      secao_atual j' = secao_atual j /\ nivel_atual j' = nivel_atual j /\
      niveis_completos j' = niveis_completos j /\
      secoes_liberadas j' = secoes_liberadas j /\
      parabens j' = parabens j /\
      (0 < k -> gesto_alvo j' =
                nth_error (letras_nivel j) (letra_atual_idx j + k - 1)).
Proof.
  induction k as [ | k IH ]; intros j Hk.
  - exists j. cbn [avancar]. unfold retN. rewrite Nat.add_0_r.
    repeat split; try reflexivity. intros H. inversion H.
  - destruct (nth_error (letras_nivel j) (letra_atual_idx j)) as [c | ] eqn:Hc.
    2: { apply nth_error_None in Hc. lia. }
    cbn [avancar]. unfold bindN at 1. rewrite (proxima_letra_next secoes j Hc).
    destruct (IH (set_alvo c j)) as (j' & Hrun & Hidx & Hlet & Hs & Hn & Hcomp & Hlib & Hpar & Halvo).
    { cbn [set_alvo letra_atual_idx letras_nivel]. lia. }
    exists j'. rewrite Hrun.
    cbn [set_alvo letra_atual_idx letras_nivel secao_atual nivel_atual
         niveis_completos secoes_liberadas parabens gesto_alvo] in *.
    repeat split; try assumption; try lia.
    intros _. destruct k as [ | k ].
    + cbn [avancar] in Hrun. unfold retN in Hrun. injection Hrun as <-.
      cbn [gesto_alvo set_alvo]. rewrite <- Hc. f_equal. lia.
    + rewrite Halvo by lia. f_equal. lia.
Qed.

(** X14.  A level is walked letter by letter, in the order of the table.
    [iniciar_nivel_real] shows the first letter; each later call of
    [proxima_letra] shows the next one.  While letters are left, nothing
    is marked complete, nothing is unlocked and the congratulation
    screen is not shown. *)
Theorem level_walk
        (secoes : list (string * list (nat * list string)))
        (secao : string) (nivel : nat) (niveis : list (nat * list string))
        (letras : list string) (k : nat) (j : jogo) :
  getitem String.eqb secoes secao = inl niveis ->
  getitem Nat.eqb niveis nivel = inl letras ->
  k < length letras ->
  exists j',
    bindN (iniciar_nivel_real secoes secao nivel) (fun _ => avancar secoes k) j =
      (inl tt, j') /\
    gesto_alvo j' = nth_error letras k /\
    letra_atual_idx j' = S k /\
    secao_atual j' = secao /\ nivel_atual j' = nivel /\
    letras_nivel j' = letras /\
    niveis_completos j' = niveis_completos j /\
    secoes_liberadas j' = secoes_liberadas j /\
    parabens j' = parabens j.
Proof.
  intros Hsec Hniv Hk.
  set (j0 := set_letras letras 0 (set_nivel secao nivel j)).
  assert (Hstart : iniciar_nivel_real secoes secao nivel j =
                   avancar secoes 1 j0).
  { unfold iniciar_nivel_real. run_nv. rewrite Hsec, Hniv.
    cbn [avancar]. run_nv. fold j0. destruct (proxima_letra secoes j0) as [[[] | e] j1];
      reflexivity. }
  assert (Hjoin : bindN (iniciar_nivel_real secoes secao nivel)
                        (fun _ => avancar secoes k) j =
                  avancar secoes (S k) j0).
  { unfold bindN at 1. rewrite Hstart. cbn [avancar]. run_nv.
    destruct (proxima_letra secoes j0) as [[[] | e] j1]; reflexivity. }
  rewrite Hjoin.
  destruct (@avancar_walk secoes (S k) j0)
    as (j' & Hrun & Hidx & Hlet & Hs & Hn & Hcomp & Hlib & Hpar & Halvo).
  { subst j0. cbn [letra_atual_idx letras_nivel set_letras]. lia. }
  exists j'. subst j0.
  cbn [set_letras set_nivel letra_atual_idx letras_nivel secao_atual nivel_atual
       niveis_completos secoes_liberadas parabens] in *.
  repeat split; try assumption.
  rewrite Halvo by lia. f_equal. lia.
Qed.

Lemma level_walk_witness :
  exists j',
    bindN (iniciar_nivel_real tabela_demo "Alfabeto" 1)
          (fun _ => avancar tabela_demo 2) (inicial tabela_demo) = (inl tt, j') /\
    gesto_alvo j' = nth_error ["A"; "E"; "I"]%string 2 /\
    letra_atual_idx j' = 3 /\
    secao_atual j' = "Alfabeto"%string /\ nivel_atual j' = 1 /\
    letras_nivel j' = ["A"; "E"; "I"]%string /\
    niveis_completos j' = niveis_completos (inicial tabela_demo) /\
    secoes_liberadas j' = secoes_liberadas (inicial tabela_demo) /\
    parabens j' = parabens (inicial tabela_demo).
Proof.
  apply (@level_walk tabela_demo "Alfabeto"%string 1
           [ (1, ["A"; "E"; "I"]); (2, ["B"; "C"]) ]%string
           ["A"; "E"; "I"]%string 2 (inicial tabela_demo)).
  - reflexivity.
  - reflexivity.
  - cbn. lia.
Defined.

(** [l.append(x)] guarded by [x not in l]. *)
Lemma guarded_append_contem (l : list string) (x s : string) :
  contem (if contem l x then l else l ++ [x]) s = contem l s || String.eqb s x.
Proof.
  destruct (contem l x) eqn:Hx.
  - destruct (String.eqb_spec s x) as [-> | _].
    + rewrite Hx. reflexivity.
    + rewrite orb_false_r. reflexivity.
  - apply contem_snoc.
Qed.

Lemma guarded_append_NoDup (l : list string) (x : string) :
  NoDup l -> NoDup (if contem l x then l else l ++ [x]).
Proof.
  intros Hl. destruct (contem l x) eqn:Hx; [ exact Hl | ].
  apply NoDup_snoc; [ exact Hl | ].
  intros Hin. apply contem_In in Hin. congruence.
Qed.

(** The call of [proxima_letra] that finds no letter left. *)
Lemma proxima_letra_complete
      (secoes : list (string * list (nat * list string))) (j : jogo)
      (completos : list nat) (niveis : list (nat * list string)) :
  length (letras_nivel j) <= letra_atual_idx j ->
  getitem String.eqb (niveis_completos j) (secao_atual j) = inl completos ->
  getitem String.eqb secoes (secao_atual j) = inl niveis ->
  proxima_letra secoes j =
    (inl tt,
     mkJogo (secao_atual j) (nivel_atual j) (letras_nivel j) (letra_atual_idx j)
            (gesto_alvo j)
            (if contem_nivel completos (nivel_atual j)
             then niveis_completos j
             else append_at (niveis_completos j) (secao_atual j) (nivel_atual j))
            (if nivel_atual j =? length niveis
             then
               let l1 := if contem (secoes_liberadas j) (secao_atual j)
                         then secoes_liberadas j
                         else secoes_liberadas j ++ [secao_atual j] in
               match seguinte (map fst secoes) (secao_atual j) with
               | Some p => if contem l1 p then l1 else l1 ++ [p]
               | None => l1
               end
             else secoes_liberadas j)
            (S (parabens j))).
Proof.
  intros Hidx Hcomp Hsec.
  destruct (list_index_seguinte _ _ Hsec) as (i & Hi & Hnext).
  unfold proxima_letra. run_nv.
  apply Nat.ltb_ge in Hidx. rewrite Hidx, Hcomp, Hsec, Hi.
  destruct j as [secao nivel letras idx alvo comp lib par].
  cbn [secao_atual nivel_atual letras_nivel letra_atual_idx gesto_alvo
       niveis_completos secoes_liberadas parabens] in *.
  destruct (contem_nivel completos nivel); cbn [negb];
    destruct (nivel =? length niveis);
    cbn [set_completos liberar mostrar_tela_parabens
         secao_atual nivel_atual letras_nivel letra_atual_idx gesto_alvo
         niveis_completos secoes_liberadas parabens];
    try reflexivity;
    destruct (contem lib secao); cbn [negb];
    cbn [set_completos liberar mostrar_tela_parabens
         secao_atual nivel_atual letras_nivel letra_atual_idx gesto_alvo
         niveis_completos secoes_liberadas parabens];
    destruct (i <? length (map fst secoes) - 1);
    try (rewrite Hnext; reflexivity);
    destruct Hnext as (p & -> & ->);
    cbn [set_completos liberar mostrar_tela_parabens
         secao_atual nivel_atual letras_nivel letra_atual_idx gesto_alvo
         niveis_completos secoes_liberadas parabens];
    match goal with |- context [contem ?l p] => destruct (contem l p) end;
    reflexivity.
Qed.

(** X15.  The call of [proxima_letra] after the last letter ends the level.
    The level is recorded as completed in its section, once however
    often this happens; the congratulation screen is shown each time.
    Sections are unlocked only by the level whose number is the number
    of levels of its section: then the section itself and the one that
    follows it in the table are open afterwards.  Nothing is ever locked
    again, and the list of open sections gets no duplicate. *)
Theorem level_completion
        (secoes : list (string * list (nat * list string))) (j : jogo)
        (completos : list nat) (niveis : list (nat * list string)) :
  length (letras_nivel j) <= letra_atual_idx j ->
  getitem String.eqb (niveis_completos j) (secao_atual j) = inl completos ->
  getitem String.eqb secoes (secao_atual j) = inl niveis ->
  exists j',
    proxima_letra secoes j = (inl tt, j') /\
    (secao_atual j' = secao_atual j /\ nivel_atual j' = nivel_atual j /\
     gesto_alvo j' = gesto_alvo j /\ letra_atual_idx j' = letra_atual_idx j) /\
    parabens j' = S (parabens j) /\
    (forall s n,
       contem_nivel (completos_de s j') n =
       contem_nivel (completos_de s j) n ||
       (String.eqb s (secao_atual j) && (n =? nivel_atual j))) /\
    (NoDup completos -> NoDup (completos_de (secao_atual j) j')) /\
    (forall s,
       contem (secoes_liberadas j') s =
       contem (secoes_liberadas j) s ||
       ((nivel_atual j =? length niveis) &&
        (String.eqb s (secao_atual j) ||
         match seguinte (map fst secoes) (secao_atual j) with
         | Some p => String.eqb s p
         | None => false
         end))) /\
    (NoDup (secoes_liberadas j) -> NoDup (secoes_liberadas j')).
Proof.
  intros Hidx Hcomp Hsec.
  eexists. split; [ apply (proxima_letra_complete secoes j Hidx Hcomp Hsec) | ].
  cbn [secao_atual nivel_atual gesto_alvo letra_atual_idx parabens
       niveis_completos secoes_liberadas].
  split; [ repeat split | ]. split; [ reflexivity | ].
  split; [ | split; [ | split ] ].
  - intros s n. unfold completos_de.
    cbn [niveis_completos].
    destruct (contem_nivel completos (nivel_atual j)) eqn:Hin.
    + destruct (String.eqb_spec s (secao_atual j)) as [-> | _];
        [ | rewrite orb_false_r; reflexivity ].
      rewrite Hcomp. destruct (Nat.eqb_spec n (nivel_atual j)) as [-> | _].
      * rewrite Hin. reflexivity.
      * rewrite orb_false_r. reflexivity.
    + rewrite getitem_append_at.
      destruct (getitem String.eqb (niveis_completos j) s) as [l | e] eqn:Hs.
      * destruct (String.eqb s (secao_atual j)).
        -- apply contem_nivel_snoc.
        -- rewrite orb_false_r. reflexivity.
      * destruct (String.eqb_spec s (secao_atual j)) as [-> | _].
        -- rewrite Hcomp in Hs. discriminate Hs.
        -- reflexivity.
  - intros Hnd. unfold completos_de. cbn [niveis_completos].
    destruct (contem_nivel completos (nivel_atual j)) eqn:Hin.
    + rewrite Hcomp. exact Hnd.
    + rewrite getitem_append_at, Hcomp, String.eqb_refl.
      apply NoDup_snoc; [ exact Hnd | ].
      intros H. apply contem_nivel_In in H. congruence.
  - intros s. destruct (nivel_atual j =? length niveis); cbn [andb].
    + cbv zeta.
      destruct (seguinte (map fst secoes) (secao_atual j)) as [p | ].
      * rewrite !guarded_append_contem, orb_assoc. reflexivity.
      * rewrite guarded_append_contem, orb_false_r. reflexivity.
    + rewrite orb_false_r. reflexivity.
  - intros Hnd. destruct (nivel_atual j =? length niveis); [ | exact Hnd ].
    cbv zeta.
    destruct (seguinte (map fst secoes) (secao_atual j)) as [p | ].
    + apply guarded_append_NoDup, guarded_append_NoDup, Hnd.
    + apply guarded_append_NoDup, Hnd.
Qed.

Lemma level_completion_witness :
  let j := mkJogo "Alfabeto"%string 2 ["B"; "C"]%string 2 (Some "C"%string)
                  [("Alfabeto"%string, [1]); ("Cores"%string, [])]
                  ["Alfabeto"%string] 0 in
  exists j',
    proxima_letra tabela_demo j = (inl tt, j') /\
    (secao_atual j' = secao_atual j /\ nivel_atual j' = nivel_atual j /\
     gesto_alvo j' = gesto_alvo j /\ letra_atual_idx j' = letra_atual_idx j) /\
    parabens j' = S (parabens j) /\
    (forall s n,
       contem_nivel (completos_de s j') n =
       contem_nivel (completos_de s j) n ||
       (String.eqb s (secao_atual j) && (n =? nivel_atual j))) /\
    (NoDup [1] -> NoDup (completos_de (secao_atual j) j')) /\
    (forall s,
       contem (secoes_liberadas j') s =
       contem (secoes_liberadas j) s ||
       ((nivel_atual j =? 2) &&
        (String.eqb s (secao_atual j) ||
         match seguinte (map fst tabela_demo) (secao_atual j) with
         | Some p => String.eqb s p
         | None => false
         end))) /\
    (NoDup (secoes_liberadas j) -> NoDup (secoes_liberadas j')).
Proof.
  intros j.
  apply (@level_completion tabela_demo j [1]
           [ (1, ["A"; "E"; "I"]); (2, ["B"; "C"]) ]%string).
  - cbn. lia.
  - reflexivity.
  - reflexivity.
Defined.

(** X16.  On the card of a section, the button of a level other than the
    first is enabled exactly when that level itself has been completed.
    Ending a level therefore changes the button of no other level from
    the second on: the level that comes next is not enabled by it. *)
Theorem card_keeps_later_levels_locked
        (secoes : list (string * list (nat * list string))) (j : jogo)
        (completos : list nat) (niveis : list (nat * list string))
        (s : string) (n : nat) :
  length (letras_nivel j) <= letra_atual_idx j ->
  getitem String.eqb (niveis_completos j) (secao_atual j) = inl completos ->
  getitem String.eqb secoes (secao_atual j) = inl niveis ->
  2 <= n ->
  nivel_liberado s n j =
    match getitem String.eqb (niveis_completos j) s with
    | inl l => inl (contem_nivel l n)
    | inr e => inr e
    end /\
  (s <> secao_atual j \/ n <> nivel_atual j ->
   nivel_liberado s n (snd (proxima_letra secoes j)) = nivel_liberado s n j).
Proof.
  intros Hidx Hcomp Hsec Hn.
  assert (Hcard : forall j0, nivel_liberado s n j0 =
                    match getitem String.eqb (niveis_completos j0) s with
                    | inl l => inl (contem_nivel l n)
                    | inr e => inr e
                    end).
  { intros j0. unfold nivel_liberado.
    destruct (getitem String.eqb (niveis_completos j0) s); [ | reflexivity ].
    destruct (Nat.eqb_spec n 1); [ lia | reflexivity ]. }
  split; [ apply Hcard | ].
  intros Hother. rewrite !Hcard.
  rewrite (proxima_letra_complete secoes j Hidx Hcomp Hsec).
  cbn [snd niveis_completos].
  destruct (contem_nivel completos (nivel_atual j)); [ reflexivity | ].
  rewrite getitem_append_at.
  destruct (getitem String.eqb (niveis_completos j) s) as [l | e]; [ | reflexivity ].
  destruct (String.eqb_spec s (secao_atual j)) as [Heq | _]; [ | reflexivity ].
  rewrite contem_nivel_snoc.
  destruct (Nat.eqb_spec n (nivel_atual j)) as [Hnn | _].
  - destruct Hother; contradiction.
  - rewrite orb_false_r. reflexivity.
Qed.

Lemma card_keeps_later_levels_locked_witness :
  let j := mkJogo "Alfabeto"%string 1 ["A"; "E"; "I"]%string 3 (Some "I"%string)
                  [("Alfabeto"%string, []); ("Cores"%string, [])]
                  ["Alfabeto"%string] 0 in
  nivel_liberado "Alfabeto" 2 j =
    match getitem String.eqb (niveis_completos j) "Alfabeto"%string with
    | inl l => inl (contem_nivel l 2)
    | inr e => inr e
    end /\
  ("Alfabeto"%string <> secao_atual j \/ 2 <> nivel_atual j ->
   nivel_liberado "Alfabeto" 2 (snd (proxima_letra tabela_demo j)) =
   nivel_liberado "Alfabeto" 2 j).
Proof.
  intros j.
  apply (@card_keeps_later_levels_locked tabela_demo j []
           [ (1, ["A"; "E"; "I"]); (2, ["B"; "C"]) ]%string "Alfabeto"%string 2).
  - cbn. lia.
  - reflexivity.
  - reflexivity.
  - lia.
Defined.


End NiveisFacts.


(** ** The score of a practice session *)

Module SessionScore.

Section Labels.

Variable model : classifier.
Variable classes : list string.
Variable min_confidence : Q.

Local Abbreviation known := (fun g : string => In g classes).

(** [reconhecer] without a label leaves the history alone. *)
Lemma reconhecer_None (r r' : recognizer) (c : Q) :
  reconhecer model classes min_confidence r = (Val (None, c), r') ->
  prediction_history r' = prediction_history r.
Proof.
  unfold reconhecer. run_py.
  destruct (length (buffer r) <? SEQUENCE_LENGTH).
  { intros H. injection H as <- <-. reflexivity. }
  destruct (reshape SEQUENCE_LENGTH (buffer r)) as [entrada | e]; [ | discriminate ].
  simpl.
  destruct (model entrada) as [batch | e]; [ | discriminate ].
  destruct (index batch 0) as [predicoes | e]; [ | discriminate ].
  destruct (argmax predicoes) as [classe_idx | e]; [ | discriminate ].
  destruct (index predicoes classe_idx) as [confianca | e]; [ | discriminate ].
  destruct (Qlt_bool confianca min_confidence).
  { intros H. injection H as <- <-. reflexivity. }
  destruct (index classes classe_idx) as [gesto | e]; [ | discriminate ].
  simpl. destruct (votacao _) as [gesto_final | e]; discriminate.
Qed.

Lemma index_In (A : Type) (xs : list A) (i : nat) (x : A) :
  index xs i = Val x -> In x xs.
Proof.
  unfold index. destruct (nth_error xs i) as [y | ] eqn:Hnth; [ | discriminate ].
  intros H. injection H as <-. apply (nth_error_In _ _ Hnth).
Qed.

(** The history holds labels of the label set only, and so does every
    report. *)
Lemma processar_frame_known (rs : results) (r r' : recognizer) (out : frame_out) :
  processar_frame model classes min_confidence rs r = (Val out, r') ->
  Forall known (prediction_history r) ->
  Forall known (prediction_history r') /\
  (forall g c, evento out = Some (Some g, c) -> In g classes).
Proof.
  intros Hstep Hhist.
  destruct (has_hands rs) eqn:Hyes.
  - destruct (Nat.eq_dec (length (pushed rs r)) SEQUENCE_LENGTH) as [Hfull | Hnot].
    + rewrite (processar_frame_full model classes min_confidence rs r Hyes Hfull)
        in Hstep.
      set (r0 := set_buffer (pushed rs r) (set_frames_sem_maos 0 r)) in *.
      destruct (reconhecer model classes min_confidence r0)
        as [[[[g | ] c] | e] r1] eqn:Hrec; [ | | discriminate Hstep ].
      * destruct (reconhecer_Some _ _ _ _ Hrec)
          as (classe_idx & gesto & _ & _ & Hlabel & -> & Hvote).
        assert (Hvoted : Forall known (voted gesto r0)).
        { unfold voted. apply DequeFacts.append_Forall.
          - exact Hhist.
          - apply (index_In _ _ Hlabel). }
        assert (Hg : In g classes).
        { destruct (votacao_spec (voted_not_nil gesto r0)) as (g' & Hv & Hfirst).
          rewrite Hvote in Hv. injection Hv as <-.
          destruct Hfirst as (antes & depois & Heq & _).
          rewrite Forall_forall in Hvoted. apply Hvoted.
          rewrite Heq. apply in_or_app. right. left. reflexivity. }
        destruct (truthy (Some g) && negb (gesto_eqb (Some g) _));
          injection Hstep as <- <-.
        -- split; [ exact Hvoted | ].
           intros g' c' Hev. cbn in Hev. injection Hev as <- <-. exact Hg.
        -- split; [ exact Hvoted | ]. intros g' c' Hev. discriminate Hev.
      * apply reconhecer_None in Hrec.
        cbn [truthy andb] in Hstep. injection Hstep as <- <-.
        split; [ rewrite Hrec; exact Hhist | ].
        intros g' c' Hev. discriminate Hev.
    + rewrite (processar_frame_filling model classes min_confidence rs r Hyes Hnot)
        in Hstep.
      injection Hstep as <- <-. split; [ exact Hhist | ].
      intros g' c' Hev. discriminate Hev.
  - rewrite processar_frame_absent in Hstep by exact Hyes.
    injection Hstep as <- <-. split.
    + destruct ((RESET_THRESHOLD <? frames_sem_maos r + 1) && (0 <? length (buffer r)));
        [ constructor | exact Hhist ].
    + intros g' c' Hev. discriminate Hev.
Qed.

(** What the loop prints while no handled key is pressed, also when it
    ends by an exception. *)
Lemma quiet_reports (reads : list (option results)) :
  forall (r r' : recognizer) (st : loop_status) (evs : list (option string * Q)),
    main_loop model classes min_confidence (quiet reads) r = (st, r', evs) ->
    Forall known (prediction_history r) ->
    alternating (ultimo_gesto r) (rotulos evs) /\
    Forall known (rotulos evs) /\
    length (rotulos evs) = length evs /\
    Forall (fun ev => exists g, fst ev = Some g) evs.
Proof.
  induction reads as [ | [rs | ] reads IH ]; intros r r' st evs Hloop Hhist.
  - cbn in Hloop. injection Hloop as <- <- <-. cbn. repeat split; constructor.
  - cbn [quiet map main_loop] in Hloop. fold (quiet reads) in Hloop.
    destruct (processar_frame model classes min_confidence rs r)
      as [[out | e] r1] eqn:Hstep.
    2: { injection Hloop as <- <- <-. cbn. repeat split; constructor. }
    destruct (main_loop model classes min_confidence (quiet reads) r1)
      as [[st1 r2] evs1] eqn:Hrest.
    injection Hloop as <- <- <-.
    destruct (processar_frame_known _ _ Hstep Hhist) as [Hhist1 Hknown].
    destruct (IH _ _ _ _ Hrest Hhist1) as (Halt & Hall & Hlen & Hsome).
    apply processar_frame_report in Hstep.
    destruct Hstep as [ (_ & Hev & Hu & _) | (g & c & _ & Hev & _ & Hneq & _ & Hu & _) ].
    + rewrite Hev. cbn [app]. rewrite <- Hu. repeat split; assumption.
    + rewrite Hev. cbn [app rotulos flat_map fst length]. fold (rotulos evs1).
      rewrite Hu in Halt. repeat split.
      * exact Hneq.
      * exact Halt.
      * constructor; [ apply (Hknown g c Hev) | exact Hall ].
      * rewrite Hlen. reflexivity.
      * constructor; [ exists g; reflexivity | exact Hsome ].
  - cbn [quiet map main_loop] in Hloop. fold (quiet reads) in Hloop.
    apply (IH _ _ _ _ Hloop Hhist).
Qed.

End Labels.

Section Counting.

Variable upper : string -> string.
Variable classes : list string.
Variable gesto_alvo : option string.

Hypothesis Hcase :
  forall g g', In g classes -> In g' classes -> upper g = upper g' -> g = g'.

(** The counts are the number of reports and of correct labels. *)
Lemma placar_counts (evs : list (option string * Q)) :
  truthy gesto_alvo = true ->
  Forall (fun ev => exists g, fst ev = Some g) evs ->
  forall p,
    placar upper gesto_alvo evs p =
      Val (fst p + length (corretos upper gesto_alvo (rotulos evs)),
           snd p + length evs).
Proof.
  intros Halvo. induction 1 as [ | ev evs (g & Hg) _ IH ]; intros [a t].
  - cbn. rewrite !Nat.add_0_r. reflexivity.
  - cbn [placar]. unfold contar_evento. rewrite Halvo, Hg. cbv zeta.
    rewrite IH. unfold corretos.
    cbn [rotulos flat_map fst snd app length]. rewrite Hg. cbn [app filter].
    fold (rotulos evs).
    destruct (gesto_eqb (Some (upper g)) gesto_alvo); cbn [fst snd length];
      f_equal; f_equal; lia.
Qed.

(** Labels that never repeat in a row are correct at most every other
    time. *)
Lemma alternating_corretos (labels : list string) :
  forall last : option string,
    alternating last labels -> Forall (fun g => In g classes) labels ->
    2 * length (corretos upper gesto_alvo labels) <= length labels + 1 /\
    (forall prev, last = Some prev -> In prev classes ->
                  Some (upper prev) = gesto_alvo ->
                  2 * length (corretos upper gesto_alvo labels) <= length labels).
Proof.
  induction labels as [ | g labels IH ]; intros last Halt Hall.
  - cbn. split; [ lia | intros; lia ].
  - destruct Halt as [Hneq Halt]. inversion Hall as [ | ? ? Hg Hall' ]; subst.
    destruct (IH (Some g) Halt Hall') as [Hany Hafter].
    unfold corretos in *. cbn [filter length].
    destruct (gesto_eqb (Some (upper g)) gesto_alvo) eqn:Hhit; cbn [length].
    + apply gesto_eqb_eq in Hhit.
      specialize (Hafter g eq_refl Hg Hhit).
      split; [ lia | ].
      intros prev -> Hprev Hup. exfalso. apply Hneq. f_equal.
      apply Hcase; try assumption. congruence.
    + split; [ lia | intros; lia ].
Qed.

End Counting.

(** X17.  With a target set and no handled key pressed, every reported
    recognition is an attempt, and the hits are the reports whose label in
    upper case is the target.  Because the recogniser never reports a
    label twice in a row, at most every other attempt can be a hit when
    no two labels of the label set agree up to case: the rate of the
    session summary cannot exceed [(tentativas + 1) / (2 * tentativas)],
    however well the gesture is made. *)
Theorem hit_rate_is_capped
        (upper : string -> string)
        (model : classifier) (classes : list string) (min_confidence : Q)
        (alvo : string) (reads : list (option results))
        (r r' : recognizer) (st : loop_status) (evs : list (option string * Q)) :
  (forall g g', In g classes -> In g' classes -> upper g = upper g' -> g = g') ->
  alvo <> EmptyString ->
  Forall (fun g => In g classes) (prediction_history r) ->
  main_loop model classes min_confidence (quiet reads) r = (st, r', evs) ->
  exists acertos tentativas,
    placar upper (Some alvo) evs (0, 0) = Val (acertos, tentativas) /\
    tentativas = length evs /\
    acertos = length (corretos upper (Some alvo) (rotulos evs)) /\
    2 * acertos <= tentativas + 1.
Proof.
  intros Hcase Halvo Hhist Hloop.
  destruct (@quiet_reports model classes min_confidence reads r r' st evs Hloop Hhist)
    as (Halt & Hknown & Hlen & Hsome).
  apply truthy_Some in Halvo.
  rewrite (@placar_counts upper (Some alvo) evs Halvo Hsome (0, 0)).
  cbn [fst snd Nat.add].
  eexists _, _. split; [ reflexivity | ]. split; [ reflexivity | ].
  split; [ reflexivity | ].
  destruct (@alternating_corretos upper classes (Some alvo) Hcase (rotulos evs)
              (ultimo_gesto r) Halt Hknown) as [Hcap _].
  rewrite <- Hlen. exact Hcap.
Qed.

Lemma hit_rate_is_capped_witness :
  let model := const_model (9 # 10) (1 # 10) in
  let classes := ["a"; "B"]%string in
  let reads := map Some (repeat (mao 1) 95) in
  exists acertos tentativas,
    placar upper_ascii (Some "A"%string)
           (snd (main_loop model classes MIN_CONFIDENCE (quiet reads) init)) (0, 0) =
      Val (acertos, tentativas) /\
    tentativas =
      length (snd (main_loop model classes MIN_CONFIDENCE (quiet reads) init)) /\
    acertos =
      length (corretos upper_ascii (Some "A"%string)
                (rotulos (snd (main_loop model classes MIN_CONFIDENCE
                                 (quiet reads) init)))) /\
    2 * acertos <= tentativas + 1.
Proof.
  intros model classes reads.
  apply (@hit_rate_is_capped upper_ascii model classes MIN_CONFIDENCE "A"%string
           reads init
           (snd (fst (main_loop model classes MIN_CONFIDENCE (quiet reads) init)))
           (fst (fst (main_loop model classes MIN_CONFIDENCE (quiet reads) init)))).
  - intros g g' [<- | [<- | []]] [<- | [<- | []]]; vm_compute; congruence.
  - discriminate.
  - constructor.
  - destruct (main_loop model classes MIN_CONFIDENCE (quiet reads) init) as [[st r'] evs].
    reflexivity.
Defined.

End SessionScore.


(** ** The loading screen *)

Module Loading.

Lemma carregar_ends (n : nat) :
  forall progresso fuel,
    101 - progresso <= n -> n < fuel ->
    exists reagendamentos cameras,
      carregar_nivel_background fuel progresso = Some (reagendamentos, cameras) /\
      reagendamentos <= 101 - progresso /\
      cameras <= 1 /\
      (10 < progresso -> cameras = 0).
Proof.
  induction n as [ | n IH ]; intros p fuel Hn Hfuel.
  - destruct fuel as [ | fuel ]; [ lia | ]. cbn [carregar_nivel_background].
    destruct (Nat.leb_spec p 100) as [Hle | _]; [ lia | ].
    destruct (Nat.leb_spec p 33) as [Hle | _]; [ lia | ].
    exists 0, 0. cbn [andb]. repeat split; lia.
  - destruct fuel as [ | fuel ]; [ lia | ]. cbn [carregar_nivel_background].
    destruct (Nat.leb_spec p 100) as [Hle | Hgt].
    + set (incremento := if 90 <? p then 1 else if 50 <? p then 2 else 5).
      assert (Hinc : 1 <= incremento <= 5).
      { subst incremento. destruct (90 <? p); [ lia | ]. destruct (50 <? p); lia. }
      destruct (IH (p + incremento) fuel) as (t & c & -> & Ht & Hc & Hzero);
        [ lia | lia | ].
      eexists _, _. split; [ reflexivity | ].
      destruct (Nat.leb_spec p 33) as [H33 | H33];
        destruct (Nat.eqb_spec p 10) as [H10 | H10]; cbn [andb];
        repeat split; try lia; intros Hp; lia.
    + destruct (Nat.leb_spec p 33) as [H33 | _]; [ lia | ].
      exists 0, 0. cbn [andb]. repeat split; lia.
Qed.

(** X18.  The loading screen always ends.  From any progress value it starts
    the level after at most [101 - progresso] reschedules of itself and
    calls [pre_iniciar_camera] at most once on the way; from the 0 that
    [iniciar_nivel] passes, it is 39 reschedules and exactly one call. *)
Theorem loading_ends (progresso fuel : nat) :
  101 - progresso < fuel ->
  (exists reagendamentos cameras,
     carregar_nivel_background fuel progresso = Some (reagendamentos, cameras) /\
     reagendamentos <= 101 - progresso /\ cameras <= 1) /\
  (progresso = 0 -> carregar_nivel_background fuel progresso = Some (39, 1)).
Proof.
  intros Hfuel. split.
  - destruct (@carregar_ends (101 - progresso) progresso fuel (le_n _) Hfuel)
      as (t & c & Hrun & Ht & Hc & _).
    exists t, c. repeat split; assumption.
  - intros ->. cbn [Nat.sub] in Hfuel.
    do 40 (destruct fuel as [ | fuel ]; [ lia | ]).
    reflexivity.
Qed.

Lemma loading_ends_witness :
  (exists reagendamentos cameras,
     carregar_nivel_background 102 0 = Some (reagendamentos, cameras) /\
     reagendamentos <= 101 - 0 /\ cameras <= 1) /\
  (0 = 0 -> carregar_nivel_background 102 0 = Some (39, 1)).
Proof.
  apply (@loading_ends 0 102). cbn. lia.
Defined.

End Loading.


(** ** The camera callback of the desktop application *)

Module CameraFacts.

Import Camera.

(** With [skip_frames = 1] and an even counter, the frames processed
    are the second, the fourth, ... of those read. *)
Lemma processados_every_other (n : nat) :
  forall (frames : list results) (count : nat),
    length frames <= n -> Nat.Even count ->
    forall i, nth_error (processados 1 count frames) i = nth_error frames (2 * i + 1).
Proof.
  induction n as [ | n IH ]; intros frames count Hlen [m ->] i.
  - destruct frames; [ | cbn in Hlen; lia ].
    cbn. destruct i; reflexivity.
  - destruct frames as [ | x [ | y rest ] ].
    + cbn. destruct i; reflexivity.
    + cbn [processados Nat.add].
      replace ((2 * m + 1) mod 2) with 1
        by (rewrite (Nat.add_comm (2 * m)), (Nat.mul_comm 2), Nat.Div0.mod_add;
            reflexivity).
      cbn [Nat.eqb]. replace (2 * i + 1) with (S (2 * i)) by lia.
      cbn [nth_error]. destruct i; [ reflexivity | ].
      destruct (2 * S i) eqn:H; [ lia | reflexivity ].
    + cbn [processados Nat.add].
      replace ((2 * m + 1) mod 2) with 1
        by (rewrite (Nat.add_comm (2 * m)), (Nat.mul_comm 2), Nat.Div0.mod_add;
            reflexivity).
      replace ((2 * m + 1 + 1) mod 2) with 0
        by (replace (2 * m + 1 + 1) with (0 + (m + 1) * 2) by lia;
            rewrite Nat.Div0.mod_add; reflexivity).
      cbn [Nat.eqb].
      destruct i as [ | i ]; [ reflexivity | ].
      replace (2 * S i + 1) with (S (S (2 * i + 1))) by lia.
      cbn [nth_error]. apply IH.
      * cbn [length] in Hlen. lia.
      * exists (m + 1). lia.
Qed.

Section Working.

Variable modelo : classifier.
Variable classes_ : list string.
Variable alvo : string.
Hypothesis Hne : alvo <> EmptyString.

(** A call that reads a frame while nothing fails. *)
Lemma atualizar_frame_ok (rs : results) (abre : bool) (rest : list leitura)
      (s : estado) :
  running s = true ->
  Gui.gesto_alvo (app s) = Some alvo ->
  length (Gui.buffer_gestos (app s)) <= 30 ->
  length (Gui.historico_predicoes (app s)) <= 15 ->
  exists a',
    atualizar_frame (Some modelo) (Some classes_) ((Some rs, abre) :: rest) s =
      Some (mkEstado a' true (frame_count s + 1) (skip_frames s)
                     (S (pendentes s)) (reinicios s), rest) /\
    gui_run (Some modelo) (Some classes_)
            (processados (skip_frames s) (frame_count s) [rs]) (app s) = (Val tt, a') /\
    Gui.gesto_alvo a' = Some alvo /\
    length (Gui.buffer_gestos a') <= 30 /\
    length (Gui.historico_predicoes a') <= 15.
Proof.
  intros Hrun Halvo Hbuf Hhist.
  cbn [atualizar_frame processados]. rewrite Hrun. cbn [negb].
  cbn [contar_frame frame_count skip_frames app].
  destruct ((frame_count s + 1) mod (skip_frames s + 1) =? 0).
  - destruct (@GuiRuns.processar_frame_step modelo classes_ rs (app s) alvo
                Halvo Hne Hbuf Hhist)
      as (a' & n & Hstep & Halvo' & _ & Hb' & Hh' & _).
    exists a'. cbn [gui_run]. rewrite Hstep.
    unfold agendar, set_app, contar_frame.
    cbn [running app frame_count skip_frames pendentes reinicios].
    rewrite Hrun. repeat split; assumption.
  - exists (app s). cbn [gui_run]. unfold agendar, contar_frame.
    cbn [running app frame_count skip_frames pendentes reinicios].
    rewrite Hrun. repeat split; assumption.
Qed.

Lemma processados_cons (skip count : nat) (rs : results) (frames : list results) :
  processados skip count (rs :: frames) =
  processados skip count [rs] ++ processados skip (count + 1) frames.
Proof.
  cbn [processados]. destruct ((count + 1) mod (skip + 1) =? 0); reflexivity.
Qed.

Lemma gui_run_app (frames1 frames2 : list results) :
  forall a a1 : Gui.app,
    gui_run (Some modelo) (Some classes_) frames1 a = (Val tt, a1) ->
    gui_run (Some modelo) (Some classes_) (frames1 ++ frames2) a =
    gui_run (Some modelo) (Some classes_) frames2 a1.
Proof.
  induction frames1 as [ | rs frames1 IH ]; intros a a1 Hrun.
  - cbn in Hrun. injection Hrun as <-. reflexivity.
  - cbn [List.app gui_run] in *.
    destruct (Gui.processar_frame (Some modelo) (Some classes_) rs a)
      as [[[] | e] a0]; [ | discriminate Hrun ].
    apply IH. exact Hrun.
Qed.

Lemma mainloop_ok (frames : list results) :
  forall s : estado,
    running s = true -> pendentes s = 1 ->
    Gui.gesto_alvo (app s) = Some alvo ->
    length (Gui.buffer_gestos (app s)) <= 30 ->
    length (Gui.historico_predicoes (app s)) <= 15 ->
    exists a',
      mainloop (Some modelo) (Some classes_) (length frames)
               (map (fun rs => (Some rs, true)) frames) s =
        Some (mkEstado a' true (frame_count s + length frames) (skip_frames s)
                       1 (reinicios s), []) /\
      gui_run (Some modelo) (Some classes_)
              (processados (skip_frames s) (frame_count s) frames) (app s) =
        (Val tt, a').
Proof.
  induction frames as [ | rs frames IH ]; intros s Hrun Hpend Halvo Hbuf Hhist.
  - exists (app s). cbn. rewrite Nat.add_0_r. destruct s; cbn in *. subst.
    split; reflexivity.
  - cbn [length map mainloop]. rewrite Hpend. cbn [Nat.eqb].
    destruct (@atualizar_frame_ok rs true (map (fun rs => (Some rs, true)) frames)
                (desagendar s) Hrun Halvo Hbuf Hhist)
      as (a1 & Hstep & Hrun1 & Halvo1 & Hb1 & Hh1).
    rewrite Hstep.
    cbn [desagendar frame_count skip_frames pendentes reinicios app] in *.
    rewrite Hpend. cbn [Nat.sub].
    set (s1 := mkEstado a1 true (frame_count s + 1) (skip_frames s) 1 (reinicios s)).
    destruct (IH s1 eq_refl eq_refl Halvo1 Hb1 Hh1) as (a' & Hloop & Hrest).
    exists a'. rewrite Hloop. subst s1.
    cbn [frame_count skip_frames reinicios app] in *.
    split; [ do 3 f_equal; lia | ].
    rewrite processados_cons, (gui_run_app _ _ _ Hrun1). exact Hrest.
Qed.

End Working.

(** X19.  While nothing fails, the camera callback hands to [processar_frame]
    only the frames for which the frame counter is a multiple of
    [skip_frames + 1], and keeps exactly one call of itself scheduled.
    With the [skip_frames = 1] that [iniciar_camera] sets and its counter
    at 0, these are the second, the fourth, ... frames read: every other
    frame is dropped, and a window of 30 samples takes 60 frames of the
    camera. *)
Theorem camera_drops_every_other_frame
        (modelo : classifier) (classes_ : list string) (alvo : string)
        (frames : list results) (s : estado) :
  alvo <> EmptyString ->
  running s = true -> pendentes s = 1 ->
  Gui.gesto_alvo (app s) = Some alvo ->
  length (Gui.buffer_gestos (app s)) <= 30 ->
  length (Gui.historico_predicoes (app s)) <= 15 ->
  exists a',
    mainloop (Some modelo) (Some classes_) (length frames)
             (map (fun rs => (Some rs, true)) frames) s =
      Some (mkEstado a' true (frame_count s + length frames) (skip_frames s)
                     1 (reinicios s), []) /\
    gui_run (Some modelo) (Some classes_)
            (processados (skip_frames s) (frame_count s) frames) (app s) =
      (Val tt, a') /\
    (skip_frames s = 1 -> Nat.Even (frame_count s) ->
     forall i, nth_error (processados (skip_frames s) (frame_count s) frames) i =
               nth_error frames (2 * i + 1)).
Proof.
  intros Hne Hrun Hpend Halvo Hbuf Hhist.
  destruct (@mainloop_ok modelo classes_ alvo Hne frames s Hrun Hpend Halvo Hbuf Hhist)
    as (a' & Hloop & Hgui).
  exists a'. split; [ exact Hloop | ]. split; [ exact Hgui | ].
  intros -> Heven i.
  apply (@processados_every_other (length frames) frames (frame_count s)
           (le_n _) Heven).
Qed.

Lemma camera_drops_every_other_frame_witness :
  let s := mkEstado (Gui.mkApp [] [] 0 None (Some "A"%string) 0 1 0 []) true 0 1 1 0 in
  let frames := [mao 1; mao 2; mao 3; mao 4; mao 1] in
  exists a',
    mainloop (Some demo_model) (Some demo_classes) (length frames)
             (map (fun rs => (Some rs, true)) frames) s =
      Some (mkEstado a' true (frame_count s + length frames) (skip_frames s)
                     1 (reinicios s), []) /\
    gui_run (Some demo_model) (Some demo_classes)
            (processados (skip_frames s) (frame_count s) frames) (app s) =
      (Val tt, a') /\
    (skip_frames s = 1 -> Nat.Even (frame_count s) ->
     forall i, nth_error (processados (skip_frames s) (frame_count s) frames) i =
               nth_error frames (2 * i + 1)).
Proof.
  intros s frames.
  apply (@camera_drops_every_other_frame demo_model demo_classes "A"%string frames s).
  - discriminate.
  - reflexivity.
  - reflexivity.
  - reflexivity.
  - cbn. lia.
  - cbn. lia.
Defined.

Section NoModel.

Variable modelo_gestos : option classifier.
Variable le_gestos : option (list string).

(** The state in which every processed frame with hands fails: nothing
    to predict with, and a window that the next sample fills. *)
Local Abbreviation stuck := (fun s : estado =>
  running s = true /\ skip_frames s = 1 /\ (frame_count s + 1) mod 2 = 0 /\
  29 <= length (Gui.buffer_gestos (app s)) <= 30).

Lemma atualizar_frame_stuck (rs rs' : results) (abre' : bool)
      (rest : list leitura) (s : estado) :
  modelo_gestos = None \/ le_gestos = None \/
    truthy (Gui.gesto_alvo (app s)) = false ->
  stuck s -> has_hands rs = true ->
  exists a',
    atualizar_frame modelo_gestos le_gestos
                    ((Some rs, true) :: (Some rs', abre') :: rest) s =
      Some (mkEstado a' true 1 1 (pendentes s + 2) (S (reinicios s)), rest) /\
    Gui.gesto_alvo a' = Gui.gesto_alvo (app s) /\
    Gui.pontuacao a' = Gui.pontuacao (app s) /\
    length (Gui.buffer_gestos a') = 30.
Proof.
  intros Hmissing (Hrun & Hskip & Hcount & Hbuf) Hyes.
  assert (Hlen : length (Deque.append 30 (Gui.buffer_gestos (app s))
                                       (processar_landmarks rs)) = 30).
  { rewrite DequeFacts.append_length by lia. lia. }
  pose proof (@GuiTheorems.processar_frame_missing modelo_gestos le_gestos rs (app s)
                Hmissing Hyes Hlen) as Hframe.
  exists (Gui.set_buffer_gestos
            (Deque.append 30 (Gui.buffer_gestos (app s)) (processar_landmarks rs))
            (Gui.set_frames 0 (app s))).
  split.
  - cbn [atualizar_frame]. rewrite Hrun. cbn [negb].
    cbn [contar_frame frame_count skip_frames app]. rewrite Hskip.
    change (1 + 1) with 2. rewrite Hcount. cbn [Nat.eqb]. rewrite Hframe.
    cbn [parar_camera camera_aberta set_app running negb contar_frame
         frame_count skip_frames app pendentes reinicios Nat.add Nat.modulo
         Nat.divmod fst snd Nat.sub Nat.eqb agendar].
    unfold agendar, contar_frame, camera_aberta, parar_camera, set_app.
    cbn [running frame_count skip_frames app pendentes reinicios Nat.add].
    do 3 f_equal. lia.
  - cbn [Gui.gesto_alvo Gui.pontuacao Gui.buffer_gestos Gui.set_buffer_gestos
         Gui.set_frames]. repeat split. exact Hlen.
Qed.

Lemma mainloop_stuck (pares : list (results * results)) :
  forall s : estado,
    modelo_gestos = None \/ le_gestos = None \/
      truthy (Gui.gesto_alvo (app s)) = false ->
    stuck s -> 0 < pendentes s ->
    Forall (fun p => has_hands (fst p) = true) pares ->
    exists s',
      mainloop modelo_gestos le_gestos (length pares)
               (flat_map (fun p => [(Some (fst p), true); (Some (snd p), true)]) pares)
               s = Some (s', []) /\
      running s' = true /\
      pendentes s' = pendentes s + length pares /\
      reinicios s' = reinicios s + length pares /\
      Gui.pontuacao (app s') = Gui.pontuacao (app s) /\
      Gui.gesto_alvo (app s') = Gui.gesto_alvo (app s).
Proof.
  induction pares as [ | [rs rs'] pares IH ]; intros s Hmissing Hstuck Hpend Hall.
  - exists s. cbn. rewrite !Nat.add_0_r. destruct Hstuck as (Hrun & _).
    repeat split. exact Hrun.
  - inversion Hall as [ | ? ? Hyes Hall' ]; subst. cbn [fst] in Hyes.
    cbn [length flat_map List.app fst snd mainloop].
    destruct (Nat.eqb_spec (pendentes s) 0) as [Hzero | _]; [ lia | ].
    destruct (@atualizar_frame_stuck rs rs' true
                (flat_map (fun p => [(Some (fst p), true); (Some (snd p), true)]) pares)
                (desagendar s))
      as (a1 & Hstep & Halvo1 & Hp1 & Hb1).
    { exact Hmissing. }
    { exact Hstuck. }
    { exact Hyes. }
    rewrite Hstep.
    cbn [desagendar pendentes reinicios app] in *.
    set (s1 := mkEstado a1 true 1 1 (pendentes s - 1 + 2) (S (reinicios s))).
    destruct (IH s1) as (s' & Hloop & Hrun' & Hpend' & Hre' & Hpt' & Halvo').
    { subst s1. cbn [app]. rewrite Halvo1. exact Hmissing. }
    { subst s1. cbn [running skip_frames frame_count app]. rewrite Hb1.
      repeat split; lia. }
    { subst s1. cbn [pendentes]. lia. }
    { exact Hall'. }
    exists s'. rewrite Hloop. subst s1.
    cbn [pendentes reinicios app] in *.
    repeat split; try assumption; try lia; congruence.
Qed.

End NoModel.

(** X20.  Without a model, without labels or without a target the application
    does not stop on the missing [reconhecer_gesto_simulado]: the camera
    callback catches the [AttributeError] and restarts the camera.  Once
    the window is full this happens on every processed frame with hands,
    and each restart leaves one more scheduled call of [atualizar_frame]
    than before, since the restarted camera starts a callback chain of
    its own while the interrupted one goes on: after [n] such frames
    there are [n] more pending calls and [n] more restarts, and the
    score has not moved. *)
Theorem missing_model_restarts_camera
        (modelo_gestos : option classifier) (le_gestos : option (list string))
        (pares : list (results * results)) (s : estado) :
  modelo_gestos = None \/ le_gestos = None \/
    truthy (Gui.gesto_alvo (app s)) = false ->
  running s = true -> skip_frames s = 1 -> (frame_count s + 1) mod 2 = 0 ->
  29 <= length (Gui.buffer_gestos (app s)) <= 30 ->
  0 < pendentes s ->
  Forall (fun p => has_hands (fst p) = true) pares ->
  exists s',
    mainloop modelo_gestos le_gestos (length pares)
             (flat_map (fun p => [(Some (fst p), true); (Some (snd p), true)]) pares)
             s = Some (s', []) /\
    running s' = true /\
    pendentes s' = pendentes s + length pares /\
    reinicios s' = reinicios s + length pares /\
    Gui.pontuacao (app s') = Gui.pontuacao (app s).
Proof.
  intros Hmissing Hrun Hskip Hcount Hbuf Hpend Hall.
  destruct (@mainloop_stuck modelo_gestos le_gestos pares s Hmissing)
    as (s' & Hloop & Hrun' & Hpend' & Hre' & Hpt' & _).
  - repeat split; try assumption; lia.
  - exact Hpend.
  - exact Hall.
  - exists s'. repeat split; assumption.
Qed.

Lemma missing_model_restarts_camera_witness :
  let s := mkEstado (Gui.mkApp (repeat (processar_landmarks (mao 1)) 29) [] 0
                               None (Some "A"%string) 0 1 0 [])
                    true 1 1 1 0 in
  let pares := [(mao 1, mao 2); (mao 3, sem_maos); (mao 1, mao 1)] in
  exists s',
    mainloop None (Some demo_classes) (length pares)
             (flat_map (fun p => [(Some (fst p), true); (Some (snd p), true)]) pares)
             s = Some (s', []) /\
    running s' = true /\
    pendentes s' = pendentes s + length pares /\
    reinicios s' = reinicios s + length pares /\
    Gui.pontuacao (app s') = Gui.pontuacao (app s).
Proof.
  intros s pares.
  apply (@missing_model_restarts_camera None (Some demo_classes) pares s).
  - left. reflexivity.
  - reflexivity.
  - reflexivity.
  - reflexivity.
  - cbn. lia.
  - cbn. lia.
  - repeat constructor.
Defined.

End CameraFacts.


(** * Where the three recognisers differ *)

(** What a frame with hands pushes: the window gains the sample at its
    right end and, once it holds [SEQUENCE_LENGTH] samples, loses the
    oldest one. *)
Lemma pushed_gains_sample (rs : results) (r : recognizer) :
  pushed rs r =
    (if length (buffer r) <? SEQUENCE_LENGTH then buffer r else tl (buffer r)) ++
    [processar_landmarks rs].
Proof.
  unfold pushed, Deque.append. rewrite length_app. cbn [length].
  destruct (Nat.ltb_spec (length (buffer r)) SEQUENCE_LENGTH) as [Hlt | Hge];
    destruct (Nat.ltb_spec SEQUENCE_LENGTH (length (buffer r) + 1)) as [Hlt' | Hge'];
    try lia; try reflexivity.
  destruct (buffer r) as [ | s b ]; [ cbn in Hge; unfold SEQUENCE_LENGTH in Hge; lia | ].
  reflexivity.
Qed.

(** C3 on the desktop application: the code at a failing input.  With
    the target [B], thirty frames with hands fill the window, and the
    classifier rates it as [A] with 0.4, below the 0.7 of the gate.
    [reconhecer_gesto] appends the label to the vote history before it
    looks at the confidence: the history is [A], the last recognised
    gesture is [A] and the label is shown.  On the next frame the window
    is rated as the target [B] with 0.8; the vote over [A; B] is tied and
    goes to [A], so nothing is scored.  With the history left as it was
    the same frame scores, and [GestureRecognizer] and the script, which
    test the confidence first, keep their history empty on the first
    window and report [B] on the second. *)
Theorem gui_gate_after_history :
  let a0 := Gui.mkApp [] [] 0 None (Some "B"%string) 0 1 0 [] in
  let low := repeat (mao 4) 30 in
  let a1 := snd (gui_run (Some demo_model) (Some demo_classes) low a0) in
  let a2 := snd (gui_run (Some demo_model) (Some demo_classes) [mao 2] a1) in
  (top_class demo_model (Gui.buffer_gestos a1) = Val (0, (4 # 10)%Q) /\
   index demo_classes 0 = Val "A"%string /\
   (4 # 10 < 7 # 10)%Q) /\
  (Gui.historico_predicoes a0 = [] /\
   Gui.historico_predicoes a1 = ["A"%string] /\
   Gui.ultimo_gesto_reconhecido a1 = Some "A"%string /\
   Gui.mensagens a1 = [Gui.Reconhecido "A" "B"]) /\
  (top_class demo_model (Gui.buffer_gestos a2) = Val (1, (8 # 10)%Q) /\
   index demo_classes 1 = Val "B"%string /\
   Gui.historico_predicoes a2 = ["A"; "B"]%string /\
   Gui.pontuacao a2 = 0 /\
   Gui.pontuacao
     (snd (gui_run (Some demo_model) (Some demo_classes) [mao 2]
                   (Gui.set_historico [] a1))) = 10) /\
  (prediction_history (snd (demo_run low init)) = [] /\
   ultimo_gesto (snd (demo_run low init)) = None /\
   demo_eventos low init = Val [] /\
   demo_eventos (low ++ [mao 2]) init = Val [(Some "B"%string, (8 # 10)%Q)]) /\
  (LegacyScript.historico_predicoes
     (snd (script_run demo_model demo_classes low LegacyScript.inicial)) = [] /\
   LegacyScript.historico_predicoes
     (snd (script_run demo_model demo_classes (low ++ [mao 2]) LegacyScript.inicial)) =
     ["B"%string]).
Proof. repeat split; vm_compute; reflexivity. Qed.

(** C4 on the stand-alone script: the code at a failing input.  After
    33 frames with hands read as [A] (a recognition on the 30th, then
    three samples in the window) and ten frames without hands, the
    script and [GestureRecognizer] stand alike: three samples, the
    history [A], the counter at 10.  The eleventh frame without hands
    takes the counter past [RESET_THRESHOLD] with a window that is not
    empty.  [GestureRecognizer] empties the window and the vote history;
    the script empties the window only and keeps [A] in its history.  In
    both the last gesture stays [A] and the frame pushes nothing, and in
    both a frame with hands then sets the counter to 0 and pushes its
    sample.  When the hand shows [B], [GestureRecognizer] reports it on
    the frame that fills the window, and the script does not: its vote
    over [A; B] is tied and goes to [A]. *)
Theorem script_absence_keeps_history :
  let seen := repeat (mao 1) 33 ++ repeat sem_maos 10 in
  let g := snd (script_run demo_model demo_classes seen LegacyScript.inicial) in
  let g' := snd (LegacyScript.iteracao demo_model demo_classes sem_maos g) in
  let r := snd (demo_run seen init) in
  let r' := snd (demo_frame sem_maos r) in
  (LegacyScript.buffer g = repeat (processar_landmarks (mao 1)) 3 /\
   LegacyScript.historico_predicoes g = ["A"%string] /\
   LegacyScript.frames_sem_maos g = 10 /\
   LegacyScript.ultimo_gesto g = Some "A"%string) /\
  (buffer r = repeat (processar_landmarks (mao 1)) 3 /\
   prediction_history r = ["A"%string] /\
   frames_sem_maos r = 10 /\
   ultimo_gesto r = Some "A"%string) /\
  (buffer r' = [] /\ prediction_history r' = [] /\
   frames_sem_maos r' = 11 /\ ultimo_gesto r' = Some "A"%string) /\
  (LegacyScript.buffer g' = [] /\
   LegacyScript.historico_predicoes g' = ["A"%string] /\
   LegacyScript.frames_sem_maos g' = 11 /\
   LegacyScript.ultimo_gesto g' = Some "A"%string) /\
  (frames_sem_maos (snd (demo_frame (mao 2) r')) = 0 /\
   buffer (snd (demo_frame (mao 2) r')) = [processar_landmarks (mao 2)] /\
   LegacyScript.frames_sem_maos
     (snd (LegacyScript.iteracao demo_model demo_classes (mao 2) g')) = 0 /\
   LegacyScript.buffer
     (snd (LegacyScript.iteracao demo_model demo_classes (mao 2) g')) =
     [processar_landmarks (mao 2)]) /\
  (demo_eventos (repeat (mao 2) 30) r' = Val [(Some "B"%string, (8 # 10)%Q)] /\
   fst (script_run demo_model demo_classes (repeat (mao 2) 30) g') =
     Val (repeat None 30) /\
   LegacyScript.historico_predicoes
     (snd (script_run demo_model demo_classes (repeat (mao 2) 30) g')) =
     ["A"; "B"]%string).
Proof. repeat split; vm_compute; reflexivity. Qed.
